(** * 1D elastic dislocation model: slip-rate inversion from GNSS velocities

    A shallow embedding of the computational cells of the notebook
    [ex01_1D_slip_rate_inversion_gnss.ipynb]: the fault geometry, the
    projection of stations and velocities, the arctangent forward model,
    the WRSS penalty and the grid search.

    Numbers.  numpy's [float64] is embedded as the real numbers extended
    with the two infinities and NaN.  Every finite operation is exact:
    rounding, overflow and the sign of zero are not modelled.  Division by
    zero, the mean of an empty array and arithmetic on non-finite values
    follow IEEE 754 as numpy applies it (a warning, never an exception).
    Plain Python scalars (the grid bounds and steps, the length and the
    spacing of the profile) are reals.  Where Python's [round] turns them
    into a count, the result of each sum, difference and quotient on the
    way is rounded to binary64 (53 significant bits, a tie going to the
    even significand; the exponent range is not bounded), since the count
    depends on that rounding.  Their division raises [ZeroDivisionError]
    on a zero divisor.

    Arrays are lists; a 2-D array is a list of rows.  Exceptions are the
    [Raise] branch of [result]. *)

From Stdlib Require Import Reals Lra Lia List ZArith Bool PeanoNat.
Import ListNotations.

Open Scope R_scope.

(** ** Exceptions *)

Inductive exn : Type :=
| ValueError
| ZeroDivisionError
| IndexError.

Inductive result (A : Type) : Type :=
| Ok (a : A)
| Raise (e : exn).

Arguments Ok {A} a.
Arguments Raise {A} e.

Definition bind {A B : Type} (m : result A) (k : A -> result B) : result B :=
  match m with
  | Ok a => k a
  | Raise e => Raise e
  end.

Notation "x <- m ;; k" := (bind m (fun x => k))
  (at level 61, m at next level, right associativity).

Fixpoint foldM {A S : Type} (body : S -> A -> result S) (l : list A) (st : S)
  : result S :=
  match l with
  | [] => Ok st
  | a :: l' => st' <- body st a ;; foldM body l' st'
  end.

Fixpoint mapM {A B : Type} (f : A -> result B) (l : list A) : result (list B) :=
  match l with
  | [] => Ok []
  | a :: l' => b <- f a ;; bs <- mapM f l' ;; Ok (b :: bs)
  end.

(** ** float64 scalars *)

Module F64.

Inductive float64 : Type :=
| Fin (r : R)
| PInf
| NInf
| NaN.

Definition Rltb (x y : R) : bool := if Rlt_dec x y then true else false.
Definition Reqb (x y : R) : bool := if Req_dec_T x y then true else false.

Definition fneg (a : float64) : float64 :=
  match a with
  | Fin x => Fin (- x)
  | PInf => NInf
  | NInf => PInf
  | NaN => NaN
  end.

Definition fadd (a b : float64) : float64 :=
  match a, b with
  | NaN, _ | _, NaN => NaN
  | Fin x, Fin y => Fin (x + y)
  | PInf, NInf | NInf, PInf => NaN
  | PInf, _ | _, PInf => PInf
  | NInf, _ | _, NInf => NInf
  end.

Definition fsub (a b : float64) : float64 := fadd a (fneg b).

(** An infinity scaled by a finite factor: NaN for a zero factor. *)
Definition scale_inf (inf : float64) (y : R) : float64 :=
  if Reqb y 0 then NaN else if Rltb 0 y then inf else fneg inf.

Definition fmul (a b : float64) : float64 :=
  match a, b with
  | NaN, _ | _, NaN => NaN
  | Fin x, Fin y => Fin (x * y)
  | Fin x, PInf => scale_inf PInf x
  | Fin x, NInf => scale_inf NInf x
  | PInf, Fin y => scale_inf PInf y
  | NInf, Fin y => scale_inf NInf y
  | PInf, PInf | NInf, NInf => PInf
  | PInf, NInf | NInf, PInf => NInf
  end.

(** numpy true division: x/0 is an infinity of the sign of x, 0/0 is NaN. *)
Definition fdiv (a b : float64) : float64 :=
  match a, b with
  | NaN, _ | _, NaN => NaN
  | Fin x, Fin y =>
      if Reqb y 0 then
        if Reqb x 0 then NaN else if Rltb 0 x then PInf else NInf
      else Fin (x / y)
  | Fin _, PInf | Fin _, NInf => Fin 0
  | PInf, Fin y => if Rltb y 0 then NInf else PInf
  | NInf, Fin y => if Rltb y 0 then PInf else NInf
  | PInf, PInf | PInf, NInf | NInf, PInf | NInf, NInf => NaN
  end.

(** [x**2] on a float64 is the square. *)
Definition fpow2 (a : float64) : float64 := fmul a a.

Definition fsqrt (a : float64) : float64 :=
  match a with
  | Fin x => if Rltb x 0 then NaN else Fin (sqrt x)
  | PInf => PInf
  | NInf | NaN => NaN
  end.

Definition fatan (a : float64) : float64 :=
  match a with
  | Fin x => Fin (atan x)
  | PInf => Fin (PI / 2)
  | NInf => Fin (- (PI / 2))
  | NaN => NaN
  end.

Definition fsin (a : float64) : float64 :=
  match a with
  | Fin x => Fin (sin x)
  | _ => NaN
  end.

Definition fcos (a : float64) : float64 :=
  match a with
  | Fin x => Fin (cos x)
  | _ => NaN
  end.

(** The two-argument arctangent on reals: the angle of the point
    (abscissa [x], ordinate [y]), in (-PI, PI]. *)
Definition Ratan2 (y x : R) : R :=
  if Rltb 0 x then atan (y / x)
  else if Rltb x 0 then
    if Rltb y 0 then atan (y / x) - PI else atan (y / x) + PI
  else if Rltb 0 y then PI / 2
  else if Rltb y 0 then - (PI / 2)
  else 0.

Definition farctan2 (y x : float64) : float64 :=
  match y, x with
  | NaN, _ | _, NaN => NaN
  | Fin b, Fin a => Fin (Ratan2 b a)
  | Fin _, PInf => Fin 0
  | Fin b, NInf => if Rltb b 0 then Fin (- PI) else Fin PI
  | PInf, Fin _ => Fin (PI / 2)
  | NInf, Fin _ => Fin (- (PI / 2))
  | PInf, PInf => Fin (PI / 4)
  | PInf, NInf => Fin (3 * PI / 4)
  | NInf, PInf => Fin (- (PI / 4))
  | NInf, NInf => Fin (- (3 * PI / 4))
  end.

Definition fdegrees (a : float64) : float64 := fmul a (Fin (180 / PI)).
Definition fradians (a : float64) : float64 := fmul a (Fin (PI / 180)).

(** [a == b]: false whenever a NaN is involved. *)
Definition feqb (a b : float64) : bool :=
  match a, b with
  | Fin x, Fin y => Reqb x y
  | PInf, PInf | NInf, NInf => true
  | _, _ => false
  end.

(** [a < b] on non-NaN values. *)
Definition fltb (a b : float64) : bool :=
  match a, b with
  | Fin x, Fin y => Rltb x y
  | NInf, Fin _ | NInf, PInf | Fin _, PInf => true
  | _, _ => false
  end.

(** [np.minimum]: NaN as soon as one argument is NaN. *)
Definition fminimum (a b : float64) : float64 :=
  match a, b with
  | NaN, _ | _, NaN => NaN
  | _, _ => if fltb b a then b else a
  end.

End F64.
Import F64.

(** ** 1-D and 2-D arrays *)

Module Np.

Definition array := list float64.
Definition matrix := list (list float64).

Fixpoint map2 {A B C : Type} (op : A -> B -> C) (a : list A) (b : list B)
  : list C :=
  match a, b with
  | x :: a', y :: b' => op x y :: map2 op a' b'
  | _, _ => []
  end.

(** An elementwise binary operator on two 1-D arrays, with numpy's
    broadcasting: equal lengths, or one operand of length 1. *)
Definition broadcast2 (op : float64 -> float64 -> float64) (a b : array)
  : result array :=
  if Nat.eqb (length a) (length b) then Ok (map2 op a b)
  else match a, b with
       | [x], _ => Ok (map (op x) b)
       | _, [y] => Ok (map (fun x => op x y) a)
       | _, _ => Raise ValueError
       end.

Definition sub (a b : array) : result array := broadcast2 fsub a b.

(** Array-with-scalar operators. *)
Definition div_s (a : array) (d : float64) : array := map (fun x => fdiv x d) a.
Definition mul_s (c : float64) (a : array) : array := map (fmul c) a.
Definition add_s (a : array) (c : float64) : array := map (fun x => fadd x c) a.
Definition sub_s (a : array) (c : float64) : array := map (fun x => fsub x c) a.
Definition arctan (a : array) : array := map fatan a.
Definition pow2 (a : array) : array := map fpow2 a.

Definition sum (a : array) : float64 := fold_left fadd a (Fin 0).

(** [np.mean]: the sum over the count; NaN on an empty array. *)
Definition mean (a : array) : float64 := fdiv (sum a) (Fin (INR (length a))).

Definition zeros (n : nat) : array := repeat (Fin 0) n.

(** [np.diag] of a 1-D array. *)
Fixpoint diag (v : array) : matrix :=
  match v with
  | [] => []
  | x :: v' => (x :: zeros (length v')) :: map (cons (Fin 0)) (diag v')
  end.

(** The row vector [r] times the rows of [M], accumulated over rows into
    [k] columns. *)
Fixpoint vecmat (r : array) (M : matrix) (k : nat) : array :=
  match r, M with
  | x :: r', row :: M' => map2 fadd (map (fmul x) row) (vecmat r' M' k)
  | _, _ => zeros k
  end.

Fixpoint dot (u w : array) : float64 :=
  match u, w with
  | x :: u', y :: w' => fadd (fmul x y) (dot u' w')
  | _, _ => Fin 0
  end.

(** [np.matmul] of a 1-D array with a square 2-D array. *)
Definition matmul_vm (r : array) (M : matrix) : result array :=
  if Nat.eqb (length r) (length M) then Ok (vecmat r M (length M))
  else Raise ValueError.

(** [np.matmul] of two 1-D arrays: the inner product. *)
Definition matmul_vv (u w : array) : result float64 :=
  if Nat.eqb (length u) (length w) then Ok (dot u w) else Raise ValueError.

End Np.

(** ** Forward model and penalty (cells 47 and 48) *)

(** [(s/np.pi)*np.arctan(x_data/D)], the model without the shift. *)
Definition v_model (s D : float64) (x_data : Np.array) : Np.array :=
  Np.mul_s (fdiv s (Fin PI)) (Np.arctan (Np.div_s x_data D)).

(** [v_forward = (s/np.pi)*np.arctan(x_data/D) + v_shift] *)
Definition v_forward (s D v_shift : float64) (x_data : Np.array) : Np.array :=
  Np.add_s (v_model s D x_data) v_shift.

(** [np.matmul(np.matmul(r, np.diag(v_err**2)), r.T)] for a 1-D residual
    [r] (the transpose of a 1-D array is the array itself). *)
Definition penalty (r v_err : Np.array) : result float64 :=
  t <- Np.matmul_vm r (Np.diag (Np.pow2 v_err)) ;;
  Np.matmul_vv t r.

(** [WRSS = np.matmul(np.matmul((v_data-v_forward), np.diag(v_err**2)),
    (v_data-v_forward).T)] *)
Definition WRSS (v_data v_fwd v_err : Np.array) : result float64 :=
  r <- Np.sub v_data v_fwd ;;
  penalty r v_err.

(** ** Fault geometry (cells 19 and 21)

    The inputs are the two fault vertices already converted to planar UTM
    coordinates (easting, northing); the conversion itself is a library
    call outside this development. *)

Definition point := (float64 * float64)%type.

Module Fault.

Section Geometry.

Variables fault_vertex_utm1 fault_vertex_utm2 : point.

(** The vector components, before normalisation. *)
Definition raw_dx : float64 := fsub (fst fault_vertex_utm2) (fst fault_vertex_utm1).
Definition raw_dy : float64 := fsub (snd fault_vertex_utm2) (snd fault_vertex_utm1).

Definition fault_length : float64 := fsqrt (fadd (fpow2 raw_dx) (fpow2 raw_dy)).

(** The fault-parallel unit vector. *)
Definition fault_dx : float64 := fdiv raw_dx fault_length.
Definition fault_dy : float64 := fdiv raw_dy fault_length.

Definition fault_strike : float64 := fdegrees (farctan2 fault_dx fault_dy).

(** The profile direction, at the strike minus 90 degrees. *)
Definition prof_dx : float64 := fsin (fradians (fsub fault_strike (Fin 90))).
Definition prof_dy : float64 := fcos (fradians (fsub fault_strike (Fin 90))).

(** [half_length] is the profile half-length in km. *)
Variable half_length : R.

Definition offset_x : float64 := fmul (Fin (half_length * 1000)) prof_dx.
Definition offset_y : float64 := fmul (Fin (half_length * 1000)) prof_dy.

Definition box_vertices_utm : list point :=
  [ (fsub (fst fault_vertex_utm1) offset_x, fsub (snd fault_vertex_utm1) offset_y);
    (fadd (fst fault_vertex_utm1) offset_x, fadd (snd fault_vertex_utm1) offset_y);
    (fadd (fst fault_vertex_utm2) offset_x, fadd (snd fault_vertex_utm2) offset_y);
    (fsub (fst fault_vertex_utm2) offset_x, fsub (snd fault_vertex_utm2) offset_y) ].

(** Row [k] of the box; the four rows exist by construction. *)
Definition box (k : nat) : point := nth k box_vertices_utm (NaN, NaN).

(** The two ends of the profile line: the means of box rows 0,3 and 1,2. *)
Definition prof_vertices_utm : list point :=
  [ (Np.mean [fst (box 0); fst (box 3)], Np.mean [snd (box 0); snd (box 3)]);
    (Np.mean [fst (box 1); fst (box 2)], Np.mean [snd (box 1); snd (box 2)]) ].

(** ** Station positions along the profile (cells 36 and 38) *)

Definition profile_origin_utm : point :=
  (Np.mean (map fst prof_vertices_utm), Np.mean (map snd prof_vertices_utm)).

(** [selected_gnss_utm]: the planar (easting, northing) of each station. *)
Definition gnss_position (selected_gnss_utm : list point) : list point :=
  map (fun p => (fsub (fst p) (fst profile_origin_utm),
                 fsub (snd p) (snd profile_origin_utm))) selected_gnss_utm.

Definition prof_uv : point := (prof_dx, prof_dy).

(** A row of a two-column array dotted with a 2-vector. *)
Definition dot2 (p u : point) : float64 :=
  fadd (fmul (fst p) (fst u)) (fmul (snd p) (snd u)).

(** [x_data = gnss_position.dot(prof_uv)/1000] *)
Definition x_data (selected_gnss_utm : list point) : Np.array :=
  Np.div_s (map (fun p => dot2 p prof_uv) (gnss_position selected_gnss_utm))
           (Fin 1000).

(** ** Fault-parallel velocities (cell 41) *)

(** A row of [selected_gnss]: longitude, latitude, east and north
    velocity, east and north velocity error, correlation. *)
Record station : Type := mkStation {
  lon : float64;
  lat : float64;
  e_vel : float64;
  n_vel : float64;
  e_err : float64;
  n_err : float64;
  corr : float64
}.

Definition fault_uv : point := (fault_dx, fault_dy).

(** [v_data = selected_gnss[:,[2,3]].dot(fault_uv)] *)
Definition v_data (selected_gnss : list station) : Np.array :=
  map (fun st => dot2 (e_vel st, n_vel st) fault_uv) selected_gnss.

(** [v_err = np.sqrt((selected_gnss[:,4]*fault_uv[0])**2
                     + (selected_gnss[:,5]*fault_uv[1])**2)] *)
Definition v_err (selected_gnss : list station) : Np.array :=
  map (fun st => fsqrt (fadd (fpow2 (fmul (e_err st) (fst fault_uv)))
                             (fpow2 (fmul (n_err st) (snd fault_uv)))))
      selected_gnss.

End Geometry.

End Fault.

(** ** Grid search (cells 52 and 53) *)

Module Grid.

(** Python's one-argument [round]: to the nearest integer, a tie going
    to the even neighbour. *)
Definition py_round (x : R) : Z :=
  let f := Zfloor x in
  let d := x - IZR f in
  if Rltb d (1 / 2) then f
  else if Rltb (1 / 2) d then (f + 1)%Z
  else if Z.even f then f else (f + 1)%Z.

(** A Python [float] is a binary64 number.  [mag x] is the exponent [e]
    with [2^(e-1) <= |x| < 2^e], [ulp x] the spacing of the binary64
    numbers of that exponent, and [fl x] the binary64 number nearest to
    [x], a tie going to the even significand (the rule of [py_round],
    applied to the significand). *)
Definition mag (x : R) : Z := (Zfloor (ln (Rabs x) / ln 2) + 1)%Z.
Definition ulp (x : R) : R := powerRZ 2 (mag x - 53).
Definition fl (x : R) : R := IZR (py_round (x / ulp x)) * ulp x.

(** The largest relative error of one rounding, [2^-53]. *)
Definition eps : R := / 9007199254740992.

(** Python's [+], [-] and [/] on two plain numbers. *)
Definition py_add (a b : R) : R := fl (a + b).
Definition py_sub (a b : R) : R := fl (a - b).
Definition py_div (a b : R) : result R :=
  if Reqb b 0 then Raise ZeroDivisionError else Ok (fl (a / b)).

(** [np.linspace(start, stop, num)], end point included: a negative
    [num] is refused, one sample is [start] alone, and with two or more
    samples the last one is set to [stop]. *)
Definition linspace (start stop : R) (num : Z) : result Np.array :=
  if (num <? 0)%Z then Raise ValueError
  else
    let n := Z.to_nat num in
    let delta := stop - start in
    let sample (i : nat) : R :=
      if Nat.ltb 1 n then
        if Nat.eqb i (n - 1) then stop
        else INR i * (delta / INR (n - 1)) + start
      else INR i * delta + start in
    Ok (map (fun i => Fin (sample i)) (seq 0 n)).

(** [round(1+(hi-lo)/step)]: the number of values to test. *)
Definition count (lo hi step : R) : result Z :=
  q <- py_div (py_sub hi lo) step ;;
  Ok (py_round (py_add 1 q)).

(** [np.meshgrid(s_set, D_set)]: one row per value of [D_set], one
    column per value of [s_set]. *)
Definition meshgrid (s_set D_set : Np.array) : Np.matrix * Np.matrix :=
  (map (fun _ => s_set) D_set,
   map (fun d => map (fun _ => d) s_set) D_set).

Definition range (n : Z) : list nat := seq 0 (Z.to_nat n).

(** [M[i,j]] *)
Definition get2 (M : Np.matrix) (i j : nat) : result float64 :=
  match nth_error M i with
  | Some row =>
      match nth_error row j with
      | Some v => Ok v
      | None => Raise IndexError
      end
  | None => Raise IndexError
  end.

Fixpoint update {A : Type} (l : list A) (k : nat) (f : A -> result A)
  : result (list A) :=
  match l, k with
  | [], _ => Raise IndexError
  | a :: l', O => a' <- f a ;; Ok (a' :: l')
  | a :: l', S k' => l'' <- update l' k' f ;; Ok (a :: l'')
  end.

(** [M[i,j] = v] *)
Definition set2 (M : Np.matrix) (i j : nat) (v : float64) : result Np.matrix :=
  update M i (fun row => update row j (fun _ => Ok v)).

(** The state of the double loop: the penalty surface [WRSS] being
    filled, and [evals], a counter of the executions of the loop body
    (not a variable of the program; it records how many penalties were
    evaluated). *)
Record loop_state : Type := mkLoop {
  surface : Np.matrix;
  evals : nat
}.

Section Search.

Variables x_data v_data v_err : Np.array.

(** The penalty of one parameter pair: the model without shift, the
    shift taken as the mean residual, and the penalty of what is left. *)
Definition cell_penalty (s D : float64) : result float64 :=
  let v_fwd := v_model s D x_data in
  r <- Np.sub v_data v_fwd ;;
  let v_shift := Np.mean r in
  penalty (Np.sub_s r v_shift) v_err.

(** The body of the inner loop at indices [i], [j]. *)
Definition cell (sv Dv : Np.matrix) (st : loop_state) (i j : nat)
  : result loop_state :=
  s <- get2 sv i j ;;
  D <- get2 Dv i j ;;
  w <- cell_penalty s D ;;
  W <- set2 (surface st) i j w ;;
  Ok (mkLoop W (S (evals st))).

(** [for i in range(n_D): for j in range(n_s): ...] *)
Definition search_loop (sv Dv : Np.matrix) (n_D n_s : Z) (st : loop_state)
  : result loop_state :=
  foldM (fun st_i i => foldM (fun st_j j => cell sv Dv st_j i j) (range n_s) st_i)
        (range n_D) st.

(** What cell 52 leaves behind. *)
Record grid : Type := mkGrid {
  n_s : Z;
  s_set : Np.array;
  n_D : Z;
  D_set : Np.array;
  sv : Np.matrix;
  Dv : Np.matrix;
  WRSS_surface : Np.matrix;
  evaluations : nat
}.

Definition grid_search (s_min s_max s_step D_min D_max D_step : R)
  : result grid :=
  ns <- count s_min s_max s_step ;;
  ss <- linspace s_min s_max ns ;;
  nD <- count D_min D_max D_step ;;
  Ds <- linspace D_min D_max nD ;;
  let svDv := meshgrid ss Ds in
  let W0 := map (fun row => Np.zeros (length row)) (fst svDv) in
  st <- search_loop (fst svDv) (snd svDv) nD ns (mkLoop W0 0) ;;
  Ok (mkGrid ns ss nD Ds (fst svDv) (snd svDv) (surface st) (evals st)).

(** [np.amin]: refused on an array without elements. *)
Definition amin (W : Np.matrix) : result float64 :=
  match concat W with
  | [] => Raise ValueError
  | w :: ws => Ok (fold_left fminimum ws w)
  end.

Definition enumerate {A : Type} (l : list A) : list (nat * A) :=
  combine (seq 0 (length l)) l.

(** [np.where(W == b)]: the index pairs of the matching cells, row by
    row. *)
Definition where_eq (W : Np.matrix) (b : float64) : list (nat * nat) :=
  flat_map (fun ir =>
              map (fun jw => (fst ir, fst jw))
                  (filter (fun jw => feqb (snd jw) b) (enumerate (snd ir))))
           (enumerate W).

(** [M[idx]] for a pair of index arrays. *)
Definition take (M : Np.matrix) (idx : list (nat * nat)) : result Np.array :=
  mapM (fun ij => get2 M (fst ij) (snd ij)) idx.

(** [.item()]: the single element of an array of size 1. *)
Definition item (a : Np.array) : result float64 :=
  match a with
  | [x] => Ok x
  | _ => Raise ValueError
  end.

Record best : Type := mkBest {
  WRSS_best : float64;
  s_best : float64;
  D_best : float64;
  v_shift_best : float64
}.

Definition best_model (g : grid) : result best :=
  wb <- amin (WRSS_surface g) ;;
  let idx := where_eq (WRSS_surface g) wb in
  sel_s <- take (sv g) idx ;;
  sb <- item sel_s ;;
  sel_D <- take (Dv g) idx ;;
  Db <- item sel_D ;;
  let v_best := v_model sb Db x_data in
  r <- Np.sub v_data v_best ;;
  Ok (mkBest wb sb Db (Np.mean r)).

(** Cells 52 and 53 in sequence. *)
Definition run (s_min s_max s_step D_min D_max D_step : R) : result (grid * best) :=
  g <- grid_search s_min s_max s_step D_min D_max D_step ;;
  b <- best_model g ;;
  Ok (g, b).

End Search.

End Grid.

(** ** Exploring the 1-D models along a synthetic profile (cells 5, 8, 46) *)

Module Profile.

(** [half_points = round(half_length/point_spacing)] *)
Definition half_points (half_length point_spacing : R) : result Z :=
  q <- Grid.py_div half_length point_spacing ;;
  Ok (Grid.py_round q).

(** [x = np.linspace(-half_length,half_length,1+2*half_points)] *)
Definition x (half_length point_spacing : R) : result Np.array :=
  hp <- half_points half_length point_spacing ;;
  Grid.linspace (- half_length) half_length (1 + 2 * hp).

(** A scalar divided by an array. *)
Definition rdiv_s (d : float64) (a : Np.array) : Np.array :=
  map (fun y => fdiv d y) a.

(** The coseismic displacement of cell 8:
    [u = (s/np.pi) * np.arctan(d/x)] *)
Definition u (s d : float64) (xs : Np.array) : Np.array :=
  Np.mul_s (fdiv s (Fin PI)) (Np.arctan (rdiv_s d xs)).

(** Cell 8 from its parameters to the displacement profile. *)
Definition coseismic (s d half_length point_spacing : R) : result Np.array :=
  xs <- x half_length point_spacing ;;
  Ok (u (Fin s) (Fin d) xs).

End Profile.

(** ** The formulas of the specification, for comparison *)

Module Spec.

(** The penalty as the specification words it: each squared residual
    weighted by the inverse of the variance. *)
Fixpoint WRSS_inverse_variance (v_obs v_mod sigma : list R) : R :=
  match v_obs, v_mod, sigma with
  | o :: v_obs', m :: v_mod', sg :: sigma' =>
      (1 / (sg * sg)) * ((o - m) * (o - m))
      + WRSS_inverse_variance v_obs' v_mod' sigma'
  | _, _, _ => 0
  end.

(** The profile distance as the specification words it: the position
    relative to the origin, dotted with the unit fault-parallel vector. *)
Definition distance_along_fault (origin fault_unit station_pos : R * R) : R :=
  (fst station_pos - fst origin) * fst fault_unit
  + (snd station_pos - snd origin) * snd fault_unit.

(** The closed form of one prediction of the forward model. *)
Definition arctan_profile (s D offset x : R) : R := s / PI * atan (x / D) + offset.

(** The inner product of two sequences of reals. *)
Fixpoint dotR (a b : list R) : R :=
  match a, b with
  | x :: a', y :: b' => x * y + dotR a' b'
  | _, _ => 0
  end.

(** The penalty of a residual [r] in closed form: every residual times
    the square of its error times the residual again. *)
Definition penalty_closed (r sigma : list R) : R :=
  dotR (Np.map2 Rmult r (map (fun sg => sg * sg) sigma)) r.

(** The mean of a sequence of reals. *)
Definition sumR (l : list R) : R := fold_left Rplus l 0.
Definition meanR (l : list R) : R := sumR l / INR (length l).

(** The residuals of the model without shift. *)
Definition residuals (xs vs : list R) (s D : R) : list R :=
  Np.map2 Rminus vs (map (fun x => s / PI * atan (x / D)) xs).

(** The penalty of one grid cell in closed form. *)
Definition cell_penalty_closed (xs vs es : list R) (s D : R) : R :=
  let r := residuals xs vs s D in
  penalty_closed (map (fun a => a - meanR r) r) es.

(** The value the loop stores for the pair [(s, D)]; NaN stands in where
    the evaluation raises. *)
Definition penalty_value (x_data v_data v_err : Np.array) (s D : float64)
  : float64 :=
  match Grid.cell_penalty x_data v_data v_err s D with
  | Ok w => w
  | Raise _ => NaN
  end.

(** The whole surface: a row per locking depth, a column per slip rate. *)
Definition penalty_surface (x_data v_data v_err s_set D_set : Np.array)
  : Np.matrix :=
  map (fun D => map (fun s => penalty_value x_data v_data v_err s D) s_set) D_set.

(** Values spread evenly over the inclusive range from [lo] to [hi]:
    the first is [lo]; with two values or more the last is [hi] and the
    one of index [i] is [lo + i*(hi-lo)/(n-1)], [n] being their number. *)
Definition evenly_spaced (lo hi : R) (l : Np.array) : Prop :=
  nth_error l 0 = Some (Fin lo)
  /\ ((2 <= length l)%nat -> nth_error l (length l - 1) = Some (Fin hi))
  /\ (forall i : nat, (S i < length l)%nat ->
        nth_error l i
        = Some (Fin (lo + INR i * ((hi - lo) / INR (length l - 1))))).

(** The ceiling of a real. *)
Definition Zceil (x : R) : Z := (- Zfloor (- x))%Z.

(** The number of grid values as the specification words it. *)
Definition grid_count (lo hi step : R) : Z := (Zceil ((hi - lo) / step) + 1)%Z.

End Spec.
Import Spec.

(** * Properties *)

(** ** Deciding comparisons of reals *)

Lemma Rltb_true (x y : R) : x < y -> Rltb x y = true.
Proof. intros H. unfold Rltb. destruct (Rlt_dec x y); [reflexivity | contradiction]. Qed.

Lemma Rltb_false (x y : R) : y <= x -> Rltb x y = false.
Proof. intros H. unfold Rltb. destruct (Rlt_dec x y); [lra | reflexivity]. Qed.

Lemma Reqb_true (x y : R) : x = y -> Reqb x y = true.
Proof. intros H. unfold Reqb. destruct (Req_dec_T x y); [reflexivity | contradiction]. Qed.

Lemma Reqb_false (x y : R) : x <> y -> Reqb x y = false.
Proof. intros H. unfold Reqb. destruct (Req_dec_T x y); [contradiction | reflexivity]. Qed.

Lemma Reqb_eq (x y : R) : Reqb x y = true <-> x = y.
Proof.
  unfold Reqb. destruct (Req_dec_T x y); split; intros; congruence.
Qed.

(** ** Finite arithmetic *)

Lemma fdiv_fin (x y : R) : y <> 0 -> fdiv (Fin x) (Fin y) = Fin (x / y).
Proof. intros H. simpl. now rewrite Reqb_false. Qed.

Lemma fsub_fin (x y : R) : fsub (Fin x) (Fin y) = Fin (x - y).
Proof. reflexivity. Qed.

Lemma fsqrt_fin (x : R) : 0 <= x -> fsqrt (Fin x) = Fin (sqrt x).
Proof. intros H. simpl. now rewrite Rltb_false. Qed.

Lemma Fin_inj (x y : R) : Fin x = Fin y -> x = y.
Proof. congruence. Qed.

(** ** Forward model *)

Lemma v_model_fin (s D : R) (xs : list R) :
  D <> 0 ->
  v_model (Fin s) (Fin D) (map Fin xs)
  = map (fun x => Fin (s / PI * atan (x / D))) xs.
Proof.
  intros HD. unfold v_model, Np.mul_s, Np.arctan, Np.div_s.
  rewrite !map_map. apply map_ext. intros x.
  rewrite (fdiv_fin s PI) by apply PI_neq0.
  rewrite fdiv_fin by assumption. reflexivity.
Qed.

Lemma v_forward_fin (s D offset : R) (xs : list R) :
  D <> 0 ->
  v_forward (Fin s) (Fin D) (Fin offset) (map Fin xs)
  = map (fun x => Fin (arctan_profile s D offset x)) xs.
Proof.
  intros HD. unfold v_forward, Np.add_s. rewrite v_model_fin by assumption.
  rewrite map_map. reflexivity.
Qed.

(** C6: with a non-zero locking depth the forward model evaluates, at
    every distance of the sequence, exactly (s/pi)*atan(x/D) + offset; the
    result has the length of the input; and (being a function) equal
    arguments give equal results. *)
Theorem C6_forward_model_closed_form (s D offset : R) (xs : list R) :
  D <> 0 ->
  v_forward (Fin s) (Fin D) (Fin offset) (map Fin xs)
    = map (fun x => Fin (s / PI * atan (x / D) + offset)) xs
  /\ length (v_forward (Fin s) (Fin D) (Fin offset) (map Fin xs)) = length xs
  /\ (forall x : R,
        v_forward (Fin s) (Fin D) (Fin offset) [Fin x]
        = [Fin (s / PI * atan (x / D) + offset)])
  /\ (forall s' D' o' xs',
        s' = Fin s -> D' = Fin D -> o' = Fin offset -> xs' = map Fin xs ->
        v_forward s' D' o' xs' = v_forward (Fin s) (Fin D) (Fin offset) (map Fin xs)).
Proof.
  intros HD. repeat split.
  - now apply v_forward_fin.
  - unfold v_forward, v_model, Np.add_s, Np.mul_s, Np.arctan, Np.div_s.
    now rewrite !length_map.
  - intros x. apply (v_forward_fin s D offset [x] HD).
  - intros; subst; reflexivity.
Qed.

Lemma C6_forward_model_closed_form_witness :
  15 <> 0
  /\ v_forward (Fin 20) (Fin 15) (Fin (-10)) (map Fin [-15; 0; 15])
     = map (fun x => Fin (20 / PI * atan (x / 15) + -10)) [-15; 0; 15].
Proof.
  assert (H : 15 <> 0) by lra.
  split; [exact H|].
  exact (proj1 (C6_forward_model_closed_form 20 15 (-10) [-15; 0; 15] H)).
Defined.

(** C7: for a positive locking depth the prediction is odd in x about
    the offset, and the prediction at distance 0 is the offset. *)
Theorem C7_forward_model_odd_about_offset (x s D offset : R) :
  0 < D ->
  exists v_neg v_pos : R,
    v_forward (Fin s) (Fin D) (Fin offset) [Fin (- x)] = [Fin v_neg]
    /\ v_forward (Fin s) (Fin D) (Fin offset) [Fin x] = [Fin v_pos]
    /\ v_neg - offset = - (v_pos - offset)
    /\ fsub (Fin v_neg) (Fin offset) = fneg (fsub (Fin v_pos) (Fin offset))
    /\ v_forward (Fin s) (Fin D) (Fin offset) [Fin 0] = [Fin offset].
Proof.
  intros HD. assert (HD0 : D <> 0) by lra.
  exists (arctan_profile s D offset (- x)), (arctan_profile s D offset x).
  assert (Hodd : arctan_profile s D offset (- x) - offset
                 = - (arctan_profile s D offset x - offset)).
  { unfold arctan_profile.
    replace (- x / D) with (- (x / D)) by (field; assumption).
    rewrite atan_opp. ring. }
  repeat split.
  - apply (v_forward_fin s D offset [- x] HD0).
  - apply (v_forward_fin s D offset [x] HD0).
  - exact Hodd.
  - simpl. f_equal. lra.
  - pose proof (v_forward_fin s D offset [0] HD0) as H0.
    change (map Fin [0]) with [Fin 0] in H0. rewrite H0. simpl. do 2 f_equal.
    unfold arctan_profile. replace (0 / D) with 0 by (field; assumption).
    rewrite atan_0. ring.
Qed.

Lemma C7_forward_model_odd_about_offset_witness :
  0 < 15
  /\ exists v_neg v_pos : R,
       v_forward (Fin 20) (Fin 15) (Fin (-10)) [Fin (- 30)] = [Fin v_neg]
       /\ v_forward (Fin 20) (Fin 15) (Fin (-10)) [Fin 30] = [Fin v_pos]
       /\ v_neg - -10 = - (v_pos - -10)
       /\ fsub (Fin v_neg) (Fin (-10)) = fneg (fsub (Fin v_pos) (Fin (-10)))
       /\ v_forward (Fin 20) (Fin 15) (Fin (-10)) [Fin 0] = [Fin (-10)].
Proof.
  assert (H : 0 < 15) by lra.
  split; [exact H|].
  exact (C7_forward_model_odd_about_offset 30 20 15 (-10) H).
Defined.

(** ** The penalty on finite data *)

Lemma map2_length {A B C : Type} (op : A -> B -> C) (a : list A) (b : list B) :
  length a = length b -> length (Np.map2 op a b) = length a.
Proof.
  revert b. induction a as [|x a IH]; intros [|y b] H; simpl in *;
    try discriminate; auto.
Qed.

Lemma sub_fin (a b : list R) :
  length a = length b ->
  Np.sub (map Fin a) (map Fin b) = Ok (map Fin (Np.map2 Rminus a b)).
Proof.
  intros H. unfold Np.sub, Np.broadcast2. rewrite !length_map, H, Nat.eqb_refl.
  f_equal. revert b H. induction a as [|x a IH]; intros [|y b] H; simpl in *;
    try discriminate; [reflexivity|].
  f_equal. apply IH. now injection H.
Qed.

Lemma pow2_fin (sigma : list R) :
  Np.pow2 (map Fin sigma) = map Fin (map (fun sg => sg * sg) sigma).
Proof. unfold Np.pow2. rewrite !map_map. reflexivity. Qed.

Lemma diag_length (v : Np.array) : length (Np.diag v) = length v.
Proof. induction v as [|x v IH]; simpl; [reflexivity|]. now rewrite length_map, IH. Qed.

Lemma vecmat_cons0 (r : list R) (M : Np.matrix) (k : nat) :
  Np.vecmat (map Fin r) (map (cons (Fin 0)) M) (S k)
  = Fin 0 :: Np.vecmat (map Fin r) M k.
Proof.
  revert M. induction r as [|x r IH]; intros [|row M]; simpl; try reflexivity.
  rewrite IH. simpl. do 2 f_equal. ring.
Qed.

Lemma add_scaled_zeros (x : R) (l : list R) :
  Np.map2 fadd (map (fmul (Fin x)) (Np.zeros (length l))) (map Fin l) = map Fin l.
Proof.
  unfold Np.zeros. induction l as [|y l IH]; simpl; [reflexivity|].
  rewrite IH. do 2 f_equal. ring.
Qed.

Lemma vecmat_diag (r w : list R) :
  length r = length w ->
  Np.vecmat (map Fin r) (Np.diag (map Fin w)) (length w)
  = map Fin (Np.map2 Rmult r w).
Proof.
  revert w. induction r as [|x r IH]; intros [|y w] H; simpl in *;
    try discriminate; [reflexivity|].
  injection H as H. rewrite vecmat_cons0, IH by assumption. simpl.
  rewrite length_map.
  replace (length w) with (length (Np.map2 Rmult r w))
    by (rewrite map2_length; auto).
  rewrite add_scaled_zeros. do 2 f_equal. ring.
Qed.

Lemma dot_fin (a b : list R) : Np.dot (map Fin a) (map Fin b) = Fin (dotR a b).
Proof.
  revert b. induction a as [|x a IH]; intros [|y b]; simpl; try reflexivity.
  now rewrite IH.
Qed.

Lemma matmul_vm_diag_fin (r w : list R) :
  length r = length w ->
  Np.matmul_vm (map Fin r) (Np.diag (map Fin w))
  = Ok (map Fin (Np.map2 Rmult r w)).
Proof.
  intros H. unfold Np.matmul_vm.
  rewrite diag_length, !length_map, H, Nat.eqb_refl.
  now rewrite vecmat_diag.
Qed.

Lemma matmul_vv_fin (a b : list R) :
  length a = length b ->
  Np.matmul_vv (map Fin a) (map Fin b) = Ok (Fin (dotR a b)).
Proof.
  intros H. unfold Np.matmul_vv.
  now rewrite !length_map, H, Nat.eqb_refl, dot_fin.
Qed.

Lemma penalty_fin (r sigma : list R) :
  length r = length sigma ->
  penalty (map Fin r) (map Fin sigma) = Ok (Fin (penalty_closed r sigma)).
Proof.
  intros H. unfold penalty. rewrite pow2_fin.
  rewrite matmul_vm_diag_fin by (now rewrite length_map).
  cbn [bind]. rewrite matmul_vv_fin; [reflexivity|].
  rewrite map2_length; [reflexivity | now rewrite length_map].
Qed.

Lemma WRSS_fin (v_obs v_mod sigma : list R) :
  length v_mod = length v_obs -> length sigma = length v_obs ->
  WRSS (map Fin v_obs) (map Fin v_mod) (map Fin sigma)
  = Ok (Fin (penalty_closed (Np.map2 Rminus v_obs v_mod) sigma)).
Proof.
  intros Hm Hs. unfold WRSS. rewrite sub_fin by auto. cbn [bind].
  apply penalty_fin. rewrite map2_length; auto.
Qed.

Lemma penalty_closed_cons (x sg : R) (r sigma : list R) :
  penalty_closed (x :: r) (sg :: sigma)
  = x * (sg * sg) * x + penalty_closed r sigma.
Proof. reflexivity. Qed.

Lemma penalty_closed_nonneg (r sigma : list R) : 0 <= penalty_closed r sigma.
Proof.
  revert sigma. induction r as [|x r IH]; intros [|sg sigma];
    try (unfold penalty_closed; simpl; lra).
  rewrite penalty_closed_cons. specialize (IH sigma). nra.
Qed.

Lemma penalty_closed_zero (r sigma : list R) :
  length r = length sigma -> Forall (fun sg => 0 < sg) sigma ->
  (penalty_closed r sigma = 0 <-> Forall (fun x => x = 0) r).
Proof.
  revert sigma. induction r as [|x r IH]; intros [|sg sigma] Hlen Hpos;
    simpl in Hlen; try discriminate.
  - split; [constructor | reflexivity].
  - injection Hlen as Hlen. inversion Hpos as [|? ? Hsg Hpos']; subst.
    rewrite penalty_closed_cons.
    pose proof (penalty_closed_nonneg r sigma) as Hnn.
    specialize (IH sigma Hlen Hpos').
    assert (Hsq : 0 <= x * (sg * sg) * x) by nra.
    split.
    + intros H0.
      assert (Hx : x * (sg * sg) * x = 0) by lra.
      assert (Hr : penalty_closed r sigma = 0) by lra.
      constructor; [| now apply IH].
      assert (Hprod : (x * x) * (sg * sg) = 0) by lra.
      apply Rmult_integral in Hprod. destruct Hprod as [Hxx | Hss].
      * apply Rmult_integral in Hxx. tauto.
      * apply Rmult_integral in Hss. lra.
    + intros Hall. inversion Hall as [|? ? Hx Hr]; subst.
      apply IH in Hr. rewrite Hr. ring.
Qed.

Lemma residual_zero (a b : list R) :
  length b = length a ->
  (Forall (fun x => x = 0) (Np.map2 Rminus a b) <-> b = a).
Proof.
  revert b. induction a as [|x a IH]; intros [|y b] H; simpl in *;
    try discriminate.
  - split; [reflexivity | constructor].
  - injection H as H. specialize (IH b H). split.
    + intros Hall. inversion Hall as [|? ? Hxy Hr]; subst.
      f_equal; [lra | now apply IH].
    + intros Heq. injection Heq as -> ->. constructor; [lra | now apply IH].
Qed.

(** C9: on finite data with every error positive the penalty is a
    nonnegative number, it is 0 exactly when the modeled velocities are
    the observed ones at every station, and in particular the penalty of
    the observations against themselves is 0. *)
Theorem C9_WRSS_nonneg_zero_iff_exact_fit (v_obs v_mod sigma : list R) :
  length v_mod = length v_obs ->
  length sigma = length v_obs ->
  Forall (fun sg => 0 < sg) sigma ->
  (exists w : R,
      WRSS (map Fin v_obs) (map Fin v_mod) (map Fin sigma) = Ok (Fin w)
      /\ 0 <= w
      /\ (w = 0 <-> v_mod = v_obs))
  /\ WRSS (map Fin v_obs) (map Fin v_obs) (map Fin sigma) = Ok (Fin 0).
Proof.
  intros Hm Hs Hpos. split.
  - exists (penalty_closed (Np.map2 Rminus v_obs v_mod) sigma).
    split; [now apply WRSS_fin|].
    split; [apply penalty_closed_nonneg|].
    rewrite penalty_closed_zero; [now apply residual_zero | | assumption].
    rewrite map2_length; congruence.
  - rewrite WRSS_fin by auto. do 2 f_equal.
    apply penalty_closed_zero; [rewrite map2_length; congruence | assumption |].
    now apply residual_zero.
Qed.

Lemma C9_WRSS_nonneg_zero_iff_exact_fit_witness :
  length [3; 5] = length [1; 5]
  /\ length [2; 1] = length [1; 5]
  /\ Forall (fun sg => 0 < sg) [2; 1]
  /\ (exists w : R,
         WRSS (map Fin [1; 5]) (map Fin [3; 5]) (map Fin [2; 1]) = Ok (Fin w)
         /\ 0 <= w
         /\ (w = 0 <-> [3; 5] = [1; 5]))
  /\ WRSS (map Fin [1; 5]) (map Fin [1; 5]) (map Fin [2; 1]) = Ok (Fin 0).
Proof.
  assert (H1 : length [3; 5] = length [1; 5]) by reflexivity.
  assert (H2 : length [2; 1] = length [1; 5]) by reflexivity.
  assert (H3 : Forall (fun sg => 0 < sg) [2; 1]).
  { repeat constructor; lra. }
  split; [exact H1|]. split; [exact H2|]. split; [exact H3|].
  exact (C9_WRSS_nonneg_zero_iff_exact_fit [1; 5] [3; 5] [2; 1] H1 H2 H3).
Defined.

(** C1: the penalty evaluated on two stations of equal residual 1 and
    errors 1 and 2.  The code weights each squared residual by the
    variance: the station of error 2 contributes 4 and the station of
    error 1 contributes 1, where the inverse-variance formula gives 1/4
    and 1. *)
Theorem C1_WRSS_weights_by_variance :
  WRSS [Fin 1] [Fin 0] [Fin 1] = Ok (Fin 1)
  /\ WRSS [Fin 1] [Fin 0] [Fin 2] = Ok (Fin 4)
  /\ WRSS [Fin 1; Fin 1] [Fin 0; Fin 0] [Fin 1; Fin 2] = Ok (Fin 5)
  /\ WRSS_inverse_variance [1] [0] [1] = 1
  /\ WRSS_inverse_variance [1] [0] [2] = 1 / 4
  /\ WRSS_inverse_variance [1; 1] [0; 0] [1; 2] = 5 / 4.
Proof.
  repeat split.
  - change (WRSS (map Fin [1]) (map Fin [0]) (map Fin [1]) = Ok (Fin 1)).
    rewrite WRSS_fin by reflexivity. do 2 f_equal.
    unfold penalty_closed. simpl. lra.
  - change (WRSS (map Fin [1]) (map Fin [0]) (map Fin [2]) = Ok (Fin 4)).
    rewrite WRSS_fin by reflexivity. do 2 f_equal.
    unfold penalty_closed. simpl. lra.
  - change (WRSS (map Fin [1; 1]) (map Fin [0; 0]) (map Fin [1; 2]) = Ok (Fin 5)).
    rewrite WRSS_fin by reflexivity. do 2 f_equal.
    unfold penalty_closed. simpl. lra.
  - simpl. lra.
  - simpl. lra.
  - simpl. lra.
Qed.

(** The weights in general: on finite data of equal lengths the penalty
    is the sum of residual times squared error times residual. *)
Lemma WRSS_weights_general (v_obs v_mod sigma : list R) :
  length v_mod = length v_obs -> length sigma = length v_obs ->
  WRSS (map Fin v_obs) (map Fin v_mod) (map Fin sigma)
  = Ok (Fin (dotR (Np.map2 Rmult (Np.map2 Rminus v_obs v_mod)
                              (map (fun sg => sg * sg) sigma))
                  (Np.map2 Rminus v_obs v_mod))).
Proof. intros Hm Hs. now rewrite WRSS_fin. Qed.

(** ** Geometry *)

(** The two-argument arctangent of a point of the unit circle gives back
    the point. *)
Lemma sqrt_one_plus_sqr (a b : R) :
  a * a + b * b = 1 -> 0 < b -> sqrt (1 + (a / b)²) = / b.
Proof.
  intros Hu Hb. apply sqrt_lem_1.
  - unfold Rsqr. nra.
  - left. now apply Rinv_0_lt_compat.
  - unfold Rsqr. field_simplify_eq; [nra | lra].
Qed.

Lemma sin_cos_atan_unit (a b : R) :
  a * a + b * b = 1 -> 0 < b ->
  sin (atan (a / b)) = a /\ cos (atan (a / b)) = b.
Proof.
  intros Hu Hb. rewrite sin_atan, cos_atan, sqrt_one_plus_sqr by assumption.
  split; field; lra.
Qed.

Lemma sin_cos_atan_unit_neg (a b : R) :
  a * a + b * b = 1 -> b < 0 ->
  sin (atan (a / b)) = - a /\ cos (atan (a / b)) = - b.
Proof.
  intros Hu Hb.
  replace (a / b) with ((- a) / (- b)) by (field; lra).
  apply sin_cos_atan_unit; lra.
Qed.

Lemma Ratan2_unit (a b : R) :
  a * a + b * b = 1 -> sin (Ratan2 a b) = a /\ cos (Ratan2 a b) = b.
Proof.
  intros Hu. unfold Ratan2.
  destruct (Rlt_dec 0 b) as [Hb | Hb].
  - rewrite Rltb_true by assumption. now apply sin_cos_atan_unit.
  - rewrite (Rltb_false 0 b) by lra.
    destruct (Rlt_dec b 0) as [Hb' | Hb'].
    + rewrite (Rltb_true b 0) by assumption.
      destruct (sin_cos_atan_unit_neg a b Hu Hb') as [Hs Hc].
      destruct (Rlt_dec a 0) as [Ha | Ha].
      * rewrite (Rltb_true a 0) by assumption.
        rewrite sin_minus, cos_minus, Hs, Hc, sin_PI, cos_PI. split; ring.
      * rewrite (Rltb_false a 0) by lra.
        rewrite neg_sin, neg_cos, Hs, Hc. split; ring.
    + rewrite (Rltb_false b 0) by lra.
      assert (b = 0) by lra. subst b.
      destruct (Rlt_dec 0 a) as [Ha | Ha].
      * rewrite (Rltb_true 0 a) by assumption.
        rewrite sin_PI2, cos_PI2. split; nra.
      * rewrite (Rltb_false 0 a) by lra.
        rewrite (Rltb_true a 0) by nra.
        rewrite sin_neg, cos_neg, sin_PI2, cos_PI2. split; nra.
Qed.

Section FiniteFault.

Variables x1 y1 x2 y2 : R.

Let v1 : point := (Fin x1, Fin y1).
Let v2 : point := (Fin x2, Fin y2).
Let dx : R := x2 - x1.
Let dy : R := y2 - y1.
Let L : R := sqrt (dx * dx + dy * dy).

Lemma fault_length_fin : Fault.fault_length v1 v2 = Fin L.
Proof.
  unfold Fault.fault_length, Fault.raw_dx, Fault.raw_dy, v1, v2. simpl.
  rewrite Rltb_false; [reflexivity|].
  apply Rplus_le_le_0_compat; apply Rle_0_sqr.
Qed.

Hypothesis Hlen : Fault.fault_length v1 v2 <> Fin 0.

Lemma L_pos : 0 < L.
Proof.
  pose proof (sqrt_pos (dx * dx + dy * dy)) as H. fold L in H.
  destruct H as [H | H]; [assumption|].
  exfalso. apply Hlen. rewrite fault_length_fin. now f_equal.
Qed.

Lemma L_sqr : L * L = dx * dx + dy * dy.
Proof. unfold L. apply sqrt_sqrt. nra. Qed.

Lemma fault_dx_fin : Fault.fault_dx v1 v2 = Fin (dx / L).
Proof.
  unfold Fault.fault_dx. rewrite fault_length_fin.
  unfold Fault.raw_dx, v1, v2. cbn [fst snd]. rewrite fsub_fin.
  apply fdiv_fin. pose proof L_pos. lra.
Qed.

Lemma fault_dy_fin : Fault.fault_dy v1 v2 = Fin (dy / L).
Proof.
  unfold Fault.fault_dy. rewrite fault_length_fin.
  unfold Fault.raw_dy, v1, v2. cbn [fst snd]. rewrite fsub_fin.
  apply fdiv_fin. pose proof L_pos. lra.
Qed.

Lemma fault_unit : (dx / L) * (dx / L) + (dy / L) * (dy / L) = 1.
Proof.
  pose proof L_pos as HL. pose proof L_sqr as Hq.
  field_simplify_eq; [nra | lra].
Qed.

Lemma profile_angle :
  fradians (fsub (Fault.fault_strike v1 v2) (Fin 90))
  = Fin (Ratan2 (dx / L) (dy / L) - PI / 2).
Proof.
  unfold Fault.fault_strike. rewrite fault_dx_fin, fault_dy_fin.
  simpl. f_equal. field. apply PI_neq0.
Qed.

Lemma prof_dx_fin : Fault.prof_dx v1 v2 = Fin (- (dy / L)).
Proof.
  unfold Fault.prof_dx. rewrite profile_angle. simpl. f_equal.
  destruct (Ratan2_unit _ _ fault_unit) as [Hs Hc].
  rewrite sin_minus, Hs, Hc, sin_PI2, cos_PI2. ring.
Qed.

Lemma prof_dy_fin : Fault.prof_dy v1 v2 = Fin (dx / L).
Proof.
  unfold Fault.prof_dy. rewrite profile_angle. simpl. f_equal.
  destruct (Ratan2_unit _ _ fault_unit) as [Hs Hc].
  rewrite cos_minus, Hs, Hc, sin_PI2, cos_PI2. ring.
Qed.

Variable half_length : R.

Lemma profile_origin_fin :
  Fault.profile_origin_utm v1 v2 half_length
  = (Fin ((x1 + x2) / 2), Fin ((y1 + y2) / 2)).
Proof.
  unfold Fault.profile_origin_utm, Fault.prof_vertices_utm, Fault.box,
    Fault.box_vertices_utm, Fault.offset_x, Fault.offset_y.
  rewrite prof_dx_fin, prof_dy_fin.
  unfold v1, v2, Np.mean, Np.sum. cbn [map fst snd nth fold_left length].
  cbn [fmul fsub fadd fneg]. cbn [INR].
  rewrite !fdiv_fin by lra. cbn [fadd]. rewrite !fdiv_fin by lra.
  pose proof L_pos as HL.
  f_equal; f_equal; field; lra.
Qed.

Lemma x_data_fin (ps : list (R * R)) :
  Fault.x_data v1 v2 half_length (map (fun p => (Fin (fst p), Fin (snd p))) ps)
  = map (fun p => Fin (((fst p - (x1 + x2) / 2) * (- (dy / L))
                        + (snd p - (y1 + y2) / 2) * (dx / L)) / 1000)) ps.
Proof.
  unfold Fault.x_data, Fault.gnss_position, Fault.prof_uv, Np.div_s.
  rewrite profile_origin_fin, prof_dx_fin, prof_dy_fin.
  rewrite !map_map. apply map_ext. intros [px py].
  unfold Fault.dot2. cbn [fst snd]. rewrite !fsub_fin.
  cbn [fmul fadd]. apply fdiv_fin. lra.
Qed.

End FiniteFault.

Lemma fault_length_distinct (x1 y1 x2 y2 : R) :
  x1 <> x2 \/ y1 <> y2 ->
  Fault.fault_length (Fin x1, Fin y1) (Fin x2, Fin y2) <> Fin 0.
Proof.
  intros Hd. rewrite fault_length_fin. intros H. apply Fin_inj in H.
  apply sqrt_eq_0 in H;
    [|apply Rplus_le_le_0_compat; apply Rle_0_sqr].
  apply (Rplus_sqr_eq_0 (x2 - x1) (y2 - y1)) in H. destruct H as [Hx Hy].
  destruct Hd as [Hd | Hd]; apply Hd; lra.
Qed.

Lemma x_data_endpoints (x1 y1 x2 y2 half_length : R) :
  Fault.fault_length (Fin x1, Fin y1) (Fin x2, Fin y2) <> Fin 0 ->
  Fault.x_data (Fin x1, Fin y1) (Fin x2, Fin y2) half_length [(Fin x1, Fin y1)]
    = [Fin 0]
  /\ Fault.x_data (Fin x1, Fin y1) (Fin x2, Fin y2) half_length [(Fin x2, Fin y2)]
    = [Fin 0].
Proof.
  intros Hlen. pose proof (L_pos x1 y1 x2 y2 Hlen) as HL.
  split.
  - pose proof (x_data_fin x1 y1 x2 y2 Hlen half_length [(x1, y1)]) as H.
    cbn [map fst snd] in H. rewrite H. do 2 f_equal. field. lra.
  - pose proof (x_data_fin x1 y1 x2 y2 Hlen half_length [(x2, y2)]) as H.
    cbn [map fst snd] in H. rewrite H. do 2 f_equal. field. lra.
Qed.

(** C10: when the fault length is not zero, the fault-parallel vector
    and the profile vector are both of unit length and their dot product
    is 0. *)
Theorem C10_fault_and_profile_orthonormal (x1 y1 x2 y2 : R) :
  Fault.fault_length (Fin x1, Fin y1) (Fin x2, Fin y2) <> Fin 0 ->
  exists fx fy px py : R,
    Fault.fault_dx (Fin x1, Fin y1) (Fin x2, Fin y2) = Fin fx
    /\ Fault.fault_dy (Fin x1, Fin y1) (Fin x2, Fin y2) = Fin fy
    /\ Fault.prof_dx (Fin x1, Fin y1) (Fin x2, Fin y2) = Fin px
    /\ Fault.prof_dy (Fin x1, Fin y1) (Fin x2, Fin y2) = Fin py
    /\ fx * fx + fy * fy = 1
    /\ px * px + py * py = 1
    /\ fx * px + fy * py = 0
    /\ Fault.dot2 (Fault.fault_uv (Fin x1, Fin y1) (Fin x2, Fin y2))
                  (Fault.prof_uv (Fin x1, Fin y1) (Fin x2, Fin y2)) = Fin 0.
Proof.
  intros Hlen.
  pose proof (fault_unit x1 y1 x2 y2 Hlen) as Hu.
  set (L := sqrt ((x2 - x1) * (x2 - x1) + (y2 - y1) * (y2 - y1))) in *.
  exists ((x2 - x1) / L), ((y2 - y1) / L), (- ((y2 - y1) / L)), ((x2 - x1) / L).
  split; [now apply fault_dx_fin|].
  split; [now apply fault_dy_fin|].
  split; [now apply prof_dx_fin|].
  split; [now apply prof_dy_fin|].
  split; [exact Hu|].
  split; [lra|].
  split; [ring|].
  unfold Fault.fault_uv, Fault.prof_uv, Fault.dot2. cbn [fst snd].
  rewrite fault_dx_fin, fault_dy_fin, prof_dx_fin, prof_dy_fin by assumption.
  simpl. f_equal. ring.
Qed.

Lemma C10_fault_and_profile_orthonormal_witness :
  Fault.fault_length (Fin 0, Fin 0) (Fin 3000, Fin 4000) <> Fin 0
  /\ exists fx fy px py : R,
    Fault.fault_dx (Fin 0, Fin 0) (Fin 3000, Fin 4000) = Fin fx
    /\ Fault.fault_dy (Fin 0, Fin 0) (Fin 3000, Fin 4000) = Fin fy
    /\ Fault.prof_dx (Fin 0, Fin 0) (Fin 3000, Fin 4000) = Fin px
    /\ Fault.prof_dy (Fin 0, Fin 0) (Fin 3000, Fin 4000) = Fin py
    /\ fx * fx + fy * fy = 1
    /\ px * px + py * py = 1
    /\ fx * px + fy * py = 0
    /\ Fault.dot2 (Fault.fault_uv (Fin 0, Fin 0) (Fin 3000, Fin 4000))
                  (Fault.prof_uv (Fin 0, Fin 0) (Fin 3000, Fin 4000)) = Fin 0.
Proof.
  assert (H : Fault.fault_length (Fin 0, Fin 0) (Fin 3000, Fin 4000) <> Fin 0).
  { apply fault_length_distinct. left. lra. }
  split; [exact H|].
  exact (C10_fault_and_profile_orthonormal 0 0 3000 4000 H).
Defined.

(** C3 (as the code has it): with a fault of non-zero length, the
    profile origin is the midpoint of the fault segment, and the signed
    distance of a station is the dot product of its position relative to
    that origin with the unit profile vector, divided by 1000.  The
    profile vector is the fault-parallel unit vector turned by a quarter
    turn, so a station at either fault endpoint projects to distance 0. *)
Theorem C3_distance_along_fault_normal_profile
  (x1 y1 x2 y2 half_length : R) (ps : list (R * R)) :
  Fault.fault_length (Fin x1, Fin y1) (Fin x2, Fin y2) <> Fin 0 ->
  exists fx fy : R,
    Fault.fault_uv (Fin x1, Fin y1) (Fin x2, Fin y2) = (Fin fx, Fin fy)
    /\ Fault.prof_uv (Fin x1, Fin y1) (Fin x2, Fin y2) = (Fin (- fy), Fin fx)
    /\ Fault.profile_origin_utm (Fin x1, Fin y1) (Fin x2, Fin y2) half_length
       = (Fin ((x1 + x2) / 2), Fin ((y1 + y2) / 2))
    /\ Fault.x_data (Fin x1, Fin y1) (Fin x2, Fin y2) half_length
         (map (fun p => (Fin (fst p), Fin (snd p))) ps)
       = map (fun p => Fin (((fst p - (x1 + x2) / 2) * (- fy)
                             + (snd p - (y1 + y2) / 2) * fx) / 1000)) ps
    /\ Fault.x_data (Fin x1, Fin y1) (Fin x2, Fin y2) half_length
         [(Fin x1, Fin y1)] = [Fin 0]
    /\ Fault.x_data (Fin x1, Fin y1) (Fin x2, Fin y2) half_length
         [(Fin x2, Fin y2)] = [Fin 0].
Proof.
  intros Hlen.
  set (L := sqrt ((x2 - x1) * (x2 - x1) + (y2 - y1) * (y2 - y1))).
  exists ((x2 - x1) / L), ((y2 - y1) / L).
  split.
  { unfold Fault.fault_uv. now rewrite fault_dx_fin, fault_dy_fin. }
  split.
  { unfold Fault.prof_uv. now rewrite prof_dx_fin, prof_dy_fin. }
  split; [now apply profile_origin_fin|].
  split; [now apply x_data_fin|].
  now apply x_data_endpoints.
Qed.

Lemma C3_distance_along_fault_normal_profile_witness :
  Fault.fault_length (Fin 0, Fin 0) (Fin 0, Fin 2000) <> Fin 0
  /\ exists fx fy : R,
    Fault.fault_uv (Fin 0, Fin 0) (Fin 0, Fin 2000) = (Fin fx, Fin fy)
    /\ Fault.prof_uv (Fin 0, Fin 0) (Fin 0, Fin 2000) = (Fin (- fy), Fin fx)
    /\ Fault.profile_origin_utm (Fin 0, Fin 0) (Fin 0, Fin 2000) 50
       = (Fin ((0 + 0) / 2), Fin ((0 + 2000) / 2))
    /\ Fault.x_data (Fin 0, Fin 0) (Fin 0, Fin 2000) 50
         (map (fun p => (Fin (fst p), Fin (snd p))) [(3000, 1000)])
       = map (fun p => Fin (((fst p - (0 + 0) / 2) * (- fy)
                             + (snd p - (0 + 2000) / 2) * fx) / 1000))
             [(3000, 1000)]
    /\ Fault.x_data (Fin 0, Fin 0) (Fin 0, Fin 2000) 50 [(Fin 0, Fin 0)] = [Fin 0]
    /\ Fault.x_data (Fin 0, Fin 0) (Fin 0, Fin 2000) 50 [(Fin 0, Fin 2000)] = [Fin 0].
Proof.
  assert (H : Fault.fault_length (Fin 0, Fin 0) (Fin 0, Fin 2000) <> Fin 0).
  { apply fault_length_distinct. right. lra. }
  split; [exact H|].
  exact (C3_distance_along_fault_normal_profile 0 0 0 2000 50 [(3000, 1000)] H).
Defined.

(** C3, the claim as stated, on the fault from (0,0) to (0,2000) m: the
    fault length is 2000, the station at the endpoint (0,2000) gets
    distance 0, neither half the fault length in metres nor in
    kilometres, where the dot product with the fault-parallel unit vector
    (0,1) from the midpoint (0,1000) is 1000; and the station at
    (3000,1000), for which that dot product is 0, gets distance -3. *)
Lemma C3_endpoint_distance_counterexample :
  Fault.fault_length (Fin 0, Fin 0) (Fin 0, Fin 2000) = Fin 2000
  /\ Fault.fault_uv (Fin 0, Fin 0) (Fin 0, Fin 2000) = (Fin 0, Fin 1)
  /\ Fault.x_data (Fin 0, Fin 0) (Fin 0, Fin 2000) 50 [(Fin 0, Fin 2000)] = [Fin 0]
  /\ distance_along_fault (0, 1000) (0, 1) (0, 2000) = 2000 / 2
  /\ Rabs 0 <> 2000 / 2
  /\ Rabs 0 <> 2000 / 2 / 1000
  /\ Fault.x_data (Fin 0, Fin 0) (Fin 0, Fin 2000) 50 [(Fin 3000, Fin 1000)]
     = [Fin (- 3)]
  /\ distance_along_fault (0, 1000) (0, 1) (3000, 1000) = 0.
Proof.
  assert (HL : sqrt ((0 - 0) * (0 - 0) + (2000 - 0) * (2000 - 0)) = 2000).
  { apply sqrt_lem_1; lra. }
  assert (Hlen : Fault.fault_length (Fin 0, Fin 0) (Fin 0, Fin 2000) <> Fin 0).
  { apply fault_length_distinct. right. lra. }
  split.
  { rewrite fault_length_fin. now f_equal. }
  split.
  { unfold Fault.fault_uv. rewrite fault_dx_fin, fault_dy_fin by assumption.
    rewrite HL. f_equal; f_equal; field. }
  split; [now apply x_data_endpoints|].
  split; [unfold distance_along_fault; simpl; lra|].
  rewrite Rabs_R0.
  split; [lra|]. split; [lra|].
  split.
  - pose proof (x_data_fin 0 0 0 2000 Hlen 50 [(3000, 1000)]) as H.
    cbn [map fst snd] in H. rewrite H, HL. do 2 f_equal. field.
  - unfold distance_along_fault; simpl; lra.
Qed.

(** ** Velocity projection *)

Lemma v_data_nth (v1 v2 : point) (ux uy e n : R) (sts : list Fault.station)
  (k : nat) (st : Fault.station) :
  Fault.fault_uv v1 v2 = (Fin ux, Fin uy) ->
  nth_error sts k = Some st ->
  Fault.e_vel st = Fin e -> Fault.n_vel st = Fin n ->
  nth_error (Fault.v_data v1 v2 sts) k = Some (Fin (e * ux + n * uy)).
Proof.
  intros Huv Hk He Hn. unfold Fault.v_data.
  rewrite (map_nth_error _ _ _ Hk), Huv, He, Hn. reflexivity.
Qed.

Lemma v_err_nth (v1 v2 : point) (ux uy ee en : R) (sts : list Fault.station)
  (k : nat) (st : Fault.station) :
  Fault.fault_uv v1 v2 = (Fin ux, Fin uy) ->
  nth_error sts k = Some st ->
  Fault.e_err st = Fin ee -> Fault.n_err st = Fin en ->
  nth_error (Fault.v_err v1 v2 sts) k
  = Some (Fin (sqrt ((ee * ux) * (ee * ux) + (en * uy) * (en * uy)))).
Proof.
  intros Huv Hk He Hn. unfold Fault.v_err.
  rewrite (map_nth_error _ _ _ Hk), Huv, He, Hn. cbn [fst snd fmul fpow2 fadd].
  rewrite fsqrt_fin; [reflexivity|].
  apply Rplus_le_le_0_compat; apply Rle_0_sqr.
Qed.

Lemma fault_uv_east :
  Fault.fault_uv (Fin 0, Fin 0) (Fin 1000, Fin 0) = (Fin 1, Fin 0).
Proof.
  assert (HL : sqrt ((1000 - 0) * (1000 - 0) + (0 - 0) * (0 - 0)) = 1000).
  { apply sqrt_lem_1; lra. }
  assert (Hlen : Fault.fault_length (Fin 0, Fin 0) (Fin 1000, Fin 0) <> Fin 0).
  { apply fault_length_distinct. left. lra. }
  unfold Fault.fault_uv. rewrite fault_dx_fin, fault_dy_fin by assumption.
  rewrite HL. f_equal; f_equal; field.
Qed.

(** C8: for every station with finite velocities and errors, and a
    finite fault-parallel unit vector (u_e, u_n), the projected velocity
    is e*u_e + n*u_n and the propagated error is
    sqrt((e_err*u_e)^2 + (n_err*u_n)^2), one value per station.  On the
    fault from (0,0) to (1000,0), whose unit vector is (1,0), the
    velocity (3,4) projects to 3 and the errors (0.1,0.2) propagate to
    0.1. *)
Theorem C8_velocity_projection :
  (forall (v1 v2 : point) (ux uy : R) (sts : list Fault.station),
      Fault.fault_uv v1 v2 = (Fin ux, Fin uy) ->
      length (Fault.v_data v1 v2 sts) = length sts
      /\ length (Fault.v_err v1 v2 sts) = length sts
      /\ forall (k : nat) (st : Fault.station) (e n ee en : R),
          nth_error sts k = Some st ->
          Fault.e_vel st = Fin e -> Fault.n_vel st = Fin n ->
          Fault.e_err st = Fin ee -> Fault.n_err st = Fin en ->
          nth_error (Fault.v_data v1 v2 sts) k = Some (Fin (e * ux + n * uy))
          /\ nth_error (Fault.v_err v1 v2 sts) k
             = Some (Fin (sqrt ((ee * ux) * (ee * ux) + (en * uy) * (en * uy)))))
  /\ Fault.fault_uv (Fin 0, Fin 0) (Fin 1000, Fin 0) = (Fin 1, Fin 0)
  /\ (forall lo la c : float64,
        Fault.v_data (Fin 0, Fin 0) (Fin 1000, Fin 0)
          [Fault.mkStation lo la (Fin 3) (Fin 4) (Fin (1 / 10)) (Fin (2 / 10)) c]
        = [Fin 3]
        /\ Fault.v_err (Fin 0, Fin 0) (Fin 1000, Fin 0)
          [Fault.mkStation lo la (Fin 3) (Fin 4) (Fin (1 / 10)) (Fin (2 / 10)) c]
        = [Fin (1 / 10)]).
Proof.
  split; [|split].
  - intros v1 v2 ux uy sts Huv.
    split; [unfold Fault.v_data; apply length_map|].
    split; [unfold Fault.v_err; apply length_map|].
    intros k st e n ee en Hk He Hn Hee Hen. split.
    + now apply (v_data_nth v1 v2 ux uy e n sts k st).
    + now apply (v_err_nth v1 v2 ux uy ee en sts k st).
  - exact fault_uv_east.
  - intros lo la c. split.
    + unfold Fault.v_data. cbn [map]. rewrite fault_uv_east.
      unfold Fault.dot2. simpl. do 2 f_equal. ring.
    + unfold Fault.v_err. cbn [map]. rewrite fault_uv_east.
      cbn [fst snd Fault.e_err Fault.n_err fmul fpow2 fadd].
      rewrite fsqrt_fin by lra. do 2 f_equal.
      apply sqrt_lem_1; lra.
Qed.

Lemma C8_velocity_projection_witness :
  Fault.fault_uv (Fin 0, Fin 0) (Fin 1000, Fin 0) = (Fin 1, Fin 0)
  /\ nth_error
       (Fault.v_data (Fin 0, Fin 0) (Fin 1000, Fin 0)
          [Fault.mkStation (Fin 241) (Fin 34) (Fin 3) (Fin 4)
                           (Fin (1 / 10)) (Fin (2 / 10)) (Fin 0)]) 0
     = Some (Fin (3 * 1 + 4 * 0))
  /\ nth_error
       (Fault.v_err (Fin 0, Fin 0) (Fin 1000, Fin 0)
          [Fault.mkStation (Fin 241) (Fin 34) (Fin 3) (Fin 4)
                           (Fin (1 / 10)) (Fin (2 / 10)) (Fin 0)]) 0
     = Some (Fin (sqrt ((1 / 10 * 1) * (1 / 10 * 1)
                        + (2 / 10 * 0) * (2 / 10 * 0)))).
Proof.
  pose proof (proj1 (proj2 C8_velocity_projection)) as Huv.
  split; [exact Huv|].
  exact (proj2 (proj2 (proj1 C8_velocity_projection
                         (Fin 0, Fin 0) (Fin 1000, Fin 0) 1 0
                         [Fault.mkStation (Fin 241) (Fin 34) (Fin 3) (Fin 4)
                            (Fin (1 / 10)) (Fin (2 / 10)) (Fin 0)] Huv))
           0%nat
           (Fault.mkStation (Fin 241) (Fin 34) (Fin 3) (Fin 4)
              (Fin (1 / 10)) (Fin (2 / 10)) (Fin 0))
           3 4 (1 / 10) (2 / 10) eq_refl eq_refl eq_refl eq_refl eq_refl).
Defined.

(** ** Setting up the grid *)

(** *** Python's round *)

(** Rounding an integer gives the integer. *)
Lemma py_round_IZR (z : Z) : Grid.py_round (IZR z) = z.
Proof.
  unfold Grid.py_round. rewrite ZfloorZ.
  rewrite Rltb_true; [reflexivity | lra].
Qed.

Lemma Rabs_le_inv (a b : R) : Rabs a <= b -> - b <= a <= b.
Proof. unfold Rabs. destruct (Rcase_abs a); lra. Qed.

(** Rounding moves a number by a half at most. *)
Lemma py_round_error (x : R) : Rabs (IZR (Grid.py_round x) - x) <= 1 / 2.
Proof.
  unfold Grid.py_round.
  pose proof (Zfloor_bound x) as [Hlo Hhi].
  unfold Rltb.
  destruct (Rlt_dec (x - IZR (Zfloor x)) (1 / 2)) as [H1|H1].
  - apply Rabs_le. lra.
  - destruct (Rlt_dec (1 / 2) (x - IZR (Zfloor x))) as [H2|H2].
    + rewrite plus_IZR. apply Rabs_le. lra.
    + destruct (Z.even (Zfloor x)); [|rewrite plus_IZR]; apply Rabs_le; lra.
Qed.

Lemma py_round_ge (z : Z) (x : R) : IZR z - 1 / 2 < x -> (z <= Grid.py_round x)%Z.
Proof.
  intros H. pose proof (py_round_error x) as He. apply Rabs_le_inv in He.
  assert (Hlt : IZR (z - 1) < IZR (Grid.py_round x)) by (rewrite minus_IZR; lra).
  apply lt_IZR in Hlt. lia.
Qed.

Lemma py_round_le (z : Z) (x : R) : x < IZR z + 1 / 2 -> (Grid.py_round x <= z)%Z.
Proof.
  intros H. pose proof (py_round_error x) as He. apply Rabs_le_inv in He.
  assert (Hlt : IZR (Grid.py_round x) < IZR (z + 1)) by (rewrite plus_IZR; lra).
  apply lt_IZR in Hlt. lia.
Qed.

(** Away from the ties rounding gives the nearest integer. *)
Lemma py_round_near (z : Z) (x : R) :
  IZR z - 1 / 2 < x < IZR z + 1 / 2 -> Grid.py_round x = z.
Proof.
  intros [H1 H2].
  pose proof (py_round_ge z x H1). pose proof (py_round_le z x H2). lia.
Qed.

Lemma py_round_down (z : Z) (x : R) :
  IZR z <= x < IZR z + 1 / 2 -> Grid.py_round x = z.
Proof. intros H. apply py_round_near. lra. Qed.

(** *** Powers of two *)

Lemma pow2_pos (e : Z) : 0 < powerRZ 2 e.
Proof. apply powerRZ_lt. lra. Qed.

Lemma pow2_add (a b : Z) : powerRZ 2 (a + b) = powerRZ 2 a * powerRZ 2 b.
Proof. apply powerRZ_add. lra. Qed.

Lemma pow2_nat (n : nat) : powerRZ 2 (Z.of_nat n) = IZR (2 ^ Z.of_nat n).
Proof. rewrite <- pow_powerRZ. apply pow_IZR. Qed.

Lemma pow2_nonneg (k : Z) : (0 <= k)%Z -> powerRZ 2 k = IZR (2 ^ k).
Proof. intros H. rewrite <- (Z2Nat.id k H). apply pow2_nat. Qed.

Lemma pow2_neg (k : Z) : (0 <= k)%Z -> powerRZ 2 (- k) = / IZR (2 ^ k).
Proof. intros H. rewrite powerRZ_neg'. now rewrite pow2_nonneg. Qed.

Lemma pow2_ge_1 (k : Z) : (0 <= k)%Z -> 1 <= powerRZ 2 k.
Proof.
  intros H. rewrite pow2_nonneg by assumption.
  apply IZR_le. assert (0 < 2 ^ k)%Z by (apply Z.pow_pos_nonneg; lia). lia.
Qed.

Lemma pow2_le (a b : Z) : (a <= b)%Z -> powerRZ 2 a <= powerRZ 2 b.
Proof.
  intros H. replace b with (a + (b - a))%Z by lia. rewrite pow2_add.
  pose proof (pow2_pos a). pose proof (pow2_ge_1 (b - a) ltac:(lia)). nra.
Qed.

Lemma pow2_lt_inv (a b : Z) : powerRZ 2 a < powerRZ 2 b -> (a < b)%Z.
Proof.
  intros H. destruct (Z.lt_ge_cases a b) as [Hlt|Hge]; [assumption|].
  pose proof (pow2_le b a Hge). lra.
Qed.

(** *** The exponent of a real *)

Lemma ln2_pos : 0 < ln 2.
Proof. rewrite <- ln_1. apply ln_increasing; lra. Qed.

Lemma pow2_exp (e : Z) : powerRZ 2 e = exp (IZR e * ln 2).
Proof. rewrite powerRZ_Rpower by lra. reflexivity. Qed.

Lemma mag_bounds (x : R) :
  x <> 0 -> powerRZ 2 (Grid.mag x - 1) <= Rabs x < powerRZ 2 (Grid.mag x).
Proof.
  intros Hx. unfold Grid.mag.
  assert (Ha : 0 < Rabs x) by now apply Rabs_pos_lt.
  pose proof ln2_pos as H2.
  set (L := ln (Rabs x) / ln 2).
  pose proof (Zfloor_bound L) as [Hlo Hhi].
  assert (HL : L * ln 2 = ln (Rabs x)) by (unfold L; field; lra).
  replace (Zfloor L + 1 - 1)%Z with (Zfloor L) by lia.
  rewrite !pow2_exp, plus_IZR.
  assert (Hex : Rabs x = exp (L * ln 2)) by (rewrite HL; symmetry; now apply exp_ln).
  rewrite Hex.
  split.
  - destruct (Req_dec (IZR (Zfloor L)) L) as [->|Hne]; [lra|].
    left. apply exp_increasing. nra.
  - apply exp_increasing. nra.
Qed.

Lemma mag_unique (x : R) (M : Z) :
  powerRZ 2 (M - 1) <= Rabs x < powerRZ 2 M -> Grid.mag x = M.
Proof.
  intros [Hlo Hhi].
  assert (Hx : x <> 0).
  { intros ->. rewrite Rabs_R0 in Hlo. pose proof (pow2_pos (M - 1)). lra. }
  destruct (mag_bounds x Hx) as [Hlo' Hhi'].
  assert (Grid.mag x - 1 < M)%Z by (apply pow2_lt_inv; lra).
  assert (M - 1 < Grid.mag x)%Z by (apply pow2_lt_inv; lra).
  lia.
Qed.

(** *** Rounding to binary64 *)

Lemma eps_pow2 : powerRZ 2 (-53) = Grid.eps.
Proof.
  pose proof (pow2_neg 53 ltac:(lia)) as H. cbn [Z.opp] in H.
  rewrite H. reflexivity.
Qed.

Lemma eps_bounds : 0 < Grid.eps < / 1000.
Proof. unfold Grid.eps. lra. Qed.

Lemma ulp_pos (x : R) : 0 < Grid.ulp x.
Proof. apply pow2_pos. Qed.

Lemma fl_0 : Grid.fl 0 = 0.
Proof.
  unfold Grid.fl. unfold Rdiv at 1. rewrite Rmult_0_l.
  rewrite (py_round_IZR 0). apply Rmult_0_l.
Qed.

Lemma ulp_le (x : R) : x <> 0 -> Grid.ulp x <= 2 * Grid.eps * Rabs x.
Proof.
  intros Hx. destruct (mag_bounds x Hx) as [Hlo _].
  unfold Grid.ulp.
  replace (Grid.mag x - 53)%Z with (Grid.mag x - 1 + 1 + -53)%Z by lia.
  rewrite !pow2_add, eps_pow2. change (powerRZ 2 1) with (2 * 1).
  pose proof eps_bounds.
  pose proof (pow2_pos (Grid.mag x - 1)). nra.
Qed.

(** The relative error of one rounding is at most [2^-53]. *)
Lemma fl_error (x : R) : Rabs (Grid.fl x - x) <= Grid.eps * Rabs x.
Proof.
  destruct (Req_dec x 0) as [->|Hx].
  { rewrite fl_0, Rminus_diag, Rabs_R0. lra. }
  pose proof (ulp_le x Hx) as Hu. pose proof (ulp_pos x) as Hp.
  pose proof (py_round_error (x / Grid.ulp x)) as He.
  unfold Grid.fl.
  replace (IZR (Grid.py_round (x / Grid.ulp x)) * Grid.ulp x - x)
    with ((IZR (Grid.py_round (x / Grid.ulp x)) - x / Grid.ulp x) * Grid.ulp x)
    by (field; lra).
  rewrite Rabs_mult, (Rabs_pos_eq (Grid.ulp x)) by lra.
  pose proof (Rabs_pos (IZR (Grid.py_round (x / Grid.ulp x)) - x / Grid.ulp x)).
  nra.
Qed.

Lemma fl_bounds (x : R) :
  0 <= x -> x * (1 - Grid.eps) <= Grid.fl x <= x * (1 + Grid.eps).
Proof.
  intros Hx. pose proof (fl_error x) as He.
  rewrite (Rabs_pos_eq x Hx) in He. apply Rabs_le_inv in He. lra.
Qed.

Lemma fl_bounds_neg (x : R) :
  x <= 0 -> x * (1 + Grid.eps) <= Grid.fl x <= x * (1 - Grid.eps).
Proof.
  intros Hx. pose proof (fl_error x) as He.
  rewrite (Rabs_left1 x Hx) in He. apply Rabs_le_inv in He. lra.
Qed.

Lemma fl_lower (x l : R) : 0 <= l <= x -> l * (1 - Grid.eps) <= Grid.fl x.
Proof.
  intros [Hl Hx]. pose proof (fl_bounds x ltac:(lra)) as [Hb _].
  pose proof eps_bounds. nra.
Qed.

Lemma fl_upper (x h : R) : 0 <= x <= h -> Grid.fl x <= h * (1 + Grid.eps).
Proof.
  intros [Hx Hh]. pose proof (fl_bounds x Hx) as [_ Hb].
  pose proof eps_bounds. nra.
Qed.

(** A real with a significand of at most 53 bits is a binary64 number:
    rounding leaves it as it is. *)
Lemma fl_representable (m e : Z) :
  (Z.abs m < 2 ^ 53)%Z -> Grid.fl (IZR m * powerRZ 2 e) = IZR m * powerRZ 2 e.
Proof.
  intros Hm. destruct (Z.eq_dec m 0) as [->|Hm0].
  { rewrite Rmult_0_l. apply fl_0. }
  set (x := IZR m * powerRZ 2 e).
  pose proof (pow2_pos e) as He.
  assert (Hx : x <> 0).
  { unfold x. apply Rmult_integral_contrapositive_currified; [|lra].
    intros H0. apply eq_IZR in H0. contradiction. }
  destruct (mag_bounds x Hx) as [Hlo _].
  assert (Habs : Rabs x < powerRZ 2 (53 + e)).
  { unfold x. rewrite Rabs_mult, (Rabs_pos_eq (powerRZ 2 e)) by lra.
    rewrite <- abs_IZR, pow2_add, (pow2_nonneg 53) by lia.
    apply Rmult_lt_compat_r; [assumption|]. now apply IZR_lt. }
  assert (Hk : (0 <= 53 + e - Grid.mag x)%Z).
  { assert (Grid.mag x - 1 < 53 + e)%Z by (apply pow2_lt_inv; lra). lia. }
  assert (Hq : x / Grid.ulp x = IZR (m * 2 ^ (53 + e - Grid.mag x))).
  { rewrite mult_IZR, <- pow2_nonneg by assumption.
    unfold Grid.ulp. set (M := Grid.mag x) in *. unfold x.
    assert (He2 : powerRZ 2 e = powerRZ 2 (53 + e - M) * powerRZ 2 (M - 53))
      by (rewrite <- pow2_add; f_equal; lia).
    rewrite He2. field. pose proof (pow2_pos (M - 53)). lra. }
  unfold Grid.fl. rewrite Hq, py_round_IZR, <- Hq. field.
  pose proof (ulp_pos x). lra.
Qed.

Lemma fl_IZR (z : Z) : (Z.abs z < 2 ^ 53)%Z -> Grid.fl (IZR z) = IZR z.
Proof.
  intros H. pose proof (fl_representable z 0 H) as Hr.
  change (powerRZ 2 0) with 1 in Hr. now rewrite Rmult_1_r in Hr.
Qed.

(** Rounding a real whose exponent and nearest significand are known. *)
Lemma fl_eval (x : R) (M n : Z) :
  powerRZ 2 (M - 1) <= Rabs x < powerRZ 2 M ->
  IZR n - 1 / 2 < x / powerRZ 2 (M - 53) < IZR n + 1 / 2 ->
  Grid.fl x = IZR n * powerRZ 2 (M - 53).
Proof.
  intros HM Hn. unfold Grid.fl, Grid.ulp. rewrite (mag_unique x M HM).
  now rewrite (py_round_near n) by assumption.
Qed.

(** *** Counting the grid values *)

Lemma py_div_ok (a b : R) : b <> 0 -> Grid.py_div a b = Ok (Grid.fl (a / b)).
Proof. intros H. unfold Grid.py_div. now rewrite Reqb_false. Qed.

Lemma py_div_zero (a : R) : Grid.py_div a 0 = Raise ZeroDivisionError.
Proof. unfold Grid.py_div. now rewrite Reqb_true. Qed.

Lemma count_ok (lo hi step : R) :
  step <> 0 ->
  Grid.count lo hi step
  = Ok (Grid.py_round (Grid.fl (1 + Grid.fl (Grid.fl (hi - lo) / step)))).
Proof. intros H. unfold Grid.count. now rewrite py_div_ok. Qed.

Lemma count_zero_step (lo hi : R) : Grid.count lo hi 0 = Raise ZeroDivisionError.
Proof. unfold Grid.count. now rewrite py_div_zero. Qed.

Lemma count_any (lo hi step : R) :
  step <> 0 -> exists n : Z, Grid.count lo hi step = Ok n.
Proof. intros H. eexists. now apply count_ok. Qed.

Lemma div_lower (d step l : R) : 0 < step -> l * step <= d -> l <= d / step.
Proof.
  intros Hs H. apply (Rmult_le_reg_r step); [assumption|].
  unfold Rdiv. rewrite Rmult_assoc, Rinv_l by lra. lra.
Qed.

Lemma div_upper (d step h : R) : 0 < step -> d <= h * step -> d / step <= h.
Proof.
  intros Hs H. apply (Rmult_le_reg_r step); [assumption|].
  unfold Rdiv. rewrite Rmult_assoc, Rinv_l by lra. lra.
Qed.

(** The three roundings on the way to the count, from below and from
    above, for a range of at least [a] and at most [b] steps. *)
Lemma count_lower (lo hi step a : R) :
  0 < step -> 0 <= a -> a * step <= hi - lo ->
  (1 + a * (1 - Grid.eps) * (1 - Grid.eps)) * (1 - Grid.eps)
  <= Grid.fl (1 + Grid.fl (Grid.fl (hi - lo) / step)).
Proof.
  intros Hs Ha Hr. pose proof eps_bounds as He.
  assert (H0 : 0 <= a * step) by nra.
  pose proof (fl_lower (hi - lo) (a * step) ltac:(lra)) as Hd.
  assert (Hq0 : a * (1 - Grid.eps) <= Grid.fl (hi - lo) / step).
  { apply div_lower; [assumption | lra]. }
  assert (H1 : 0 <= a * (1 - Grid.eps)) by nra.
  pose proof (fl_lower _ _ (conj H1 Hq0)) as Hq.
  assert (H2 : 0 <= a * (1 - Grid.eps) * (1 - Grid.eps)) by nra.
  apply fl_lower. lra.
Qed.

Lemma count_upper (lo hi step b : R) :
  0 < step -> 0 <= hi - lo <= b * step ->
  Grid.fl (1 + Grid.fl (Grid.fl (hi - lo) / step))
  <= (1 + b * (1 + Grid.eps) * (1 + Grid.eps)) * (1 + Grid.eps).
Proof.
  intros Hs [Hr0 Hr]. pose proof eps_bounds as He.
  pose proof (fl_lower (hi - lo) 0 ltac:(lra)) as Hd0.
  pose proof (fl_upper (hi - lo) (b * step) ltac:(lra)) as Hd.
  assert (Hq0 : Grid.fl (hi - lo) / step <= b * (1 + Grid.eps)).
  { apply div_upper; [assumption | lra]. }
  assert (Hq00 : 0 <= Grid.fl (hi - lo) / step).
  { apply div_lower; [assumption | lra]. }
  pose proof (fl_lower _ 0 (conj (Rle_refl 0) Hq00)) as Hq1.
  pose proof (fl_upper _ _ (conj Hq00 Hq0)) as Hq.
  apply fl_upper. lra.
Qed.

Lemma count_pos (lo hi step : R) :
  0 < step -> lo <= hi ->
  exists n : Z, Grid.count lo hi step = Ok n /\ (1 <= n)%Z.
Proof.
  intros Hs Hr. eexists. split; [apply count_ok; lra|].
  apply py_round_ge.
  pose proof (count_lower lo hi step 0 Hs (Rle_refl 0) ltac:(lra)) as H.
  pose proof eps_bounds. lra.
Qed.

Lemma count_two_or_more (lo hi step : R) :
  0 < step -> lo + step <= hi ->
  exists n : Z, Grid.count lo hi step = Ok n /\ (2 <= n)%Z.
Proof.
  intros Hs Hr. eexists. split; [apply count_ok; lra|].
  apply py_round_ge.
  pose proof (count_lower lo hi step 1 Hs ltac:(lra) ltac:(lra)) as H.
  pose proof eps_bounds. nra.
Qed.

Lemma count_same (lo step : R) : step <> 0 -> Grid.count lo lo step = Ok 1%Z.
Proof.
  intros H. rewrite count_ok by assumption. f_equal.
  rewrite Rminus_diag, fl_0. unfold Rdiv. rewrite Rmult_0_l, fl_0, Rplus_0_r.
  rewrite (fl_IZR 1) by (simpl; lia). apply py_round_IZR.
Qed.

(** A range of exactly [k] steps, [k] being at most [2^48]: the three
    roundings cannot move the count away from [k + 1]. *)
Lemma count_exact_steps (lo hi step : R) (k : nat) :
  0 < step -> INR k <= 2 ^ 48 -> hi - lo = INR k * step ->
  Grid.count lo hi step = Ok (Z.of_nat (S k)).
Proof.
  intros Hs Hb Hk. rewrite count_ok by lra. f_equal.
  pose proof (pos_INR k) as Hk0.
  pose proof (count_lower lo hi step (INR k) Hs Hk0 ltac:(lra)) as Hlo.
  pose proof (count_upper lo hi step (INR k) Hs ltac:(nra)) as Hhi.
  apply py_round_near. rewrite <- INR_IZR_INZ, S_INR.
  unfold Grid.eps in *. lra.
Qed.

Lemma count_reversed (lo hi step : R) :
  0 < step -> hi + step <= lo ->
  exists n : Z, Grid.count lo hi step = Ok n /\ (n <= 0)%Z.
Proof.
  intros Hs Hr. eexists. split; [apply count_ok; lra|].
  apply py_round_le. pose proof eps_bounds as He.
  pose proof (fl_bounds_neg (hi - lo) ltac:(lra)) as [_ Hd].
  assert (Hq0 : Grid.fl (hi - lo) / step <= - (1 - Grid.eps)).
  { apply div_upper; [assumption | nra]. }
  assert (Hq00 : Grid.fl (hi - lo) / step <= 0) by lra.
  pose proof (fl_bounds_neg _ Hq00) as [_ Hq].
  set (q := Grid.fl (Grid.fl (hi - lo) / step)) in *.
  assert (Hq' : q <= - ((1 - Grid.eps) * (1 - Grid.eps))) by nra.
  destruct (Rle_dec 0 (1 + q)) as [Hpos | Hneg].
  - pose proof (fl_upper (1 + q) (2 * Grid.eps) ltac:(nra)). simpl. nra.
  - pose proof (fl_bounds_neg (1 + q) ltac:(lra)) as [_ Ht]. simpl. nra.
Qed.

(** The rounding of the quotient decides the count at a tie: with
    s_min = 0, s_max = 0.25 and s_step = 0.1 (the binary64 number
    3602879701896397 / 2^55) the quotient 2.4999999999999998... is
    rounded to 2.5, and round(3.5) is 4, where rounding the exact
    1 + 0.25/0.1 would give 3. *)
Lemma count_quarter_by_tenth :
  Grid.count 0 (1 / 4) (3602879701896397 / 36028797018963968) = Ok 4%Z
  /\ Grid.py_round (1 + (1 / 4 - 0) / (3602879701896397 / 36028797018963968))
     = 3%Z.
Proof.
  assert (Hp : powerRZ 2 (-51) = / 2251799813685248).
  { pose proof (pow2_neg 51 ltac:(lia)) as H. cbn [Z.opp] in H.
    rewrite H. reflexivity. }
  split.
  - rewrite count_ok by lra. f_equal.
    assert (Hd : Grid.fl (1 / 4 - 0) = 1 / 4).
    { replace (1 / 4 - 0) with (IZR 1 * powerRZ 2 (-2)) by (simpl; lra).
      rewrite fl_representable by (simpl; lia). simpl. lra. }
    rewrite Hd.
    assert (Hq : Grid.fl (1 / 4 / (3602879701896397 / 36028797018963968)) = 5 / 2).
    { rewrite (fl_eval _ 2 5629499534213120).
      - change (2 - 53)%Z with (-51)%Z. rewrite Hp. lra.
      - rewrite Rabs_pos_eq by lra. simpl. lra.
      - change (2 - 53)%Z with (-51)%Z. rewrite Hp. lra. }
    rewrite Hq.
    replace (1 + 5 / 2) with (IZR 7 * powerRZ 2 (-1)) by (simpl; lra).
    rewrite fl_representable by (simpl; lia).
    replace (IZR 7 * powerRZ 2 (-1)) with (7 / 2) by (simpl; lra).
    unfold Grid.py_round. rewrite (Zfloor_eq 3 (7 / 2)) by lra.
    rewrite Rltb_false by lra. rewrite Rltb_false by lra. reflexivity.
  - apply py_round_near. simpl. lra.
Qed.

Lemma linspace_negative (start stop : R) (num : Z) :
  (num < 0)%Z -> Grid.linspace start stop num = Raise ValueError.
Proof.
  intros H. unfold Grid.linspace.
  destruct (Z.ltb_spec num 0); [reflexivity | lia].
Qed.

Lemma linspace_ok (start stop : R) (num : Z) :
  (0 <= num)%Z ->
  exists l : Np.array,
    Grid.linspace start stop num = Ok l /\ length l = Z.to_nat num.
Proof.
  intros H. unfold Grid.linspace.
  destruct (Z.ltb_spec num 0); [lia|].
  eexists. split; [reflexivity|].
  now rewrite length_map, length_seq.
Qed.

Lemma linspace_one (start stop : R) : Grid.linspace start stop 1 = Ok [Fin start].
Proof.
  unfold Grid.linspace. simpl. do 3 f_equal. ring.
Qed.

Lemma linspace_two (start stop : R) :
  Grid.linspace start stop 2 = Ok [Fin start; Fin stop].
Proof.
  unfold Grid.linspace. simpl. do 3 f_equal. field.
Qed.

Lemma linspace_first (start stop : R) (num : Z) (l : Np.array) :
  (1 <= num)%Z -> Grid.linspace start stop num = Ok l ->
  nth_error l 0 = Some (Fin start).
Proof.
  intros Hn. unfold Grid.linspace.
  destruct (Z.ltb_spec num 0); [lia|].
  destruct (Z.to_nat num) as [|[|n]] eqn:Hnat; [lia| |];
    intros Hl; injection Hl as <-; simpl; do 2 f_equal; ring.
Qed.

(** The samples of [np.linspace]: the first is [start]; with two
    samples or more the last is [stop] and the others are evenly spaced
    from [start]. *)
Lemma linspace_values (start stop : R) (num : Z) (l : Np.array) :
  (1 <= num)%Z -> Grid.linspace start stop num = Ok l ->
  evenly_spaced start stop l.
Proof.
  intros Hn Hl. split; [now apply (linspace_first start stop num)|].
  revert Hl. unfold Grid.linspace.
  destruct (Z.ltb_spec num 0); [lia|].
  intros Hl. injection Hl as <-.
  rewrite length_map, length_seq.
  set (n := Z.to_nat num). split.
  - intros Hn2. rewrite nth_error_map, nth_error_seq.
    destruct (Nat.ltb_spec (n - 1) n) as [_|Hge]; [|lia].
    cbn [option_map plus].
    destruct (Nat.ltb_spec 1 n) as [_|Hge]; [|lia].
    now rewrite Nat.eqb_refl.
  - intros i Hi. rewrite nth_error_map, nth_error_seq.
    destruct (Nat.ltb_spec i n) as [_|Hge]; [|lia].
    cbn [option_map plus].
    destruct (Nat.ltb_spec 1 n) as [_|Hge]; [|lia].
    destruct (Nat.eqb_spec i (n - 1)) as [Heq|_]; [lia|].
    do 2 f_equal. ring.
Qed.

(** ** The double loop *)

Lemma update_at {A : Type} (l1 : list A) (x : A) (l2 : list A)
  (f : A -> result A) :
  Grid.update (l1 ++ x :: l2) (length l1) f
  = (x' <- f x ;; Ok (l1 ++ x' :: l2)).
Proof.
  induction l1 as [|a l1 IH]; simpl.
  - destruct (f x); reflexivity.
  - rewrite IH. destruct (f x); reflexivity.
Qed.

Lemma set2_at (Wpre : Np.matrix) (done : Np.array) (r : float64)
  (rest : Np.array) (Wpost : Np.matrix) (w : float64) :
  Grid.set2 (Wpre ++ (done ++ r :: rest) :: Wpost) (length Wpre) (length done) w
  = Ok (Wpre ++ (done ++ w :: rest) :: Wpost).
Proof. unfold Grid.set2. now rewrite !update_at. Qed.

Section Loop.

Variables x_data v_data v_err : Np.array.
Variables sv Dv : Np.matrix.

(** [p i j] is the penalty the body computes at indices [i], [j]. *)
Variable p : nat -> nat -> float64.

Let computes (i j : nat) : Prop :=
  exists s D : float64,
    Grid.get2 sv i j = Ok s /\ Grid.get2 Dv i j = Ok D
    /\ Grid.cell_penalty x_data v_data v_err s D = Ok (p i j).

Lemma inner_loop (i : nat) :
  forall (m a : nat) (Wpre : Np.matrix) (done rest : Np.array)
         (Wpost : Np.matrix) (ev : nat),
    length Wpre = i -> length done = a -> length rest = m ->
    (forall j, (a <= j < a + m)%nat -> computes i j) ->
    foldM (fun st j => Grid.cell x_data v_data v_err sv Dv st i j) (seq a m)
          (Grid.mkLoop (Wpre ++ (done ++ rest) :: Wpost) ev)
    = Ok (Grid.mkLoop (Wpre ++ (done ++ map (p i) (seq a m)) :: Wpost)
                      (ev + m)).
Proof.
  induction m as [|m IH]; intros a Wpre done rest Wpost ev Hi Ha Hm Hc.
  - destruct rest; [|discriminate]. simpl. now rewrite Nat.add_0_r.
  - destruct rest as [|r rest]; [discriminate|]. injection Hm as Hm.
    cbn [seq foldM map].
    destruct (Hc a ltac:(lia)) as (s & D & Hs & HD & Hp).
    unfold Grid.cell at 1. rewrite Hs. cbn [bind]. rewrite HD. cbn [bind].
    rewrite Hp. cbn [bind Grid.surface Grid.evals].
    rewrite <- Hi, <- Ha, set2_at. cbn [bind].
    replace (done ++ p (length Wpre) (length done) :: rest)
      with ((done ++ [p (length Wpre) (length done)]) ++ rest)
      by (now rewrite <- app_assoc).
    rewrite Hi, Ha.
    rewrite (IH (S a) Wpre (done ++ [p i a]) rest Wpost (S ev)); auto.
    + rewrite <- app_assoc. simpl. do 2 f_equal. lia.
    + rewrite length_app, Ha. simpl. lia.
    + intros j Hj. apply Hc. lia.
Qed.

Lemma outer_loop (n : nat) :
  forall (m a : nat) (Wdone Wrest : Np.matrix) (ev : nat),
    length Wdone = a -> length Wrest = m ->
    Forall (fun row => length row = n) Wrest ->
    (forall i j, (a <= i < a + m)%nat -> (j < n)%nat -> computes i j) ->
    foldM (fun st_i i =>
             foldM (fun st_j j => Grid.cell x_data v_data v_err sv Dv st_j i j)
                   (seq 0 n) st_i)
          (seq a m) (Grid.mkLoop (Wdone ++ Wrest) ev)
    = Ok (Grid.mkLoop (Wdone ++ map (fun i => map (p i) (seq 0 n)) (seq a m))
                      (ev + m * n)).
Proof.
  induction m as [|m IH]; intros a Wdone Wrest ev Ha Hm Hrows Hc.
  - destruct Wrest; [|discriminate]. simpl. now rewrite Nat.add_0_r.
  - destruct Wrest as [|row Wrest]; [discriminate|]. injection Hm as Hm.
    inversion Hrows as [|? ? Hrow Hrows']; subst.
    cbn [seq foldM map].
    pose proof (inner_loop (length Wdone) (length row) 0 Wdone [] row Wrest ev)
      as Hin.
    cbn [app] in Hin. rewrite Hin; auto.
    + cbn [bind].
      replace (Wdone ++ map (p (length Wdone)) (seq 0 (length row)) :: Wrest)
        with ((Wdone ++ [map (p (length Wdone)) (seq 0 (length row))]) ++ Wrest)
        by (now rewrite <- app_assoc).
      rewrite (IH (S (length Wdone))); auto.
      * rewrite <- app_assoc. simpl. do 2 f_equal. lia.
      * rewrite length_app. simpl. lia.
      * intros i j Hi Hj. apply Hc; lia.
    + intros j Hj. apply Hc; lia.
Qed.

End Loop.

(** ** Every cell evaluates when the three data arrays agree in length *)

Lemma diag_rows (v : Np.array) :
  Forall (fun row => length row = length v) (Np.diag v).
Proof.
  induction v as [|x v IH]; simpl; constructor.
  - simpl. unfold Np.zeros. now rewrite repeat_length.
  - apply Forall_forall. intros row Hin. apply in_map_iff in Hin.
    destruct Hin as (row' & <- & Hin'). simpl. f_equal.
    rewrite Forall_forall in IH. now apply IH.
Qed.

Lemma vecmat_length (r : Np.array) (M : Np.matrix) (k : nat) :
  Forall (fun row => length row = k) M -> length (Np.vecmat r M k) = k.
Proof.
  revert M. induction r as [|x r IH]; intros M HM; simpl.
  - unfold Np.zeros. apply repeat_length.
  - destruct M as [|row M]; [unfold Np.zeros; apply repeat_length|].
    inversion HM as [|? ? Hrow HM']; subst.
    rewrite map2_length; rewrite length_map; [reflexivity|].
    now rewrite IH.
Qed.

Lemma matmul_vm_diag (r v : Np.array) :
  length r = length v ->
  exists t : Np.array,
    Np.matmul_vm r (Np.diag v) = Ok t /\ length t = length v.
Proof.
  intros H. unfold Np.matmul_vm. rewrite diag_length, H, Nat.eqb_refl.
  eexists. split; [reflexivity|]. apply vecmat_length, diag_rows.
Qed.

Lemma penalty_total (r v_err : Np.array) :
  length r = length v_err -> exists w : float64, penalty r v_err = Ok w.
Proof.
  intros H. unfold penalty.
  destruct (matmul_vm_diag r (Np.pow2 v_err)) as (t & Ht & Hlt).
  { unfold Np.pow2. now rewrite length_map. }
  rewrite Ht. cbn [bind]. unfold Np.matmul_vv.
  unfold Np.pow2 in Hlt. rewrite length_map in Hlt.
  rewrite Hlt, <- H, Nat.eqb_refl. eauto.
Qed.

Lemma v_model_length (s D : float64) (x_data : Np.array) :
  length (v_model s D x_data) = length x_data.
Proof.
  unfold v_model, Np.mul_s, Np.arctan, Np.div_s. now rewrite !length_map.
Qed.

Lemma sub_same_length (a b : Np.array) :
  length a = length b -> Np.sub a b = Ok (Np.map2 fsub a b).
Proof.
  intros H. unfold Np.sub, Np.broadcast2. now rewrite H, Nat.eqb_refl.
Qed.

Section Cells.

Variables x_data v_data v_err : Np.array.
Hypothesis Hx : length x_data = length v_data.
Hypothesis He : length v_err = length v_data.

Lemma cell_penalty_total (s D : float64) :
  exists w : float64, Grid.cell_penalty x_data v_data v_err s D = Ok w.
Proof.
  unfold Grid.cell_penalty.
  rewrite sub_same_length by (now rewrite v_model_length).
  cbn [bind]. apply penalty_total.
  unfold Np.sub_s. rewrite length_map, map2_length; [congruence|].
  now rewrite v_model_length.
Qed.

Lemma cell_penalty_value (s D : float64) :
  Grid.cell_penalty x_data v_data v_err s D
  = Ok (penalty_value x_data v_data v_err s D).
Proof.
  unfold penalty_value. destruct (cell_penalty_total s D) as [w Hw].
  now rewrite Hw.
Qed.

End Cells.

Lemma get2_nth (M : Np.matrix) (i j : nat) (row : Np.array) (w : float64) :
  nth_error M i = Some row -> nth_error row j = Some w -> Grid.get2 M i j = Ok w.
Proof. intros HM Hrow. unfold Grid.get2. now rewrite HM, Hrow. Qed.

Lemma get2_inv (M : Np.matrix) (i j : nat) (w : float64) :
  Grid.get2 M i j = Ok w ->
  exists row, nth_error M i = Some row /\ nth_error row j = Some w.
Proof.
  unfold Grid.get2. destruct (nth_error M i) as [row|]; [|discriminate].
  destruct (nth_error row j) as [w'|] eqn:Hj; [|discriminate].
  intros H. injection H as <-. exists row. split; [reflexivity | exact Hj].
Qed.

Lemma get2_meshgrid (s_set D_set : Np.array) (i j : nat) (s D : float64) :
  nth_error D_set i = Some D -> nth_error s_set j = Some s ->
  Grid.get2 (fst (Grid.meshgrid s_set D_set)) i j = Ok s
  /\ Grid.get2 (snd (Grid.meshgrid s_set D_set)) i j = Ok D.
Proof.
  intros HD Hs. unfold Grid.meshgrid. cbn [fst snd]. split.
  - apply (get2_nth _ _ _ s_set); [|assumption].
    now rewrite (map_nth_error _ _ _ HD).
  - apply (get2_nth _ _ _ (map (fun _ => D) s_set)).
    + now rewrite (map_nth_error _ _ _ HD).
    + now rewrite (map_nth_error _ _ _ Hs).
Qed.

Lemma get2_surface (x_data v_data v_err s_set D_set : Np.array)
  (i j : nat) (s D : float64) :
  nth_error D_set i = Some D -> nth_error s_set j = Some s ->
  Grid.get2 (penalty_surface x_data v_data v_err s_set D_set) i j
  = Ok (penalty_value x_data v_data v_err s D).
Proof.
  intros HD Hs. unfold penalty_surface.
  apply (get2_nth _ _ _ (map (fun s => penalty_value x_data v_data v_err s D) s_set)).
  - now rewrite (map_nth_error _ _ _ HD).
  - now rewrite (map_nth_error _ _ _ Hs).
Qed.

Lemma map_seq_nth {A B : Type} (g : A -> B) (l : list A) (d : A) :
  map (fun i => g (nth i l d)) (seq 0 (length l)) = map g l.
Proof.
  induction l as [|a l IH]; [reflexivity|].
  cbn [length seq map nth]. f_equal.
  rewrite <- seq_shift, map_map. exact IH.
Qed.

Lemma grid_search_ok (x_data v_data v_err : Np.array)
  (s_min s_max s_step D_min D_max D_step : R) (ns nD : Z) :
  length x_data = length v_data -> length v_err = length v_data ->
  Grid.count s_min s_max s_step = Ok ns -> (0 <= ns)%Z ->
  Grid.count D_min D_max D_step = Ok nD -> (0 <= nD)%Z ->
  exists ss Ds : Np.array,
    Grid.linspace s_min s_max ns = Ok ss /\ length ss = Z.to_nat ns
    /\ Grid.linspace D_min D_max nD = Ok Ds /\ length Ds = Z.to_nat nD
    /\ Grid.grid_search x_data v_data v_err s_min s_max s_step D_min D_max D_step
       = Ok (Grid.mkGrid ns ss nD Ds
               (fst (Grid.meshgrid ss Ds)) (snd (Grid.meshgrid ss Ds))
               (penalty_surface x_data v_data v_err ss Ds)
               (Z.to_nat nD * Z.to_nat ns)).
Proof.
  intros Hx He Hcs Hns HcD HnD.
  destruct (linspace_ok s_min s_max ns Hns) as (ss & Hss & Hlss).
  destruct (linspace_ok D_min D_max nD HnD) as (Ds & HDs & HlDs).
  exists ss, Ds. repeat (split; [assumption|]).
  unfold Grid.grid_search. rewrite Hcs. cbn [bind]. rewrite Hss. cbn [bind].
  rewrite HcD. cbn [bind]. rewrite HDs. cbn [bind].
  unfold Grid.search_loop, Grid.range. rewrite <- Hlss, <- HlDs.
  pose proof (outer_loop x_data v_data v_err
                (fst (Grid.meshgrid ss Ds)) (snd (Grid.meshgrid ss Ds))
                (fun i j => penalty_value x_data v_data v_err
                              (nth j ss NaN) (nth i Ds NaN))
                (length ss) (length Ds) 0 []
                (map (fun row => Np.zeros (length row)) (fst (Grid.meshgrid ss Ds)))
                0) as Hloop.
  cbn [app] in Hloop. rewrite Hloop; clear Hloop.
  - cbn [bind Grid.surface Grid.evals plus]. do 2 f_equal.
    unfold penalty_surface.
    rewrite <- (map_seq_nth
                  (fun D => map (fun s => penalty_value x_data v_data v_err s D) ss)
                  Ds NaN).
    apply map_ext. intros i.
    now rewrite <- (map_seq_nth
                      (fun s => penalty_value x_data v_data v_err s (nth i Ds NaN))
                      ss NaN).
  - reflexivity.
  - unfold Grid.meshgrid. cbn [fst]. now rewrite !length_map.
  - unfold Grid.meshgrid. cbn [fst]. rewrite map_map. apply Forall_forall.
    intros row Hin. apply in_map_iff in Hin. destruct Hin as (d & <- & _).
    unfold Np.zeros. apply repeat_length.
  - intros i j Hi Hj.
    assert (HDi : nth_error Ds i = Some (nth i Ds NaN))
      by (apply nth_error_nth'; lia).
    assert (Hsj : nth_error ss j = Some (nth j ss NaN))
      by (apply nth_error_nth'; lia).
    destruct (get2_meshgrid ss Ds i j _ _ HDi Hsj) as [Hgs HgD].
    exists (nth j ss NaN), (nth i Ds NaN).
    split; [assumption|]. split; [assumption|].
    now apply cell_penalty_value.
Qed.

(** ** The size of the grid *)

Lemma grid_count_exact (lo hi step : R) (k : Z) :
  (hi - lo) / step = IZR k -> grid_count lo hi step = (k + 1)%Z.
Proof.
  intros Hk. unfold grid_count, Zceil. rewrite Hk, ZfloorNZ. lia.
Qed.

(** A count that agrees with the ceiling plus one of the specification:
    the range is a whole number of steps, at most [2^48] of them. *)
Lemma count_matches_spec (lo hi step : R) (k n : Z) :
  0 < step -> lo <= hi -> (k <= 2 ^ 48)%Z -> (hi - lo) / step = IZR k ->
  Grid.count lo hi step = Ok n -> n = grid_count lo hi step.
Proof.
  intros Hs Hr Hb Hk Hc. rewrite (grid_count_exact lo hi step k Hk).
  assert (Hq : 0 <= (hi - lo) / step) by (apply div_lower; lra).
  assert (Hk0 : (0 <= k)%Z) by (apply le_IZR; lra).
  assert (HI : INR (Z.to_nat k) = IZR k)
    by (rewrite INR_IZR_INZ, Z2Nat.id; [reflexivity | assumption]).
  rewrite (count_exact_steps lo hi step (Z.to_nat k)) in Hc.
  - injection Hc as <-. lia.
  - assumption.
  - rewrite HI. apply IZR_le in Hb.
    change (2 ^ 48)%Z with 281474976710656%Z in Hb. lra.
  - rewrite HI, <- Hk. field. lra.
Qed.

Lemma penalty_surface_shape (x_data v_data v_err ss Ds : Np.array) :
  length (penalty_surface x_data v_data v_err ss Ds) = length Ds
  /\ Forall (fun row => length row = length ss)
            (penalty_surface x_data v_data v_err ss Ds).
Proof.
  unfold penalty_surface. split; [apply length_map|].
  apply Forall_forall. intros row Hin. apply in_map_iff in Hin.
  destruct Hin as (D & <- & _). apply length_map.
Qed.

(** C4 (as the code has it): with positive steps and ordered bounds the
    grid has round(1+(s_max-s_min)/s_step) slip rates and
    round(1+(D_max-D_min)/D_step) locking depths, the difference, the
    quotient and the sum each rounded to binary64 and round going to the
    nearest integer with ties to even; both counts are 1 at least.  The
    values are evenly spaced over the inclusive range: the first is the
    lower bound, with two values or more the last is the upper bound and
    the one of index i is min + i*(max-min)/(n-1).  The penalty is
    evaluated once per cell, the product of the two counts.  The counts
    are the ceiling plus one of the specification whenever the range is a
    whole number of steps, at most 2^48 of them. *)
Theorem C4_grid_size_by_rounding (x_data v_data v_err : Np.array)
  (s_min s_max s_step D_min D_max D_step : R) :
  length x_data = length v_data -> length v_err = length v_data ->
  0 < s_step -> s_min <= s_max -> 0 < D_step -> D_min <= D_max ->
  exists g : Grid.grid,
    Grid.grid_search x_data v_data v_err s_min s_max s_step D_min D_max D_step
      = Ok g
    /\ Grid.n_s g
       = Grid.py_round
           (Grid.fl (1 + Grid.fl (Grid.fl (s_max - s_min) / s_step)))
    /\ Grid.n_D g
       = Grid.py_round
           (Grid.fl (1 + Grid.fl (Grid.fl (D_max - D_min) / D_step)))
    /\ (1 <= Grid.n_s g)%Z /\ (1 <= Grid.n_D g)%Z
    /\ length (Grid.s_set g) = Z.to_nat (Grid.n_s g)
    /\ length (Grid.D_set g) = Z.to_nat (Grid.n_D g)
    /\ evenly_spaced s_min s_max (Grid.s_set g)
    /\ evenly_spaced D_min D_max (Grid.D_set g)
    /\ length (Grid.WRSS_surface g) = length (Grid.D_set g)
    /\ Forall (fun row => length row = length (Grid.s_set g)) (Grid.WRSS_surface g)
    /\ Grid.evaluations g = (length (Grid.D_set g) * length (Grid.s_set g))%nat
    /\ (forall k : Z, (k <= 2 ^ 48)%Z -> (s_max - s_min) / s_step = IZR k ->
          Grid.n_s g = grid_count s_min s_max s_step)
    /\ (forall k : Z, (k <= 2 ^ 48)%Z -> (D_max - D_min) / D_step = IZR k ->
          Grid.n_D g = grid_count D_min D_max D_step).
Proof.
  intros Hx He Hss Hsr HDs HDr.
  destruct (count_pos s_min s_max s_step Hss Hsr) as (ns & Hcs & Hns).
  destruct (count_pos D_min D_max D_step HDs HDr) as (nD & HcD & HnD).
  destruct (grid_search_ok x_data v_data v_err s_min s_max s_step
              D_min D_max D_step ns nD Hx He Hcs ltac:(lia) HcD ltac:(lia))
    as (ss & Ds & Hlss & Hls & HlDs & HlD & Hg).
  pose proof Hcs as Hcs'. pose proof HcD as HcD'.
  rewrite count_ok in Hcs' by lra. rewrite count_ok in HcD' by lra.
  injection Hcs' as Hcs'. injection HcD' as HcD'.
  eexists. split; [exact Hg|]. cbn.
  destruct (penalty_surface_shape x_data v_data v_err ss Ds) as [Hrows Hcols].
  split; [now symmetry|]. split; [now symmetry|].
  split; [assumption|]. split; [assumption|].
  split; [assumption|]. split; [assumption|].
  split; [apply (linspace_values s_min s_max ns); [lia | assumption]|].
  split; [apply (linspace_values D_min D_max nD); [lia | assumption]|].
  split; [assumption|]. split; [assumption|].
  split; [congruence|]. split.
  - intros k Hb Hk. now apply (count_matches_spec s_min s_max s_step k).
  - intros k Hb Hk. now apply (count_matches_spec D_min D_max D_step k).
Qed.

Lemma C4_grid_size_by_rounding_witness :
  length [Fin 1] = length [Fin 0] /\ length [Fin 1] = length [Fin 0]
  /\ 0 < 1 / 2 /\ 10 <= 40 /\ 0 < 1 / 2 /\ 2 <= 50
  /\ exists g : Grid.grid,
    Grid.grid_search [Fin 1] [Fin 0] [Fin 1] 10 40 (1 / 2) 2 50 (1 / 2) = Ok g
    /\ Grid.n_s g
       = Grid.py_round (Grid.fl (1 + Grid.fl (Grid.fl (40 - 10) / (1 / 2))))
    /\ Grid.n_D g
       = Grid.py_round (Grid.fl (1 + Grid.fl (Grid.fl (50 - 2) / (1 / 2))))
    /\ (1 <= Grid.n_s g)%Z /\ (1 <= Grid.n_D g)%Z
    /\ length (Grid.s_set g) = Z.to_nat (Grid.n_s g)
    /\ length (Grid.D_set g) = Z.to_nat (Grid.n_D g)
    /\ evenly_spaced 10 40 (Grid.s_set g)
    /\ evenly_spaced 2 50 (Grid.D_set g)
    /\ length (Grid.WRSS_surface g) = length (Grid.D_set g)
    /\ Forall (fun row => length row = length (Grid.s_set g)) (Grid.WRSS_surface g)
    /\ Grid.evaluations g = (length (Grid.D_set g) * length (Grid.s_set g))%nat
    /\ (forall k : Z, (k <= 2 ^ 48)%Z -> (40 - 10) / (1 / 2) = IZR k ->
          Grid.n_s g = grid_count 10 40 (1 / 2))
    /\ (forall k : Z, (k <= 2 ^ 48)%Z -> (50 - 2) / (1 / 2) = IZR k ->
          Grid.n_D g = grid_count 2 50 (1 / 2)).
Proof.
  assert (H1 : length [Fin 1] = length [Fin 0]) by reflexivity.
  assert (H2 : 0 < 1 / 2) by lra.
  assert (H3 : 10 <= 40) by lra.
  assert (H4 : 2 <= 50) by lra.
  repeat (split; [assumption|]).
  exact (C4_grid_size_by_rounding [Fin 1] [Fin 0] [Fin 1] 10 40 (1 / 2) 2 50 (1 / 2)
           H1 H1 H2 H3 H2 H4).
Defined.

(** C4, the claim as stated, on the slip-rate range [0, 1.25] with step
    1 (all three binary64 numbers): the code tests round(1 + 1.25) = 2
    values, 0 and 1.25; the specification's ceil(1.25) + 1 is 3.  With a
    single locking depth the penalty is evaluated 2 times, not 3. *)
Lemma C4_grid_count_counterexample :
  grid_count 0 (5 / 4) 1 = 3%Z
  /\ grid_count 1 1 1 = 1%Z
  /\ exists g : Grid.grid,
      Grid.grid_search [Fin 1] [Fin 0] [Fin 1] 0 (5 / 4) 1 1 1 1 = Ok g
      /\ Grid.n_s g = 2%Z
      /\ Grid.n_s g <> grid_count 0 (5 / 4) 1
      /\ Grid.s_set g = [Fin 0; Fin (5 / 4)]
      /\ Grid.D_set g = [Fin 1]
      /\ Grid.evaluations g = 2%nat.
Proof.
  assert (Hspec : grid_count 0 (5 / 4) 1 = 3%Z).
  { unfold grid_count, Zceil.
    rewrite (Zfloor_eq (-2) (- ((5 / 4 - 0) / 1))) by lra. reflexivity. }
  split; [exact Hspec|].
  split.
  { unfold grid_count, Zceil.
    rewrite (Zfloor_eq 0 (- ((1 - 1) / 1))) by lra. reflexivity. }
  assert (Hcs : Grid.count 0 (5 / 4) 1 = Ok 2%Z).
  { rewrite count_ok by lra. f_equal.
    replace (5 / 4 - 0) with (IZR 5 * powerRZ 2 (-2)) by (simpl; lra).
    rewrite fl_representable by (simpl; lia).
    replace (IZR 5 * powerRZ 2 (-2) / 1) with (IZR 5 * powerRZ 2 (-2))
      by (simpl; lra).
    rewrite fl_representable by (simpl; lia).
    replace (1 + IZR 5 * powerRZ 2 (-2)) with (IZR 9 * powerRZ 2 (-2))
      by (simpl; lra).
    rewrite fl_representable by (simpl; lia).
    apply py_round_down. simpl. lra. }
  assert (HcD : Grid.count 1 1 1 = Ok 1%Z) by (apply count_same; lra).
  destruct (grid_search_ok [Fin 1] [Fin 0] [Fin 1] 0 (5 / 4) 1 1 1 1 2 1
              eq_refl eq_refl Hcs ltac:(lia) HcD ltac:(lia))
    as (ss & Ds & Hss & _ & HDs & _ & Hg).
  rewrite linspace_two in Hss. injection Hss as <-.
  rewrite linspace_one in HDs. injection HDs as <-.
  eexists. split; [exact Hg|]. cbn. rewrite Hspec.
  repeat split; auto. discriminate.
Qed.

(** ** Picking the best cell *)

Lemma fminimum_NaN_l (b : float64) : fminimum NaN b = NaN.
Proof. reflexivity. Qed.

Lemma fltb_irrefl (a : float64) : fltb a a = false.
Proof. destruct a; simpl; auto. apply Rltb_false. lra. Qed.

Lemma fltb_trans_false (a b c : float64) :
  a <> NaN -> b <> NaN -> c <> NaN ->
  fltb a b = false -> fltb b c = false -> fltb a c = false.
Proof.
  intros Ha Hb Hc. destruct a, b, c; simpl; try congruence; auto.
  unfold Rltb. destruct (Rlt_dec r r0), (Rlt_dec r0 r1), (Rlt_dec r r1);
    try congruence; lra.
Qed.

Lemma fltb_asym (a b : float64) : fltb a b = true -> fltb b a = false.
Proof.
  destruct a, b; simpl; try congruence; auto.
  unfold Rltb. destruct (Rlt_dec r r0), (Rlt_dec r0 r); try congruence; lra.
Qed.

Lemma fminimum_not_NaN (a b : float64) :
  a <> NaN -> b <> NaN -> fminimum a b = if fltb b a then b else a.
Proof. intros Ha Hb. destruct a, b; try congruence; reflexivity. Qed.

(** The minimum is below the accumulator it started from and below
    every element folded in, none of which is NaN. *)
Lemma fold_fminimum_spec (ws : list float64) (w m : float64) :
  fold_left fminimum ws w = m -> m <> NaN ->
  w <> NaN /\ fltb w m = false
  /\ forall x, In x ws -> x <> NaN /\ fltb x m = false.
Proof.
  revert w. induction ws as [|y ws IH]; intros w Hm Hn; simpl in Hm.
  - subst m. split; [assumption|]. split; [apply fltb_irrefl|]. intros x [].
  - destruct (IH _ Hm Hn) as (Hacc & Hlt & Hall).
    assert (Hw : w <> NaN).
    { intros ->. now rewrite fminimum_NaN_l in Hacc. }
    assert (Hy : y <> NaN).
    { intros ->. destruct w; simpl in Hacc; congruence. }
    assert (Hmin : fltb w (fminimum w y) = false /\ fltb y (fminimum w y) = false).
    { rewrite fminimum_not_NaN by assumption.
      destruct (fltb y w) eqn:Hyw.
      - split; [now apply fltb_asym | apply fltb_irrefl].
      - split; [apply fltb_irrefl | assumption]. }
    destruct Hmin as [Hwm Hym].
    split; [assumption|]. split.
    + now apply (fltb_trans_false w (fminimum w y) m).
    + intros x [<- | Hin]; [|now apply Hall].
      split; [assumption|].
      now apply (fltb_trans_false y (fminimum w y) m).
Qed.

Lemma get2_in_concat (W : Np.matrix) (i j : nat) (w : float64) :
  Grid.get2 W i j = Ok w -> In w (concat W).
Proof.
  intros H. apply get2_inv in H. destruct H as (row & Hrow & Hw).
  apply in_concat. exists row. split; eauto using nth_error_In.
Qed.

Lemma amin_spec (W : Np.matrix) (m : float64) :
  Grid.amin W = Ok m -> m <> NaN ->
  forall i j w, Grid.get2 W i j = Ok w -> w <> NaN /\ fltb w m = false.
Proof.
  unfold Grid.amin. intros Ha Hn i j w Hg.
  apply get2_in_concat in Hg.
  destruct (concat W) as [|w0 ws]; [discriminate|].
  injection Ha as Ha.
  destruct (fold_fminimum_spec ws w0 m Ha Hn) as (Hw0 & Hlt0 & Hall).
  destruct Hg as [<- | Hin]; auto.
Qed.

Lemma enumerate_from_In {A : Type} (l : list A) (start i : nat) (a : A) :
  In (i, a) (combine (seq start (length l)) l)
  <-> (start <= i)%nat /\ nth_error l (i - start) = Some a.
Proof.
  revert start. induction l as [|x l IH]; intros start; simpl.
  - split; [contradiction|]. intros [_ H]. destruct (i - start)%nat; discriminate.
  - rewrite IH. split.
    + intros [Heq | [Hle Hnth]].
      * injection Heq as <- <-. rewrite Nat.sub_diag. auto.
      * split; [lia|]. replace (i - start)%nat with (S (i - S start)) by lia.
        exact Hnth.
    + intros [Hle Hnth]. destruct (Nat.eq_dec i start) as [-> | Hne].
      * rewrite Nat.sub_diag in Hnth. injection Hnth as <-. now left.
      * right. split; [lia|].
        replace (i - start)%nat with (S (i - S start)) in Hnth by lia.
        exact Hnth.
Qed.

Lemma enumerate_In {A : Type} (l : list A) (i : nat) (a : A) :
  In (i, a) (Grid.enumerate l) <-> nth_error l i = Some a.
Proof.
  unfold Grid.enumerate. rewrite enumerate_from_In, Nat.sub_0_r.
  split; [tauto | auto with arith].
Qed.

Lemma where_eq_In (W : Np.matrix) (b : float64) (i j : nat) :
  In (i, j) (Grid.where_eq W b)
  <-> exists w, Grid.get2 W i j = Ok w /\ feqb w b = true.
Proof.
  unfold Grid.where_eq. rewrite in_flat_map. split.
  - intros ([i' row] & Hrow & Hin). cbn [fst snd] in Hin.
    apply in_map_iff in Hin. destruct Hin as ([j' w] & Heq & Hin).
    cbn [fst] in Heq. injection Heq as -> ->.
    apply filter_In in Hin. destruct Hin as [Hin Hb]. cbn [snd] in Hb.
    apply enumerate_In in Hrow. apply enumerate_In in Hin.
    exists w. split; [now apply (get2_nth _ _ _ row) | assumption].
  - intros (w & Hg & Hb). apply get2_inv in Hg.
    destruct Hg as (row & Hrow & Hw).
    exists (i, row). split; [now apply enumerate_In|].
    cbn [fst snd]. apply in_map_iff. exists (j, w). split; [reflexivity|].
    apply filter_In. split; [now apply enumerate_In | assumption].
Qed.

Lemma take_length (M : Np.matrix) (idx : list (nat * nat)) (l : Np.array) :
  Grid.take M idx = Ok l -> length l = length idx.
Proof.
  unfold Grid.take. revert l. induction idx as [|ij idx IH]; intros l H; simpl in H.
  - injection H as <-. reflexivity.
  - destruct (Grid.get2 M (fst ij) (snd ij)); [|discriminate]. cbn [bind] in H.
    destruct (mapM _ idx) as [bs|]; [|discriminate]. cbn [bind] in H.
    injection H as <-. simpl. f_equal. now apply IH.
Qed.

Lemma item_inv (a : Np.array) (x : float64) : Grid.item a = Ok x -> a = [x].
Proof.
  destruct a as [|y [|z a]]; simpl; try discriminate. now intros [= ->].
Qed.

Lemma item_many (a : Np.array) : length a <> 1%nat -> Grid.item a = Raise ValueError.
Proof. destruct a as [|y [|z a]]; simpl; auto. intros H. now contradiction H. Qed.

(** A successful [take] followed by [item]: the index list is a single
    pair, and the value is the cell at that pair. *)
Lemma take_item (M : Np.matrix) (idx : list (nat * nat)) (l : Np.array)
  (x : float64) :
  Grid.take M idx = Ok l -> Grid.item l = Ok x ->
  exists i j, idx = [(i, j)] /\ Grid.get2 M i j = Ok x.
Proof.
  intros Ht Hi. apply item_inv in Hi. subst l.
  pose proof (take_length _ _ _ Ht) as Hlen.
  destruct idx as [|[i j] [|ij idx]]; try discriminate.
  exists i, j. split; [reflexivity|].
  unfold Grid.take in Ht. simpl in Ht.
  destruct (Grid.get2 M i j); [|discriminate]. cbn [bind] in Ht. congruence.
Qed.

Lemma feqb_eq (a b : float64) : feqb a b = true -> a = b.
Proof.
  destruct a, b; simpl; try discriminate; auto.
  intros H. apply Reqb_eq in H. now subst.
Qed.

Lemma best_model_inv (x_data v_data : Np.array) (g : Grid.grid) (b : Grid.best) :
  Grid.best_model x_data v_data g = Ok b ->
  exists (i j : nat) (r : Np.array),
    Grid.amin (Grid.WRSS_surface g) = Ok (Grid.WRSS_best b)
    /\ Grid.where_eq (Grid.WRSS_surface g) (Grid.WRSS_best b) = [(i, j)]
    /\ Grid.get2 (Grid.sv g) i j = Ok (Grid.s_best b)
    /\ Grid.get2 (Grid.Dv g) i j = Ok (Grid.D_best b)
    /\ Np.sub v_data (v_model (Grid.s_best b) (Grid.D_best b) x_data) = Ok r
    /\ Grid.v_shift_best b = Np.mean r.
Proof.
  unfold Grid.best_model. intros H.
  destruct (Grid.amin (Grid.WRSS_surface g)) as [wb|] eqn:Ha; [|discriminate].
  cbn [bind] in H.
  destruct (Grid.take (Grid.sv g) _) as [sel_s|] eqn:Hts; [|discriminate].
  cbn [bind] in H.
  destruct (Grid.item sel_s) as [sb|] eqn:His; [|discriminate].
  cbn [bind] in H.
  destruct (Grid.take (Grid.Dv g) _) as [sel_D|] eqn:HtD; [|discriminate].
  cbn [bind] in H.
  destruct (Grid.item sel_D) as [Db|] eqn:HiD; [|discriminate].
  cbn [bind] in H.
  destruct (Np.sub v_data _) as [r|] eqn:Hr; [|discriminate].
  cbn [bind] in H. injection H as <-. cbn.
  destruct (take_item _ _ _ _ Hts His) as (i & j & Hidx & Hgs).
  destruct (take_item _ _ _ _ HtD HiD) as (i' & j' & Hidx' & HgD).
  rewrite Hidx in Hidx'. injection Hidx' as <- <-.
  exists i, j, r. auto 10.
Qed.

Lemma get2_meshgrid_inv (ss Ds : Np.array) (i j : nat) (s D : float64) :
  Grid.get2 (fst (Grid.meshgrid ss Ds)) i j = Ok s ->
  Grid.get2 (snd (Grid.meshgrid ss Ds)) i j = Ok D ->
  nth_error Ds i = Some D /\ nth_error ss j = Some s.
Proof.
  unfold Grid.meshgrid. cbn [fst snd]. intros Hs HD.
  apply get2_inv in Hs. destruct Hs as (rs & Hrs & Hs).
  apply get2_inv in HD. destruct HD as (rD & HrD & HD).
  rewrite nth_error_map in Hrs, HrD.
  destruct (nth_error Ds i) as [d|]; [|discriminate].
  injection Hrs as <-. injection HrD as <-.
  rewrite nth_error_map in HD. rewrite Hs in HD. injection HD as ->. auto.
Qed.

Lemma grid_search_inv (x_data v_data v_err : Np.array)
  (s_min s_max s_step D_min D_max D_step : R) (g : Grid.grid) :
  Grid.grid_search x_data v_data v_err s_min s_max s_step D_min D_max D_step
    = Ok g ->
  exists ns nD : Z,
    Grid.count s_min s_max s_step = Ok ns /\ (0 <= ns)%Z
    /\ Grid.count D_min D_max D_step = Ok nD /\ (0 <= nD)%Z.
Proof.
  unfold Grid.grid_search. intros H.
  destruct (Grid.count s_min s_max s_step) as [ns|]; [|discriminate].
  cbn [bind] in H.
  destruct (Z.ltb_spec ns 0) as [Hneg | Hns].
  { now rewrite linspace_negative in H. }
  destruct (Grid.linspace s_min s_max ns); [|discriminate]. cbn [bind] in H.
  destruct (Grid.count D_min D_max D_step) as [nD|]; [|discriminate].
  cbn [bind] in H.
  destruct (Z.ltb_spec nD 0) as [Hneg | HnD].
  { now rewrite linspace_negative in H. }
  exists ns, nD. auto.
Qed.

(** The grid search in full, once it has returned. *)
Lemma run_inv (x_data v_data v_err : Np.array)
  (s_min s_max s_step D_min D_max D_step : R) (g : Grid.grid) (b : Grid.best) :
  length x_data = length v_data -> length v_err = length v_data ->
  Grid.run x_data v_data v_err s_min s_max s_step D_min D_max D_step = Ok (g, b) ->
  Grid.sv g = fst (Grid.meshgrid (Grid.s_set g) (Grid.D_set g))
  /\ Grid.Dv g = snd (Grid.meshgrid (Grid.s_set g) (Grid.D_set g))
  /\ Grid.WRSS_surface g
     = penalty_surface x_data v_data v_err (Grid.s_set g) (Grid.D_set g)
  /\ Grid.best_model x_data v_data g = Ok b.
Proof.
  intros Hx He H. unfold Grid.run in H.
  destruct (Grid.grid_search _ _ _ _ _ _ _ _ _) as [g0|] eqn:Hg; [|discriminate].
  cbn [bind] in H.
  destruct (Grid.best_model x_data v_data g0) as [b0|] eqn:Hb; [|discriminate].
  cbn [bind] in H. injection H as <- <-.
  destruct (grid_search_inv _ _ _ _ _ _ _ _ _ _ Hg)
    as (ns & nD & Hcs & Hns & HcD & HnD).
  destruct (grid_search_ok x_data v_data v_err s_min s_max s_step
              D_min D_max D_step ns nD Hx He Hcs Hns HcD HnD)
    as (ss & Ds & _ & _ & _ & _ & Hg').
  rewrite Hg in Hg'. injection Hg' as ->. cbn. auto.
Qed.

Lemma best_model_tie (x_data v_data : Np.array) (g : Grid.grid)
  (wb : float64) (l : Np.array) :
  Grid.amin (Grid.WRSS_surface g) = Ok wb ->
  Grid.take (Grid.sv g) (Grid.where_eq (Grid.WRSS_surface g) wb) = Ok l ->
  length l <> 1%nat ->
  Grid.best_model x_data v_data g = Raise ValueError.
Proof.
  intros Ha Ht Hl. unfold Grid.best_model.
  rewrite Ha. cbn [bind]. rewrite Ht. cbn [bind].
  now rewrite item_many.
Qed.

Lemma grid_search_shape (x_data v_data v_err : Np.array)
  (s_min s_max s_step D_min D_max D_step : R) (g : Grid.grid) :
  length x_data = length v_data -> length v_err = length v_data ->
  Grid.grid_search x_data v_data v_err s_min s_max s_step D_min D_max D_step
    = Ok g ->
  Grid.sv g = fst (Grid.meshgrid (Grid.s_set g) (Grid.D_set g))
  /\ Grid.Dv g = snd (Grid.meshgrid (Grid.s_set g) (Grid.D_set g))
  /\ Grid.WRSS_surface g
     = penalty_surface x_data v_data v_err (Grid.s_set g) (Grid.D_set g).
Proof.
  intros Hx He Hg.
  destruct (grid_search_inv _ _ _ _ _ _ _ _ _ _ Hg)
    as (ns & nD & Hcs & Hns & HcD & HnD).
  destruct (grid_search_ok x_data v_data v_err s_min s_max s_step
              D_min D_max D_step ns nD Hx He Hcs Hns HcD HnD)
    as (ss & Ds & _ & _ & _ & _ & Hg').
  rewrite Hg in Hg'. injection Hg' as ->. cbn. auto.
Qed.

Lemma get2_surface_inv (x_data v_data v_err ss Ds : Np.array)
  (i j : nat) (w : float64) :
  Grid.get2 (penalty_surface x_data v_data v_err ss Ds) i j = Ok w ->
  exists s D, nth_error Ds i = Some D /\ nth_error ss j = Some s.
Proof.
  intros H. apply get2_inv in H. destruct H as (row & Hrow & Hw).
  unfold penalty_surface in Hrow. rewrite nth_error_map in Hrow.
  destruct (nth_error Ds i) as [D|]; [|discriminate].
  injection Hrow as <-. rewrite nth_error_map in Hw.
  destruct (nth_error ss j) as [s|]; [|discriminate]. eauto.
Qed.

Lemma take_ok (M : Np.matrix) (idx : list (nat * nat)) :
  (forall i j, In (i, j) idx -> exists s, Grid.get2 M i j = Ok s) ->
  exists l, Grid.take M idx = Ok l /\ length l = length idx.
Proof.
  unfold Grid.take. induction idx as [|[i j] idx IH]; intros H.
  - exists []. auto.
  - destruct (H i j (or_introl eq_refl)) as (s & Hs).
    destruct IH as (l & Hl & Hlen).
    { intros i' j' Hin. apply H. now right. }
    exists (s :: l). cbn [mapM fst snd]. rewrite Hs. cbn [bind].
    rewrite Hl. cbn [bind]. simpl. auto.
Qed.

Lemma two_members {A : Type} (l : list A) (a b : A) :
  In a l -> In b l -> a <> b -> length l <> 1%nat.
Proof.
  intros Ha Hb Hab. destruct l as [|x [|y l]]; simpl; try discriminate.
  destruct Ha as [<- | []]. destruct Hb as [<- | []]. now contradiction Hab.
Qed.

(** Two distinct cells at the minimum: the search ends in ValueError. *)
Lemma run_tie (x_data v_data v_err : Np.array)
  (s_min s_max s_step D_min D_max D_step : R) (g : Grid.grid)
  (wb w1 w2 : float64) (i1 j1 i2 j2 : nat) :
  length x_data = length v_data -> length v_err = length v_data ->
  Grid.grid_search x_data v_data v_err s_min s_max s_step D_min D_max D_step
    = Ok g ->
  Grid.amin (Grid.WRSS_surface g) = Ok wb ->
  Grid.get2 (Grid.WRSS_surface g) i1 j1 = Ok w1 -> feqb w1 wb = true ->
  Grid.get2 (Grid.WRSS_surface g) i2 j2 = Ok w2 -> feqb w2 wb = true ->
  (i1, j1) <> (i2, j2) ->
  Grid.run x_data v_data v_err s_min s_max s_step D_min D_max D_step
  = Raise ValueError.
Proof.
  intros Hx He Hg Ha H1 Hb1 H2 Hb2 Hne.
  destruct (grid_search_shape _ _ _ _ _ _ _ _ _ _ Hx He Hg) as (Hsv & HDv & HW).
  unfold Grid.run. rewrite Hg. cbn [bind].
  destruct (take_ok (Grid.sv g) (Grid.where_eq (Grid.WRSS_surface g) wb))
    as (l & Hl & Hlen).
  { intros i j Hin. apply where_eq_In in Hin. destruct Hin as (w & Hw & _).
    rewrite HW in Hw. apply get2_surface_inv in Hw.
    destruct Hw as (s & D & HD & Hs).
    exists s. rewrite Hsv. now apply (get2_meshgrid _ _ _ _ s D). }
  rewrite (best_model_tie x_data v_data g wb l Ha Hl); [reflexivity|].
  rewrite Hlen.
  apply (two_members _ (i1, j1) (i2, j2)); [| |assumption];
    apply where_eq_In; eauto.
Qed.

Lemma best_model_eval (x_data v_data : Np.array) (g : Grid.grid)
  (wb sb Db : float64) (i j : nat) :
  length x_data = length v_data ->
  Grid.amin (Grid.WRSS_surface g) = Ok wb ->
  Grid.where_eq (Grid.WRSS_surface g) wb = [(i, j)] ->
  Grid.get2 (Grid.sv g) i j = Ok sb ->
  Grid.get2 (Grid.Dv g) i j = Ok Db ->
  Grid.best_model x_data v_data g
  = Ok (Grid.mkBest wb sb Db
          (Np.mean (Np.map2 fsub v_data (v_model sb Db x_data)))).
Proof.
  intros Hx Ha Hidx Hgs HgD. unfold Grid.best_model.
  rewrite Ha. cbn [bind]. rewrite Hidx. unfold Grid.take. cbn [mapM fst snd].
  rewrite Hgs. cbn [bind Grid.item]. rewrite HgD. cbn [bind Grid.item].
  rewrite sub_same_length by (now rewrite v_model_length). reflexivity.
Qed.

(** *** A single smallest cell *)

Lemma fltb_antisym (a b : float64) :
  a <> NaN -> b <> NaN -> fltb a b = false -> fltb b a = false -> a = b.
Proof.
  intros Ha Hb. destruct a, b; simpl; try congruence.
  unfold Rltb. destruct (Rlt_dec r r0), (Rlt_dec r0 r); try discriminate.
  intros _ _. f_equal. lra.
Qed.

Lemma fltb_not_NaN (a b : float64) : fltb a b = true -> a <> NaN /\ b <> NaN.
Proof. destruct a, b; simpl; intros H; split; congruence. Qed.

Lemma fltb_feqb (a b : float64) : fltb a b = true -> feqb b a = false.
Proof.
  destruct a, b; simpl; try congruence.
  unfold Rltb, Reqb. destruct (Rlt_dec r r0), (Req_dec_T r0 r); try congruence.
  lra.
Qed.

Lemma feqb_refl (a : float64) : a <> NaN -> feqb a a = true.
Proof. destruct a; simpl; try congruence. intros _. now apply Reqb_true. Qed.

(** Folding the minimum over values none of which is NaN gives one of
    them. *)
Lemma fold_fminimum_In (ws : list float64) (w : float64) :
  w <> NaN -> (forall x, In x ws -> x <> NaN) ->
  In (fold_left fminimum ws w) (w :: ws).
Proof.
  revert w. induction ws as [|y ws IH]; intros w Hw Hall; [now left|].
  assert (Hy : y <> NaN) by (apply Hall; now left).
  assert (Hm : fminimum w y = w \/ fminimum w y = y).
  { rewrite fminimum_not_NaN by assumption. destruct (fltb y w); auto. }
  cbn [fold_left].
  destruct (IH (fminimum w y)) as [Heq | Hin].
  - destruct Hm as [-> | ->]; assumption.
  - intros x Hx. apply Hall. now right.
  - rewrite <- Heq. destruct Hm as [-> | ->]; [now left | right; now left].
  - right. now right.
Qed.

Lemma in_concat_get2 (W : Np.matrix) (w : float64) :
  In w (concat W) -> exists i j : nat, Grid.get2 W i j = Ok w.
Proof.
  intros H. apply in_concat in H. destruct H as (row & Hrow & Hw).
  apply In_nth_error in Hrow. destruct Hrow as [i Hi].
  apply In_nth_error in Hw. destruct Hw as [j Hj].
  exists i, j. now apply (get2_nth _ _ _ row).
Qed.

(** A cell that is not NaN and below which no cell lies holds the
    minimum of the surface. *)
Lemma amin_least (W : Np.matrix) (i j : nat) (w : float64) :
  Grid.get2 W i j = Ok w -> w <> NaN ->
  (forall (i' j' : nat) (w' : float64),
      Grid.get2 W i' j' = Ok w' -> w' <> NaN /\ fltb w' w = false) ->
  Grid.amin W = Ok w.
Proof.
  intros Hg Hw Hall. unfold Grid.amin.
  pose proof (get2_in_concat _ _ _ _ Hg) as Hin.
  assert (Hnn : forall x, In x (concat W) -> x <> NaN /\ fltb x w = false).
  { intros x Hx. apply in_concat_get2 in Hx. destruct Hx as (i' & j' & Hx).
    now apply (Hall i' j'). }
  destruct (concat W) as [|w0 ws]; [contradiction|].
  f_equal.
  assert (Hm : In (fold_left fminimum ws w0) (w0 :: ws)).
  { apply fold_fminimum_In; [apply Hnn; now left|].
    intros x Hx. apply Hnn. now right. }
  destruct (Hnn _ Hm) as [Hmn Hmw].
  destruct (fold_fminimum_spec ws w0 _ eq_refl Hmn) as (Hw0 & Hlt0 & Hrest).
  assert (Hwm : fltb w (fold_left fminimum ws w0) = false).
  { destruct Hin as [<- | Hin]; [assumption | now apply Hrest]. }
  now apply fltb_antisym.
Qed.

(** The matches of [np.where] in one row, the columns being numbered
    from [start]. *)
Lemma row_hits_none (i0 start : nat) (row : Np.array) (b : float64) :
  (forall x, In x row -> feqb x b = false) ->
  map (fun jw : nat * float64 => (i0, fst jw))
      (filter (fun jw => feqb (snd jw) b) (combine (seq start (length row)) row))
  = [].
Proof.
  revert start. induction row as [|x row IH]; intros start H; [reflexivity|].
  cbn [length seq combine filter snd]. rewrite (H x) by now left.
  apply IH. intros y Hy. apply H. now right.
Qed.

Lemma row_hits_one (i0 start j : nat) (row : Np.array) (w b : float64) :
  nth_error row j = Some w -> feqb w b = true ->
  (forall (j' : nat) (w' : float64),
      nth_error row j' = Some w' -> j' <> j -> feqb w' b = false) ->
  map (fun jw : nat * float64 => (i0, fst jw))
      (filter (fun jw => feqb (snd jw) b) (combine (seq start (length row)) row))
  = [(i0, (start + j)%nat)].
Proof.
  revert start j. induction row as [|x row IH]; intros start j Hj Hw Hoth.
  - destruct j; discriminate.
  - cbn [length seq combine filter snd]. destruct j as [|j].
    + injection Hj as ->. rewrite Hw. cbn [map fst].
      rewrite Nat.add_0_r. f_equal.
      apply row_hits_none. intros y Hy.
      apply In_nth_error in Hy. destruct Hy as [j' Hj'].
      apply (Hoth (S j')); [exact Hj' | discriminate].
    + rewrite (Hoth 0%nat x eq_refl) by discriminate.
      rewrite (IH (S start) j Hj Hw).
      * do 2 f_equal. lia.
      * intros j' w' Hj' Hne. apply (Hoth (S j')); [exact Hj' | lia].
Qed.

(** The matches of [np.where] in the rows numbered from [start]. *)
Lemma where_from_none (start : nat) (W : Np.matrix) (b : float64) :
  (forall (i j : nat) (x : float64), Grid.get2 W i j = Ok x -> feqb x b = false) ->
  flat_map (fun ir : nat * Np.array =>
              map (fun jw : nat * float64 => (fst ir, fst jw))
                  (filter (fun jw => feqb (snd jw) b) (Grid.enumerate (snd ir))))
           (combine (seq start (length W)) W)
  = [].
Proof.
  revert start. induction W as [|row W IH]; intros start H; [reflexivity|].
  cbn [length seq combine flat_map fst snd]. unfold Grid.enumerate at 1.
  rewrite row_hits_none.
  - apply IH. intros i j x Hx. now apply (H (S i) j).
  - intros x Hx. apply In_nth_error in Hx. destruct Hx as [j Hj].
    apply (H 0%nat j). now apply (get2_nth _ _ _ row).
Qed.

Lemma where_from_one (start i j : nat) (W : Np.matrix) (w b : float64) :
  Grid.get2 W i j = Ok w -> feqb w b = true ->
  (forall (i' j' : nat) (w' : float64),
      Grid.get2 W i' j' = Ok w' -> (i', j') <> (i, j) -> feqb w' b = false) ->
  flat_map (fun ir : nat * Np.array =>
              map (fun jw : nat * float64 => (fst ir, fst jw))
                  (filter (fun jw => feqb (snd jw) b) (Grid.enumerate (snd ir))))
           (combine (seq start (length W)) W)
  = [((start + i)%nat, j)].
Proof.
  revert start i. induction W as [|row W IH]; intros start i Hg Hw Hoth.
  - destruct i; discriminate.
  - cbn [length seq combine flat_map fst snd]. unfold Grid.enumerate at 1.
    destruct i as [|i].
    + apply get2_inv in Hg. destruct Hg as (row' & Hrow & Hj).
      injection Hrow as <-.
      rewrite (row_hits_one start 0 j row w b Hj Hw).
      * rewrite where_from_none; [now rewrite Nat.add_0_r|].
        intros i' j' x Hx. apply (Hoth (S i') j'); [exact Hx | discriminate].
      * intros j' w' Hj' Hne. apply (Hoth 0%nat j').
        -- now apply (get2_nth _ _ _ row).
        -- intros Heq. injection Heq as ->. contradiction.
    + rewrite row_hits_none.
      * rewrite (IH (S start) i Hg Hw).
        -- cbn [app]. do 2 f_equal. lia.
        -- intros i' j' w' Hg' Hne. apply (Hoth (S i') j'); [exact Hg'|].
           intros Heq. injection Heq as -> ->. contradiction.
      * intros x Hx. apply In_nth_error in Hx. destruct Hx as [j' Hj'].
        apply (Hoth 0%nat j'); [|discriminate].
        now apply (get2_nth _ _ _ row).
Qed.

(** When one cell alone equals [b], [np.where] returns its index pair
    alone. *)
Lemma where_eq_single (W : Np.matrix) (i j : nat) (w b : float64) :
  Grid.get2 W i j = Ok w -> feqb w b = true ->
  (forall (i' j' : nat) (w' : float64),
      Grid.get2 W i' j' = Ok w' -> (i', j') <> (i, j) -> feqb w' b = false) ->
  Grid.where_eq W b = [(i, j)].
Proof. intros Hg Hw Hoth. exact (where_from_one 0 i j W w b Hg Hw Hoth). Qed.

(** Cell 53 on a surface with a single smallest cell: it returns the
    slip rate and the depth stored at the indices of that cell, and the
    mean residual of that pair. *)
Lemma best_model_unique (x_data v_data : Np.array) (g : Grid.grid)
  (i j : nat) (w s D : float64) :
  length x_data = length v_data ->
  Grid.get2 (Grid.WRSS_surface g) i j = Ok w -> w <> NaN ->
  (forall (i' j' : nat) (w' : float64),
      Grid.get2 (Grid.WRSS_surface g) i' j' = Ok w' ->
      (i', j') <> (i, j) -> fltb w w' = true) ->
  Grid.get2 (Grid.sv g) i j = Ok s -> Grid.get2 (Grid.Dv g) i j = Ok D ->
  Grid.best_model x_data v_data g
  = Ok (Grid.mkBest w s D (Np.mean (Np.map2 fsub v_data (v_model s D x_data)))).
Proof.
  intros Hx Hg Hw Hmin Hs HD.
  apply (best_model_eval x_data v_data g w s D i j); try assumption.
  - apply (amin_least _ i j); [assumption | assumption|].
    intros i' j' w' Hg'.
    destruct (Nat.eq_dec i' i) as [-> | Hi].
    + destruct (Nat.eq_dec j' j) as [-> | Hj].
      * rewrite Hg in Hg'. injection Hg' as <-.
        split; [assumption | apply fltb_irrefl].
      * assert (Hlt : fltb w w' = true) by (apply (Hmin i j'); congruence).
        split; [apply (fltb_not_NaN _ _ Hlt) | now apply fltb_asym].
    + assert (Hlt : fltb w w' = true) by (apply (Hmin i' j'); congruence).
      split; [apply (fltb_not_NaN _ _ Hlt) | now apply fltb_asym].
  - apply (where_eq_single _ i j w); [assumption | now apply feqb_refl|].
    intros i' j' w' Hg' Hne. apply fltb_feqb. now apply (Hmin i' j').
Qed.

(** Cell 53 on a surface with two smallest cells: ValueError. *)
Lemma best_model_two_minima (x_data v_data : Np.array) (g : Grid.grid)
  (wb w1 w2 : float64) (i1 j1 i2 j2 : nat) :
  (forall (i j : nat) (w : float64),
      Grid.get2 (Grid.WRSS_surface g) i j = Ok w ->
      exists s : float64, Grid.get2 (Grid.sv g) i j = Ok s) ->
  Grid.amin (Grid.WRSS_surface g) = Ok wb ->
  Grid.get2 (Grid.WRSS_surface g) i1 j1 = Ok w1 -> feqb w1 wb = true ->
  Grid.get2 (Grid.WRSS_surface g) i2 j2 = Ok w2 -> feqb w2 wb = true ->
  (i1, j1) <> (i2, j2) ->
  Grid.best_model x_data v_data g = Raise ValueError.
Proof.
  intros Hshape Ha H1 Hb1 H2 Hb2 Hne.
  destruct (take_ok (Grid.sv g) (Grid.where_eq (Grid.WRSS_surface g) wb))
    as (l & Hl & Hlen).
  { intros i j Hin. apply where_eq_In in Hin. destruct Hin as (w & Hw & _).
    now apply (Hshape i j w). }
  apply (best_model_tie x_data v_data g wb l Ha Hl).
  rewrite Hlen.
  apply (two_members _ (i1, j1) (i2, j2)); [| |assumption];
    apply where_eq_In; eauto.
Qed.

(** One cell strictly below every other cell of the grid: the search
    returns it. *)
Lemma run_unique (x_data v_data v_err : Np.array)
  (s_min s_max s_step D_min D_max D_step : R) (g : Grid.grid)
  (i j : nat) (w : float64) :
  length x_data = length v_data -> length v_err = length v_data ->
  Grid.grid_search x_data v_data v_err s_min s_max s_step D_min D_max D_step
    = Ok g ->
  Grid.get2 (Grid.WRSS_surface g) i j = Ok w -> w <> NaN ->
  (forall (i' j' : nat) (w' : float64),
      Grid.get2 (Grid.WRSS_surface g) i' j' = Ok w' ->
      (i', j') <> (i, j) -> fltb w w' = true) ->
  exists s D : float64,
    nth_error (Grid.s_set g) j = Some s
    /\ nth_error (Grid.D_set g) i = Some D
    /\ Grid.cell_penalty x_data v_data v_err s D = Ok w
    /\ Np.sub v_data (v_model s D x_data)
       = Ok (Np.map2 fsub v_data (v_model s D x_data))
    /\ Grid.run x_data v_data v_err s_min s_max s_step D_min D_max D_step
       = Ok (g, Grid.mkBest w s D
                  (Np.mean (Np.map2 fsub v_data (v_model s D x_data)))).
Proof.
  intros Hx He Hg Hw Hn Hmin.
  destruct (grid_search_shape _ _ _ _ _ _ _ _ _ _ Hx He Hg) as (Hsv & HDv & HW).
  pose proof Hw as Hw'. rewrite HW in Hw'.
  destruct (get2_surface_inv _ _ _ _ _ _ _ _ Hw') as (s & D & HD & Hs).
  destruct (get2_meshgrid _ _ _ _ _ _ HD Hs) as [Hgs HgD].
  rewrite <- Hsv in Hgs. rewrite <- HDv in HgD.
  exists s, D. split; [assumption|]. split; [assumption|]. split.
  - rewrite (get2_surface x_data v_data v_err _ _ _ _ _ _ HD Hs) in Hw'.
    injection Hw' as <-. now apply cell_penalty_value.
  - split; [apply sub_same_length; now rewrite v_model_length|].
    unfold Grid.run. rewrite Hg. cbn [bind].
    now rewrite (best_model_unique x_data v_data g i j w s D).
Qed.

(** C2 (as the code has it): when the search returns, the returned
    (s, D) is a cell of the grid whose penalty is the minimum of the
    surface, the penalty of every cell being computed after the shift is
    taken as the mean residual; no cell has a smaller penalty, and no
    other cell has an equal one.  The returned shift is the mean residual
    of the returned pair.  When two different cells both have the minimal
    penalty the search does not pick one: it raises ValueError.  When one
    cell has a penalty that is not NaN and strictly below that of every
    other cell, the search returns: it gives the slip rate and the depth
    of that cell, its penalty, and the mean residual of that pair as the
    shift.  The last two statements hold of cell 53 on any surface,
    whatever penalties the loop has stored in it. *)
Theorem C2_grid_search_returns_unique_minimum
  (x_data v_data v_err : Np.array)
  (s_min s_max s_step D_min D_max D_step : R) (g : Grid.grid) :
  length x_data = length v_data -> length v_err = length v_data ->
  (forall b : Grid.best,
      Grid.run x_data v_data v_err s_min s_max s_step D_min D_max D_step
        = Ok (g, b) ->
      exists i j : nat,
        nth_error (Grid.D_set g) i = Some (Grid.D_best b)
        /\ nth_error (Grid.s_set g) j = Some (Grid.s_best b)
        /\ Grid.get2 (Grid.WRSS_surface g) i j = Ok (Grid.WRSS_best b)
        /\ (exists r : Np.array,
              Np.sub v_data (v_model (Grid.s_best b) (Grid.D_best b) x_data) = Ok r
              /\ Grid.v_shift_best b = Np.mean r
              /\ penalty (Np.sub_s r (Np.mean r)) v_err = Ok (Grid.WRSS_best b))
        /\ (forall (i' j' : nat) (s D : float64),
              nth_error (Grid.D_set g) i' = Some D ->
              nth_error (Grid.s_set g) j' = Some s ->
              exists w : float64,
                Grid.cell_penalty x_data v_data v_err s D = Ok w
                /\ Grid.get2 (Grid.WRSS_surface g) i' j' = Ok w
                /\ fltb w (Grid.WRSS_best b) = false
                /\ (feqb w (Grid.WRSS_best b) = true -> i' = i /\ j' = j)))
  /\ (Grid.grid_search x_data v_data v_err s_min s_max s_step D_min D_max D_step
        = Ok g ->
      forall (wb w1 w2 : float64) (i1 j1 i2 j2 : nat),
        Grid.amin (Grid.WRSS_surface g) = Ok wb ->
        Grid.get2 (Grid.WRSS_surface g) i1 j1 = Ok w1 -> feqb w1 wb = true ->
        Grid.get2 (Grid.WRSS_surface g) i2 j2 = Ok w2 -> feqb w2 wb = true ->
        (i1, j1) <> (i2, j2) ->
        Grid.run x_data v_data v_err s_min s_max s_step D_min D_max D_step
        = Raise ValueError)
  /\ (Grid.grid_search x_data v_data v_err s_min s_max s_step D_min D_max D_step
        = Ok g ->
      forall (i j : nat) (w : float64),
        Grid.get2 (Grid.WRSS_surface g) i j = Ok w -> w <> NaN ->
        (forall (i' j' : nat) (w' : float64),
            Grid.get2 (Grid.WRSS_surface g) i' j' = Ok w' ->
            (i', j') <> (i, j) -> fltb w w' = true) ->
        exists (b : Grid.best) (s D : float64),
          Grid.run x_data v_data v_err s_min s_max s_step D_min D_max D_step
            = Ok (g, b)
          /\ nth_error (Grid.s_set g) j = Some s
          /\ nth_error (Grid.D_set g) i = Some D
          /\ Grid.s_best b = s /\ Grid.D_best b = D /\ Grid.WRSS_best b = w
          /\ Grid.cell_penalty x_data v_data v_err s D = Ok w
          /\ exists r : Np.array,
              Np.sub v_data (v_model s D x_data) = Ok r
              /\ Grid.v_shift_best b = Np.mean r)
  /\ (forall (i j : nat) (w s D : float64),
        Grid.get2 (Grid.WRSS_surface g) i j = Ok w -> w <> NaN ->
        (forall (i' j' : nat) (w' : float64),
            Grid.get2 (Grid.WRSS_surface g) i' j' = Ok w' ->
            (i', j') <> (i, j) -> fltb w w' = true) ->
        Grid.get2 (Grid.sv g) i j = Ok s -> Grid.get2 (Grid.Dv g) i j = Ok D ->
        Grid.best_model x_data v_data g
        = Ok (Grid.mkBest w s D
                (Np.mean (Np.map2 fsub v_data (v_model s D x_data)))))
  /\ ((forall (i j : nat) (w : float64),
          Grid.get2 (Grid.WRSS_surface g) i j = Ok w ->
          exists s : float64, Grid.get2 (Grid.sv g) i j = Ok s) ->
      forall (wb w1 w2 : float64) (i1 j1 i2 j2 : nat),
        Grid.amin (Grid.WRSS_surface g) = Ok wb ->
        Grid.get2 (Grid.WRSS_surface g) i1 j1 = Ok w1 -> feqb w1 wb = true ->
        Grid.get2 (Grid.WRSS_surface g) i2 j2 = Ok w2 -> feqb w2 wb = true ->
        (i1, j1) <> (i2, j2) ->
        Grid.best_model x_data v_data g = Raise ValueError).
Proof.
  intros Hx He. split; [|split; [|split; [|split]]].
  2:{ intros Hg wb w1 w2 i1 j1 i2 j2 Ha H1 Hb1 H2 Hb2 Hne.
      now apply (run_tie _ _ _ _ _ _ _ _ _ g wb w1 w2 i1 j1 i2 j2). }
  2:{ intros Hg i j w Hw Hn Hmin.
      destruct (run_unique _ _ _ _ _ _ _ _ _ g i j w Hx He Hg Hw Hn Hmin)
        as (s & D & Hs & HD & Hcp & Hr & Hrun).
      eexists. exists s, D. split; [exact Hrun|]. cbn.
      repeat (split; [first [assumption | reflexivity]|]).
      eexists. split; [exact Hr | reflexivity]. }
  2:{ intros i j w s D Hw Hn Hmin Hs HD.
      now apply (best_model_unique x_data v_data g i j w s D). }
  2:{ intros Hshape wb w1 w2 i1 j1 i2 j2 Ha H1 Hb1 H2 Hb2 Hne.
      now apply (best_model_two_minima x_data v_data g wb w1 w2 i1 j1 i2 j2). }
  intros b Hrun.
  destruct (run_inv _ _ _ _ _ _ _ _ _ _ _ Hx He Hrun) as (Hsv & HDv & HW & Hb).
  destruct (best_model_inv _ _ _ _ Hb) as (i & j & r & Ha & Hidx & Hgs & HgD & Hr & Hm).
  rewrite Hsv in Hgs. rewrite HDv in HgD.
  destruct (get2_meshgrid_inv _ _ _ _ _ _ Hgs HgD) as [HDi Hsj].
  assert (Hin : In (i, j) (Grid.where_eq (Grid.WRSS_surface g) (Grid.WRSS_best b))).
  { rewrite Hidx. now left. }
  apply where_eq_In in Hin. destruct Hin as (w0 & Hw0 & Heq0).
  pose proof (feqb_eq _ _ Heq0) as ->.
  assert (Hnn : Grid.WRSS_best b <> NaN).
  { intros Hnan. rewrite Hnan in Heq0. discriminate. }
  pose proof (get2_surface x_data v_data v_err _ _ _ _ _ _ HDi Hsj) as Hcell.
  rewrite <- HW, Hw0 in Hcell. injection Hcell as Hcell.
  pose proof (cell_penalty_value x_data v_data v_err Hx He
                (Grid.s_best b) (Grid.D_best b)) as Hcp.
  rewrite <- Hcell in Hcp.
  exists i, j. repeat (split; [assumption|]). split.
  - exists r. repeat (split; [assumption|]).
    unfold Grid.cell_penalty in Hcp. rewrite Hr in Hcp. exact Hcp.
  - intros i' j' s D HD' Hs'.
    exists (penalty_value x_data v_data v_err s D).
    pose proof (get2_surface x_data v_data v_err _ _ _ _ _ _ HD' Hs') as Hc'.
    rewrite <- HW in Hc'.
    split; [now apply cell_penalty_value|]. split; [assumption|]. split.
    + now apply (amin_spec _ _ Ha Hnn i' j').
    + intros Heq.
      assert (Hin : In (i', j')
                       (Grid.where_eq (Grid.WRSS_surface g) (Grid.WRSS_best b))).
      { apply where_eq_In. eauto. }
      rewrite Hidx in Hin. destruct Hin as [Hin | []]. now injection Hin.
Qed.

(** ** Evaluating the search on finite data *)

Lemma sum_fin_from (l : list R) (a : R) :
  fold_left fadd (map Fin l) (Fin a) = Fin (fold_left Rplus l a).
Proof.
  revert a. induction l as [|x l IH]; intros a; simpl; [reflexivity|].
  apply IH.
Qed.

Lemma mean_fin (l : list R) : l <> [] -> Np.mean (map Fin l) = Fin (meanR l).
Proof.
  intros Hne. unfold Np.mean, Np.sum. rewrite sum_fin_from, length_map.
  apply fdiv_fin. apply not_0_INR. destruct l; [contradiction | discriminate].
Qed.

Lemma cell_penalty_fin (xs vs es : list R) (s D : R) :
  length xs = length vs -> length es = length vs -> vs <> [] -> D <> 0 ->
  Grid.cell_penalty (map Fin xs) (map Fin vs) (map Fin es) (Fin s) (Fin D)
  = Ok (Fin (cell_penalty_closed xs vs es s D)).
Proof.
  intros Hx He Hne HD. unfold Grid.cell_penalty.
  rewrite v_model_fin by assumption.
  rewrite <- (map_map (fun x => s / PI * atan (x / D)) Fin).
  rewrite sub_fin by (now rewrite length_map). cbn [bind].
  fold (residuals xs vs s D).
  assert (Hlr : length (residuals xs vs s D) = length vs).
  { unfold residuals. rewrite map2_length; [reflexivity|].
    now rewrite length_map. }
  rewrite mean_fin.
  - unfold Np.sub_s. rewrite map_map.
    rewrite <- (map_map (fun a => a - meanR (residuals xs vs s D)) Fin).
    rewrite penalty_fin; [reflexivity|].
    rewrite length_map. congruence.
  - intros Hnil. rewrite Hnil in Hlr. destruct vs; [contradiction | discriminate].
Qed.

Lemma penalty_value_fin (xs vs es : list R) (s D : R) :
  length xs = length vs -> length es = length vs -> vs <> [] -> D <> 0 ->
  penalty_value (map Fin xs) (map Fin vs) (map Fin es) (Fin s) (Fin D)
  = Fin (cell_penalty_closed xs vs es s D).
Proof.
  intros. unfold penalty_value. now rewrite cell_penalty_fin.
Qed.

(** With a single station the shift absorbs the whole residual. *)
Lemma penalty_value_single (x v e s D : R) :
  D <> 0 -> penalty_value [Fin x] [Fin v] [Fin e] (Fin s) (Fin D) = Fin 0.
Proof.
  intros HD.
  change (penalty_value (map Fin [x]) (map Fin [v]) (map Fin [e]) (Fin s) (Fin D)
          = Fin 0).
  rewrite penalty_value_fin by (auto; discriminate).
  f_equal. unfold cell_penalty_closed, residuals, meanR, sumR, penalty_closed.
  simpl. generalize (s / PI * atan (x / D)). intros m. field.
Qed.

(** Without stations every penalty is 0. *)
Lemma penalty_value_empty (s D : float64) : penalty_value [] [] [] s D = Fin 0.
Proof. reflexivity. Qed.

Lemma grid_search_eval (x_data v_data v_err : Np.array)
  (s_min s_max s_step D_min D_max D_step : R) (ns nD : Z) (ss Ds : Np.array) :
  length x_data = length v_data -> length v_err = length v_data ->
  Grid.count s_min s_max s_step = Ok ns -> Grid.linspace s_min s_max ns = Ok ss ->
  Grid.count D_min D_max D_step = Ok nD -> Grid.linspace D_min D_max nD = Ok Ds ->
  Grid.grid_search x_data v_data v_err s_min s_max s_step D_min D_max D_step
  = Ok (Grid.mkGrid ns ss nD Ds
          (fst (Grid.meshgrid ss Ds)) (snd (Grid.meshgrid ss Ds))
          (penalty_surface x_data v_data v_err ss Ds)
          (Z.to_nat nD * Z.to_nat ns)).
Proof.
  intros Hx He Hcs Hss HcD HDs.
  assert (Hns : (0 <= ns)%Z).
  { destruct (Z.ltb_spec ns 0) as [Hneg|]; [|assumption].
    now rewrite linspace_negative in Hss. }
  assert (HnD : (0 <= nD)%Z).
  { destruct (Z.ltb_spec nD 0) as [Hneg|]; [|assumption].
    now rewrite linspace_negative in HDs. }
  destruct (grid_search_ok x_data v_data v_err s_min s_max s_step
              D_min D_max D_step ns nD Hx He Hcs Hns HcD HnD)
    as (ss' & Ds' & Hss' & _ & HDs' & _ & Hg).
  rewrite Hss in Hss'. rewrite HDs in HDs'.
  injection Hss' as <-. injection HDs' as <-. exact Hg.
Qed.

(** The search on one station and the slip rates 1 and 2 at depth 1:
    both cells have penalty 0. *)
Lemma tie_grid :
  Grid.grid_search [Fin 1] [Fin 0] [Fin 1] 1 2 1 1 1 1
  = Ok (Grid.mkGrid 2 [Fin 1; Fin 2] 1 [Fin 1]
          [[Fin 1; Fin 2]] [[Fin 1; Fin 1]] [[Fin 0; Fin 0]] 2).
Proof.
  assert (Hcs : Grid.count 1 2 1 = Ok 2%Z).
  { apply (count_exact_steps 1 2 1 1); cbn [INR]; lra. }
  rewrite (grid_search_eval [Fin 1] [Fin 0] [Fin 1] 1 2 1 1 1 1 2 1
             [Fin 1; Fin 2] [Fin 1] eq_refl eq_refl Hcs (linspace_two 1 2)
             (count_same 1 1 ltac:(lra)) (linspace_one 1 1)).
  unfold penalty_surface. cbn [map Grid.meshgrid fst snd].
  rewrite !penalty_value_single by lra. reflexivity.
Qed.

(** C2, the claim as stated, on one station (x = 1, v = 0, error 1),
    the slip rates 1 and 2 and the single depth 1: both cells have the
    minimal penalty 0, the first of them in row-major order is (s, D) =
    (1, 1), and the search raises ValueError instead of returning it. *)
Lemma C2_tie_counterexample :
  (exists g : Grid.grid,
      Grid.grid_search [Fin 1] [Fin 0] [Fin 1] 1 2 1 1 1 1 = Ok g
      /\ Grid.s_set g = [Fin 1; Fin 2]
      /\ Grid.D_set g = [Fin 1]
      /\ Grid.WRSS_surface g = [[Fin 0; Fin 0]]
      /\ Grid.amin (Grid.WRSS_surface g) = Ok (Fin 0)
      /\ Grid.where_eq (Grid.WRSS_surface g) (Fin 0) = [(0, 0); (0, 1)]%nat)
  /\ Grid.run [Fin 1] [Fin 0] [Fin 1] 1 2 1 1 1 1 = Raise ValueError.
Proof.
  assert (Hmin : Grid.amin [[Fin 0; Fin 0]] = Ok (Fin 0)).
  { unfold Grid.amin. simpl. now rewrite Rltb_false by lra. }
  assert (Hwhere : Grid.where_eq [[Fin 0; Fin 0]] (Fin 0) = [(0, 0); (0, 1)]%nat).
  { unfold Grid.where_eq, Grid.enumerate. simpl.
    now rewrite Reqb_true by reflexivity. }
  split.
  - eexists. split; [exact tie_grid|]. cbn. auto.
  - unfold Grid.run. rewrite tie_grid. cbn [bind].
    rewrite (best_model_tie _ _ _ (Fin 0) [Fin 1; Fin 2]).
    + reflexivity.
    + exact Hmin.
    + cbn [Grid.WRSS_surface Grid.sv]. rewrite Hwhere. reflexivity.
    + discriminate.
Qed.

(** Two stations placed symmetrically about the fault, at depth 1. *)
Lemma two_station_penalty (s : R) :
  cell_penalty_closed [1; -1] [1; -1] [1; 1] s 1
  = 2 * ((1 - s / 4) * (1 - s / 4)).
Proof.
  assert (Ha : atan (1 / 1) = PI / 4).
  { replace (1 / 1) with 1 by field. apply atan_1. }
  assert (Hb : atan (-1 / 1) = - (PI / 4)).
  { replace (-1 / 1) with (Ropp 1) by field. now rewrite atan_opp, atan_1. }
  unfold cell_penalty_closed, residuals, meanR, sumR, penalty_closed.
  simpl. rewrite Ha, Hb. field. apply PI_neq0.
Qed.

Lemma two_station_grid :
  Grid.grid_search [Fin 1; Fin (-1)] [Fin 1; Fin (-1)] [Fin 1; Fin 1] 4 8 4 1 1 1
  = Ok (Grid.mkGrid 2 [Fin 4; Fin 8] 1 [Fin 1]
          [[Fin 4; Fin 8]] [[Fin 1; Fin 1]] [[Fin 0; Fin 2]] 2).
Proof.
  assert (Hcs : Grid.count 4 8 4 = Ok 2%Z).
  { apply (count_exact_steps 4 8 4 1); cbn [INR]; lra. }
  rewrite (grid_search_eval [Fin 1; Fin (-1)] [Fin 1; Fin (-1)] [Fin 1; Fin 1]
             4 8 4 1 1 1 2 1
             [Fin 4; Fin 8] [Fin 1] eq_refl eq_refl Hcs (linspace_two 4 8)
             (count_same 1 1 ltac:(lra)) (linspace_one 1 1)).
  unfold penalty_surface. cbn [map Grid.meshgrid fst snd].
  change [Fin 1; Fin (-1)] with (map Fin [1; -1]).
  change [Fin 1; Fin 1] with (map Fin [1; 1]).
  rewrite !penalty_value_fin by (try reflexivity; try discriminate; lra).
  rewrite !two_station_penalty.
  do 4 f_equal; [f_equal; field | do 2 f_equal; field].
Qed.

Lemma two_station_run :
  exists shift : float64,
    Grid.run [Fin 1; Fin (-1)] [Fin 1; Fin (-1)] [Fin 1; Fin 1] 4 8 4 1 1 1
    = Ok (Grid.mkGrid 2 [Fin 4; Fin 8] 1 [Fin 1]
            [[Fin 4; Fin 8]] [[Fin 1; Fin 1]] [[Fin 0; Fin 2]] 2,
          Grid.mkBest (Fin 0) (Fin 4) (Fin 1) shift).
Proof.
  eexists. unfold Grid.run. rewrite two_station_grid. cbn [bind].
  rewrite (best_model_eval _ _ _ (Fin 0) (Fin 4) (Fin 1) 0 0).
  - reflexivity.
  - reflexivity.
  - unfold Grid.amin. simpl. now rewrite Rltb_false by lra.
  - unfold Grid.where_eq, Grid.enumerate. simpl.
    rewrite Reqb_true by reflexivity. now rewrite Reqb_false by lra.
  - reflexivity.
  - reflexivity.
Qed.

(** The same two stations with the slip rates 0, 4 and 8 at depth 1:
    the middle one fits the data, the other two have penalty 2. *)
Lemma three_rate_grid :
  Grid.grid_search [Fin 1; Fin (-1)] [Fin 1; Fin (-1)] [Fin 1; Fin 1] 0 8 4 1 1 1
  = Ok (Grid.mkGrid 3 [Fin 0; Fin 4; Fin 8] 1 [Fin 1]
          [[Fin 0; Fin 4; Fin 8]] [[Fin 1; Fin 1; Fin 1]]
          [[Fin 2; Fin 0; Fin 2]] 3).
Proof.
  assert (Hcs : Grid.count 0 8 4 = Ok 3%Z).
  { apply (count_exact_steps 0 8 4 2); cbn [INR]; lra. }
  assert (Hls : Grid.linspace 0 8 3 = Ok [Fin 0; Fin 4; Fin 8]).
  { unfold Grid.linspace. simpl.
    do 2 f_equal; [f_equal; lra | f_equal; f_equal; lra]. }
  rewrite (grid_search_eval [Fin 1; Fin (-1)] [Fin 1; Fin (-1)] [Fin 1; Fin 1]
             0 8 4 1 1 1 3 1
             [Fin 0; Fin 4; Fin 8] [Fin 1] eq_refl eq_refl Hcs Hls
             (count_same 1 1 ltac:(lra)) (linspace_one 1 1)).
  unfold penalty_surface. cbn [map Grid.meshgrid fst snd].
  change [Fin 1; Fin (-1)] with (map Fin [1; -1]).
  change [Fin 1; Fin 1] with (map Fin [1; 1]).
  rewrite !penalty_value_fin by (try reflexivity; try discriminate; lra).
  rewrite !two_station_penalty.
  do 4 f_equal; [f_equal; field | f_equal; [f_equal; field|]].
  do 2 f_equal. field.
Qed.

Lemma C2_grid_search_returns_unique_minimum_witness :
  length [Fin 1; Fin (-1)] = length [Fin 1; Fin (-1)]
  /\ length [Fin 1; Fin 1] = length [Fin 1; Fin (-1)]
  /\ exists (g : Grid.grid) (b : Grid.best),
      Grid.grid_search [Fin 1; Fin (-1)] [Fin 1; Fin (-1)] [Fin 1; Fin 1]
        0 8 4 1 1 1 = Ok g
      /\ Grid.s_set g = [Fin 0; Fin 4; Fin 8]
      /\ Grid.WRSS_surface g = [[Fin 2; Fin 0; Fin 2]]
      /\ Grid.run [Fin 1; Fin (-1)] [Fin 1; Fin (-1)] [Fin 1; Fin 1] 0 8 4 1 1 1
         = Ok (g, b)
      /\ Grid.s_best b = Fin 4
      /\ Grid.D_best b = Fin 1
      /\ Grid.WRSS_best b = Fin 0.
Proof.
  split; [reflexivity|]. split; [reflexivity|].
  pose proof three_rate_grid as Hg.
  destruct (proj1 (proj2 (proj2
              (C2_grid_search_returns_unique_minimum
                 [Fin 1; Fin (-1)] [Fin 1; Fin (-1)] [Fin 1; Fin 1]
                 0 8 4 1 1 1 _ eq_refl eq_refl)))
              Hg 0%nat 1%nat (Fin 0))
    as (b & s & D & Hrun & Hs & HD & Hsb & HDb & Hwb & _).
  - reflexivity.
  - discriminate.
  - intros i' j' w' Hget Hne.
    destruct i' as [|i']; [|destruct i'; discriminate].
    destruct j' as [|[|[|j']]]; cbn in Hget.
    + injection Hget as <-. simpl. apply Rltb_true. lra.
    + now contradiction Hne.
    + injection Hget as <-. simpl. apply Rltb_true. lra.
    + destruct j'; discriminate.
  - cbn in Hs, HD. injection Hs as <-. injection HD as <-.
    eexists. exists b. split; [exact Hg|]. cbn. auto 10.
Defined.

(** ** No validation *)

(** C5 (as the code has it): the grid search validates nothing.  A zero
    depth step raises ZeroDivisionError while the grid is set up, before
    any cell is evaluated.  With positive steps and ordered bounds every
    lower depth bound is accepted, zero and negative ones included: the
    first depth tested is D_min and every cell is evaluated.  With an
    empty station set nothing is raised either: every cell is evaluated
    and gets the penalty 0. *)
Theorem C5_grid_search_validates_nothing :
  (forall (x_data v_data v_err : Np.array) (s_min s_max s_step D_min D_max : R),
      0 < s_step -> s_min <= s_max ->
      Grid.grid_search x_data v_data v_err s_min s_max s_step D_min D_max 0
      = Raise ZeroDivisionError)
  /\ (forall (x_data v_data v_err : Np.array)
             (s_min s_max s_step D_min D_max D_step : R),
        length x_data = length v_data -> length v_err = length v_data ->
        0 < s_step -> s_min <= s_max -> 0 < D_step -> D_min <= D_max ->
        exists g : Grid.grid,
          Grid.grid_search x_data v_data v_err
            s_min s_max s_step D_min D_max D_step = Ok g
          /\ nth_error (Grid.D_set g) 0 = Some (Fin D_min)
          /\ (1 <= Grid.evaluations g)%nat
          /\ Grid.evaluations g
             = (length (Grid.D_set g) * length (Grid.s_set g))%nat)
  /\ (forall s_min s_max s_step D_min D_max D_step : R,
        0 < s_step -> s_min <= s_max -> 0 < D_step -> D_min <= D_max ->
        exists g : Grid.grid,
          Grid.grid_search [] [] [] s_min s_max s_step D_min D_max D_step = Ok g
          /\ Grid.WRSS_surface g
             = map (fun _ => map (fun _ => Fin 0) (Grid.s_set g)) (Grid.D_set g)
          /\ (1 <= Grid.evaluations g)%nat).
Proof.
  assert (Hgen : forall (x_data v_data v_err : Np.array)
             (s_min s_max s_step D_min D_max D_step : R),
        length x_data = length v_data -> length v_err = length v_data ->
        0 < s_step -> s_min <= s_max -> 0 < D_step -> D_min <= D_max ->
        exists (ns nD : Z) (ss Ds : Np.array),
          Grid.grid_search x_data v_data v_err
            s_min s_max s_step D_min D_max D_step
          = Ok (Grid.mkGrid ns ss nD Ds
                  (fst (Grid.meshgrid ss Ds)) (snd (Grid.meshgrid ss Ds))
                  (penalty_surface x_data v_data v_err ss Ds)
                  (length Ds * length ss))
          /\ nth_error Ds 0 = Some (Fin D_min)
          /\ (1 <= length Ds * length ss)%nat).
  { intros x_data v_data v_err s_min s_max s_step D_min D_max D_step
           Hx He Hss Hsr HDs HDr.
    destruct (count_pos s_min s_max s_step Hss Hsr) as (ns & Hcs & Hns).
    destruct (count_pos D_min D_max D_step HDs HDr) as (nD & HcD & HnD).
    destruct (grid_search_ok x_data v_data v_err s_min s_max s_step
                D_min D_max D_step ns nD Hx He Hcs ltac:(lia) HcD ltac:(lia))
      as (ss & Ds & Hlss & Hls & HlDs & HlD & Hg).
    exists ns, nD, ss, Ds.
    rewrite Hls, HlD.
    split; [exact Hg|]. split; [now apply (linspace_first D_min D_max nD)|].
    nia. }
  split; [|split].
  - intros x_data v_data v_err s_min s_max s_step D_min D_max Hss Hsr.
    destruct (count_pos s_min s_max s_step Hss Hsr) as (ns & Hcs & Hns).
    destruct (linspace_ok s_min s_max ns ltac:(lia)) as (ss & Hlss & _).
    unfold Grid.grid_search. rewrite Hcs. cbn [bind]. rewrite Hlss. cbn [bind].
    now rewrite count_zero_step.
  - intros x_data v_data v_err s_min s_max s_step D_min D_max D_step
           Hx He Hss Hsr HDs HDr.
    destruct (Hgen x_data v_data v_err s_min s_max s_step D_min D_max D_step
                Hx He Hss Hsr HDs HDr) as (ns & nD & ss & Ds & Hg & Hfirst & Hpos).
    eexists. split; [exact Hg|]. cbn. auto.
  - intros s_min s_max s_step D_min D_max D_step Hss Hsr HDs HDr.
    destruct (Hgen [] [] [] s_min s_max s_step D_min D_max D_step
                eq_refl eq_refl Hss Hsr HDs HDr)
      as (ns & nD & ss & Ds & Hg & Hfirst & Hpos).
    eexists. split; [exact Hg|]. cbn. split; [reflexivity | assumption].
Qed.

Lemma C5_grid_search_validates_nothing_witness :
  length [Fin 1] = length [Fin 0] /\ length [Fin 1] = length [Fin 0]
  /\ 0 < 1 / 2 /\ 10 <= 40 /\ 0 < 1 /\ -1 <= 0
  /\ exists g : Grid.grid,
      Grid.grid_search [Fin 1] [Fin 0] [Fin 1] 10 40 (1 / 2) (-1) 0 1 = Ok g
      /\ nth_error (Grid.D_set g) 0 = Some (Fin (-1))
      /\ (1 <= Grid.evaluations g)%nat
      /\ Grid.evaluations g = (length (Grid.D_set g) * length (Grid.s_set g))%nat.
Proof.
  assert (H1 : length [Fin 1] = length [Fin 0]) by reflexivity.
  assert (H2 : 0 < 1 / 2) by lra.
  assert (H3 : 10 <= 40) by lra.
  assert (H4 : 0 < 1) by lra.
  assert (H5 : -1 <= 0) by lra.
  repeat (split; [assumption|]).
  exact (proj1 (proj2 C5_grid_search_validates_nothing)
           [Fin 1] [Fin 0] [Fin 1] 10 40 (1 / 2) (-1) 0 1 H1 H1 H2 H3 H4 H5).
Defined.

(** C5, the claim as stated.  With D_min = D_max = -1 and a positive
    step the search is not rejected: it evaluates the single cell and
    returns D = -1.  With an empty station set and a one-cell grid it
    returns s = 1, D = 2 and the penalty 0 (the shift being NaN) instead
    of failing. *)
Lemma C5_no_rejection_counterexample :
  (exists (g : Grid.grid) (b : Grid.best),
      Grid.run [Fin 1] [Fin 0] [Fin 1] 1 1 1 (-1) (-1) 1 = Ok (g, b)
      /\ Grid.D_set g = [Fin (-1)]
      /\ Grid.evaluations g = 1%nat
      /\ Grid.s_best b = Fin 1
      /\ Grid.D_best b = Fin (-1)
      /\ Grid.WRSS_best b = Fin 0)
  /\ (exists (g : Grid.grid) (b : Grid.best),
      Grid.run [] [] [] 1 1 1 2 2 1 = Ok (g, b)
      /\ Grid.evaluations g = 1%nat
      /\ Grid.s_best b = Fin 1
      /\ Grid.D_best b = Fin 2
      /\ Grid.WRSS_best b = Fin 0
      /\ Grid.v_shift_best b = NaN).
Proof.
  assert (Hmin : Grid.amin [[Fin 0]] = Ok (Fin 0)) by reflexivity.
  assert (Hwhere : Grid.where_eq [[Fin 0]] (Fin 0) = [(0, 0)]%nat).
  { unfold Grid.where_eq, Grid.enumerate. simpl.
    now rewrite Reqb_true by reflexivity. }
  split.
  - eexists. eexists. split.
    + unfold Grid.run.
      rewrite (grid_search_eval [Fin 1] [Fin 0] [Fin 1] 1 1 1 (-1) (-1) 1 1 1
                 [Fin 1] [Fin (-1)] eq_refl eq_refl
                 (count_same 1 1 ltac:(lra)) (linspace_one 1 1)
                 (count_same (-1) 1 ltac:(lra)) (linspace_one (-1) (-1))).
      unfold penalty_surface. cbn [map Grid.meshgrid fst snd bind].
      rewrite penalty_value_single by lra.
      rewrite (best_model_eval _ _ _ (Fin 0) (Fin 1) (Fin (-1)) 0 0);
        [reflexivity | reflexivity | exact Hmin | exact Hwhere
         | reflexivity | reflexivity].
    + cbn. auto 10.
  - eexists. eexists. split.
    + unfold Grid.run.
      rewrite (grid_search_eval [] [] [] 1 1 1 2 2 1 1 1
                 [Fin 1] [Fin 2] eq_refl eq_refl
                 (count_same 1 1 ltac:(lra)) (linspace_one 1 1)
                 (count_same 2 1 ltac:(lra)) (linspace_one 2 2)).
      unfold penalty_surface. cbn [map Grid.meshgrid fst snd bind].
      rewrite penalty_value_empty.
      rewrite (best_model_eval _ _ _ (Fin 0) (Fin 1) (Fin 2) 0 0);
        [reflexivity | reflexivity | exact Hmin | exact Hwhere
         | reflexivity | reflexivity].
    + cbn. repeat (split; [reflexivity|]).
      unfold Np.mean, Np.sum. simpl. now rewrite Reqb_true by reflexivity.
Qed.

(** * Further properties of the notebook's code *)

(** ** Shape of the forward model *)

Lemma slip_over_pi (s : R) : s / PI * (PI / 2) = s / 2.
Proof. field. apply PI_neq0. Qed.

(** X1: for a positive slip rate and a positive locking depth, every
    prediction lies strictly within half the slip rate of the shift, and
    the prediction grows strictly with the distance. *)
Theorem X1_forward_model_bounded_and_increasing (s D offset : R) :
  0 < s -> 0 < D ->
  (forall x : R, exists v : R,
      v_forward (Fin s) (Fin D) (Fin offset) [Fin x] = [Fin v]
      /\ offset - s / 2 < v < offset + s / 2)
  /\ (forall x1 x2 : R, x1 < x2 ->
        exists v1 v2 : R,
          v_forward (Fin s) (Fin D) (Fin offset) [Fin x1; Fin x2]
          = [Fin v1; Fin v2]
          /\ v1 < v2).
Proof.
  intros Hs HD. assert (HD0 : D <> 0) by lra.
  assert (Hk : 0 < s / PI).
  { apply Rdiv_lt_0_compat; [assumption | apply PI_RGT_0]. }
  split.
  - intros x. exists (arctan_profile s D offset x). split.
    + apply (v_forward_fin s D offset [x] HD0).
    + unfold arctan_profile. pose proof (atan_bound (x / D)) as [Hlo Hhi].
      pose proof (slip_over_pi s) as Hsp.
      assert (s / PI * atan (x / D) < s / PI * (PI / 2))
        by (apply Rmult_lt_compat_l; assumption).
      assert (s / PI * - (PI / 2) < s / PI * atan (x / D))
        by (apply Rmult_lt_compat_l; lra).
      lra.
  - intros x1 x2 Hx.
    exists (arctan_profile s D offset x1), (arctan_profile s D offset x2).
    split.
    + apply (v_forward_fin s D offset [x1; x2] HD0).
    + unfold arctan_profile.
      assert (Hq : x1 / D < x2 / D).
      { apply Rmult_lt_compat_r; [now apply Rinv_0_lt_compat | assumption]. }
      apply atan_increasing in Hq.
      assert (s / PI * atan (x1 / D) < s / PI * atan (x2 / D))
        by (apply Rmult_lt_compat_l; assumption).
      lra.
Qed.

Lemma X1_forward_model_bounded_and_increasing_witness :
  0 < 20 /\ 0 < 15
  /\ exists v : R,
      v_forward (Fin 20) (Fin 15) (Fin (-10)) [Fin 30] = [Fin v]
      /\ -10 - 20 / 2 < v < -10 + 20 / 2.
Proof.
  assert (H1 : 0 < 20) by lra. assert (H2 : 0 < 15) by lra.
  split; [exact H1|]. split; [exact H2|].
  exact (proj1 (X1_forward_model_bounded_and_increasing 20 15 (-10) H1 H2) 30).
Defined.

(** X2: the forward model does not depend on the length unit nor on the
    velocity unit: scaling the distances and the locking depth by the
    same non-zero factor leaves the predictions unchanged, and scaling
    the slip rate and the shift by a factor scales every prediction by
    that factor. *)
Theorem X2_forward_model_unit_agnostic (s D offset k c : R) (xs : list R) :
  D <> 0 -> k <> 0 ->
  v_forward (Fin s) (Fin (k * D)) (Fin offset) (map Fin (map (Rmult k) xs))
    = v_forward (Fin s) (Fin D) (Fin offset) (map Fin xs)
  /\ v_forward (Fin (c * s)) (Fin D) (Fin (c * offset)) (map Fin xs)
    = map (fmul (Fin c)) (v_forward (Fin s) (Fin D) (Fin offset) (map Fin xs)).
Proof.
  intros HD Hk. split.
  - rewrite !v_forward_fin by (try assumption; nra).
    rewrite map_map. apply map_ext. intros x. unfold arctan_profile.
    replace (k * x / (k * D)) with (x / D) by (field; auto). reflexivity.
  - rewrite !v_forward_fin by assumption. rewrite map_map.
    apply map_ext. intros x. unfold arctan_profile. simpl. f_equal.
    field. apply PI_neq0.
Qed.

Lemma X2_forward_model_unit_agnostic_witness :
  15 <> 0 /\ 1000 <> 0
  /\ v_forward (Fin 20) (Fin (1000 * 15)) (Fin (-10))
       (map Fin (map (Rmult 1000) [-30; 0; 30]))
     = v_forward (Fin 20) (Fin 15) (Fin (-10)) (map Fin [-30; 0; 30]).
Proof.
  assert (H1 : 15 <> 0) by lra. assert (H2 : 1000 <> 0) by lra.
  split; [exact H1|]. split; [exact H2|].
  exact (proj1 (X2_forward_model_unit_agnostic 20 15 (-10) 1000 1
                  [-30; 0; 30] H1 H2)).
Defined.

(** X3: a zero locking depth raises nothing.  The prediction is the
    shift plus half the slip rate at every positive distance, the shift
    minus half the slip rate at every negative distance, and NaN at
    distance 0. *)
Theorem X3_forward_model_zero_depth (s offset x : R) :
  (0 < x -> v_forward (Fin s) (Fin 0) (Fin offset) [Fin x]
            = [Fin (s / 2 + offset)])
  /\ (x < 0 -> v_forward (Fin s) (Fin 0) (Fin offset) [Fin x]
               = [Fin (- (s / 2) + offset)])
  /\ v_forward (Fin s) (Fin 0) (Fin offset) [Fin 0] = [NaN].
Proof.
  unfold v_forward, v_model, Np.add_s, Np.mul_s, Np.arctan, Np.div_s.
  cbn [map]. rewrite (fdiv_fin s PI) by apply PI_neq0.
  split; [|split].
  - intros Hx. cbn [fdiv]. rewrite Reqb_true by reflexivity.
    rewrite Reqb_false by lra. rewrite Rltb_true by lra.
    cbn [fatan fmul fadd]. now rewrite slip_over_pi.
  - intros Hx. cbn [fdiv]. rewrite Reqb_true by reflexivity.
    rewrite Reqb_false by lra. rewrite Rltb_false by lra.
    cbn [fatan fmul fadd]. do 2 f_equal.
    replace (s / PI * - (PI / 2)) with (- (s / PI * (PI / 2))) by ring.
    now rewrite slip_over_pi.
  - cbn [fdiv]. now rewrite !Reqb_true by reflexivity.
Qed.

Lemma X3_forward_model_zero_depth_witness :
  0 < 5 /\ v_forward (Fin 20) (Fin 0) (Fin (-10)) [Fin 5] = [Fin (20 / 2 + -10)].
Proof.
  assert (H : 0 < 5) by lra. split; [exact H|].
  exact (proj1 (X3_forward_model_zero_depth 20 (-10) 5) H).
Defined.

(** ** The synthetic profile and the coseismic model *)

Lemma linspace_nth (start stop : R) (m i : nat) :
  (i <= S m)%nat ->
  exists l : Np.array,
    Grid.linspace start stop (Z.of_nat (S (S m))) = Ok l
    /\ length l = S (S m)
    /\ nth_error l i
       = Some (Fin (if Nat.eqb i (S m) then stop
                    else INR i * ((stop - start) / INR (S m)) + start)).
Proof.
  intros Hi. unfold Grid.linspace.
  destruct (Z.ltb_spec (Z.of_nat (S (S m))) 0) as [Hneg|_]; [lia|].
  rewrite Nat2Z.id. eexists. split; [reflexivity|].
  split; [now rewrite length_map, length_seq|].
  rewrite nth_error_map, nth_error_seq.
  destruct (Nat.ltb_spec i (S (S m))) as [_|Hge]; [|lia].
  cbn [option_map]. replace (S (S m) - 1)%nat with (S m) by lia.
  reflexivity.
Qed.

(** X4: the synthetic profile of cells 5, 8 and 46.  A zero spacing
    raises ZeroDivisionError.  Otherwise its size follows
    hp = round(half_length/point_spacing): a negative hp makes
    np.linspace refuse the number of samples (ValueError); with hp = 0
    the profile is the single sample -half_length; with a positive hp it
    has 2 hp + 1 samples, the first being -half_length and the last
    half_length. *)
Theorem X4_profile_samples (half_length point_spacing : R) :
  Profile.x half_length 0 = Raise ZeroDivisionError
  /\ forall hp : Z,
      Profile.half_points half_length point_spacing = Ok hp ->
      ((hp < 0)%Z ->
         Profile.x half_length point_spacing = Raise ValueError)
      /\ (hp = 0%Z ->
          Profile.x half_length point_spacing = Ok [Fin (- half_length)])
      /\ ((0 < hp)%Z ->
          exists l : Np.array,
            Profile.x half_length point_spacing = Ok l
            /\ length l = Z.to_nat (2 * hp + 1)
            /\ nth_error l 0 = Some (Fin (- half_length))
            /\ nth_error l (Z.to_nat (2 * hp)) = Some (Fin half_length)).
Proof.
  split.
  { unfold Profile.x, Profile.half_points. now rewrite py_div_zero. }
  intros hp Hhp. unfold Profile.x. rewrite Hhp. cbn [bind].
  split; [|split].
  - intros Hneg. apply linspace_negative. lia.
  - intros ->. apply linspace_one.
  - intros Hpos.
    destruct (linspace_ok (- half_length) half_length (1 + 2 * hp) ltac:(lia))
      as (l & Hl & Hlen).
    destruct (linspace_values (- half_length) half_length (1 + 2 * hp) l
                ltac:(lia) Hl) as (Hfirst & Hlast & _).
    exists l. split; [exact Hl|].
    split; [rewrite Hlen; f_equal; lia|]. split; [exact Hfirst|].
    replace (Z.to_nat (2 * hp)) with (length l - 1)%nat by lia.
    apply Hlast. lia.
Qed.

Lemma half_points_quarter_km : Profile.half_points 50 (1 / 4) = Ok 200%Z.
Proof.
  unfold Profile.half_points. rewrite py_div_ok by lra. cbn [bind]. f_equal.
  replace (50 / (1 / 4)) with (IZR 200) by lra.
  rewrite fl_IZR by (simpl; lia). apply py_round_IZR.
Qed.

Lemma X4_profile_samples_witness :
  Profile.half_points 50 (1 / 4) = Ok 200%Z /\ (0 < 200)%Z
  /\ exists l : Np.array,
      Profile.x 50 (1 / 4) = Ok l
      /\ length l = 401%nat
      /\ nth_error l 0 = Some (Fin (- 50))
      /\ nth_error l 400 = Some (Fin 50).
Proof.
  assert (Hpos : (0 < 200)%Z) by lia.
  split; [exact half_points_quarter_km|]. split; [exact Hpos|].
  exact (proj2 (proj2 (proj2 (X4_profile_samples 50 (1 / 4)) 200%Z
                         half_points_quarter_km)) Hpos).
Defined.

Lemma u_at (s d x : R) :
  x <> 0 -> Profile.u (Fin s) (Fin d) [Fin x] = [Fin (s / PI * atan (d / x))].
Proof.
  intros Hx. unfold Profile.u, Np.mul_s, Np.arctan, Profile.rdiv_s. cbn [map].
  rewrite (fdiv_fin s PI) by apply PI_neq0. now rewrite fdiv_fin by assumption.
Qed.

Lemma u_at_zero (s d : R) :
  0 < d -> Profile.u (Fin s) (Fin d) [Fin 0] = [Fin (s / 2)].
Proof.
  intros Hd. unfold Profile.u, Np.mul_s, Np.arctan, Profile.rdiv_s. cbn [map].
  rewrite (fdiv_fin s PI) by apply PI_neq0. cbn [fdiv].
  rewrite Reqb_true by reflexivity. rewrite Reqb_false by lra.
  rewrite Rltb_true by assumption. cbn [fatan fmul].
  now rewrite slip_over_pi.
Qed.

(** X5: the coseismic model of cell 8, for a positive depth of slip d.
    On the fault trace (x = 0) the division by zero raises nothing and
    the displacement is half the slip; away from the trace the
    displacement is odd in x; and on the positive side the coseismic
    displacement and the interseismic velocity profile of the same
    amplitude and depth add up to half the slip.  The displacement
    profile of cell 8 is computed without an exception wherever the
    samples fall, one value per sample. *)
Theorem X5_coseismic_model (s d : R) :
  0 < d ->
  Profile.u (Fin s) (Fin d) [Fin 0] = [Fin (s / 2)]
  /\ (forall x : R, x <> 0 ->
        exists a : R,
          Profile.u (Fin s) (Fin d) [Fin x] = [Fin a]
          /\ Profile.u (Fin s) (Fin d) [Fin (- x)] = [Fin (- a)])
  /\ (forall x : R, 0 < x ->
        exists a b : R,
          Profile.u (Fin s) (Fin d) [Fin x] = [Fin a]
          /\ v_model (Fin s) (Fin d) [Fin x] = [Fin b]
          /\ a + b = s / 2)
  /\ (forall (half_length point_spacing : R) (hp : Z),
        Profile.half_points half_length point_spacing = Ok hp -> (0 <= hp)%Z ->
        exists l : Np.array,
          Profile.coseismic s d half_length point_spacing = Ok l
          /\ length l = Z.to_nat (2 * hp + 1)).
Proof.
  intros Hd. split; [now apply u_at_zero|]. split; [|split].
  - intros x Hx. exists (s / PI * atan (d / x)).
    split; [now apply u_at|].
    rewrite u_at by lra. do 2 f_equal.
    replace (d / - x) with (- (d / x)) by (field; assumption).
    rewrite atan_opp. ring.
  - intros x Hx. exists (s / PI * atan (d / x)), (s / PI * atan (x / d)).
    split; [apply u_at; lra|]. split.
    + apply (v_model_fin s d [x]). lra.
    + replace (d / x) with (/ (x / d)) by (field; lra).
      rewrite atan_inv by (apply Rdiv_lt_0_compat; assumption).
      field. apply PI_neq0.
  - intros half_length point_spacing hp Hhp Hpos.
    unfold Profile.coseismic, Profile.x. rewrite Hhp. cbn [bind].
    destruct (linspace_ok (- half_length) half_length (1 + 2 * hp) ltac:(lia))
      as (l & Hl & Hlen).
    rewrite Hl. cbn [bind]. eexists. split; [reflexivity|].
    unfold Profile.u, Np.mul_s, Np.arctan, Profile.rdiv_s.
    rewrite !length_map, Hlen. f_equal. lia.
Qed.

Lemma X5_coseismic_model_witness :
  0 < 10
  /\ Profile.u (Fin 10) (Fin 10) [Fin 0] = [Fin (10 / 2)].
Proof.
  assert (H : 0 < 10) by lra. split; [exact H|].
  exact (proj1 (X5_coseismic_model 10 10 H)).
Defined.

(** ** More on the penalty *)

Lemma penalty_closed_nil_r (r : list R) : penalty_closed r [] = 0.
Proof. destruct r; reflexivity. Qed.

Lemma penalty_closed_scale (k : R) (r sigma : list R) :
  penalty_closed r (map (Rmult k) sigma) = k * k * penalty_closed r sigma.
Proof.
  revert sigma. induction r as [|x r IH]; intros [|sg sigma];
    try (unfold penalty_closed; simpl; ring).
  cbn [map]. rewrite !penalty_closed_cons, IH. ring.
Qed.

Lemma penalty_closed_opp (r sigma : list R) :
  penalty_closed (map Ropp r) sigma = penalty_closed r sigma.
Proof.
  revert sigma. induction r as [|x r IH]; intros [|sg sigma];
    try (unfold penalty_closed; simpl; ring).
  cbn [map]. rewrite !penalty_closed_cons, IH. ring.
Qed.

Lemma map2_minus_swap (a b : list R) :
  Np.map2 Rminus b a = map Ropp (Np.map2 Rminus a b).
Proof.
  revert b. induction a as [|x a IH]; intros [|y b]; simpl; try reflexivity.
  rewrite IH. f_equal. ring.
Qed.

(** X6: on finite arrays of equal length the penalty is symmetric in
    the observed and the modeled velocities, and multiplying every error
    by a factor k multiplies the penalty by k squared. *)
Theorem X6_WRSS_symmetric_and_error_scaling
  (v_obs v_mod sigma : list R) (k : R) :
  length v_mod = length v_obs -> length sigma = length v_obs ->
  WRSS (map Fin v_mod) (map Fin v_obs) (map Fin sigma)
    = WRSS (map Fin v_obs) (map Fin v_mod) (map Fin sigma)
  /\ exists w : R,
      WRSS (map Fin v_obs) (map Fin v_mod) (map Fin sigma) = Ok (Fin w)
      /\ WRSS (map Fin v_obs) (map Fin v_mod) (map Fin (map (Rmult k) sigma))
         = Ok (Fin (k * k * w)).
Proof.
  intros Hm Hs. split.
  - rewrite !WRSS_fin by congruence. do 2 f_equal.
    now rewrite map2_minus_swap, penalty_closed_opp.
  - eexists. split; [now apply WRSS_fin|].
    rewrite WRSS_fin by (try assumption; now rewrite length_map).
    now rewrite penalty_closed_scale.
Qed.

Lemma X6_WRSS_symmetric_and_error_scaling_witness :
  length [3; 5] = length [1; 5] /\ length [2; 1] = length [1; 5]
  /\ WRSS (map Fin [3; 5]) (map Fin [1; 5]) (map Fin [2; 1])
     = WRSS (map Fin [1; 5]) (map Fin [3; 5]) (map Fin [2; 1]).
Proof.
  split; [reflexivity|]. split; [reflexivity|].
  exact (proj1 (X6_WRSS_symmetric_and_error_scaling [1; 5] [3; 5] [2; 1] 3
                  eq_refl eq_refl)).
Defined.

(** X7: the shapes the penalty accepts.  With the observed and modeled
    arrays of equal length the penalty is computed exactly when the error
    array has that length too, and raises ValueError otherwise; observed
    and modeled arrays of different lengths, neither of length 1, raise
    ValueError; and no other exception is ever raised. *)
Theorem X7_WRSS_shape_errors (v_data v_fwd v_err : Np.array) :
  (length v_data = length v_fwd -> length v_err = length v_data ->
   exists w : float64, WRSS v_data v_fwd v_err = Ok w)
  /\ (length v_data = length v_fwd -> length v_err <> length v_data ->
      WRSS v_data v_fwd v_err = Raise ValueError)
  /\ (length v_data <> length v_fwd ->
      length v_data <> 1%nat -> length v_fwd <> 1%nat ->
      WRSS v_data v_fwd v_err = Raise ValueError)
  /\ (forall e : exn, WRSS v_data v_fwd v_err = Raise e -> e = ValueError).
Proof.
  split; [|split; [|split]].
  - intros Hf He. unfold WRSS. rewrite sub_same_length by assumption.
    cbn [bind]. apply penalty_total. rewrite map2_length; congruence.
  - intros Hf He. unfold WRSS. rewrite sub_same_length by assumption.
    cbn [bind]. unfold penalty, Np.matmul_vm.
    rewrite diag_length. unfold Np.pow2. rewrite length_map.
    rewrite map2_length by assumption.
    destruct (Nat.eqb_spec (length v_data) (length v_err)) as [Heq|_];
      [congruence | reflexivity].
  - intros Hne H1 H2. unfold WRSS, Np.sub, Np.broadcast2.
    destruct (Nat.eqb_spec (length v_data) (length v_fwd)) as [Heq|_];
      [contradiction|].
    destruct v_data as [|a [|a' v_data]], v_fwd as [|b [|b' v_fwd]];
      simpl in *; try reflexivity; contradiction.
  - intros e. unfold WRSS, Np.sub, Np.broadcast2, penalty, Np.matmul_vm,
      Np.matmul_vv.
    destruct (Nat.eqb (length v_data) (length v_fwd)).
    + cbn [bind].
      destruct (Nat.eqb _ (length (Np.diag (Np.pow2 v_err)))); cbn [bind];
        [|congruence].
      destruct (Nat.eqb _ _); congruence.
    + destruct v_data as [|a [|a' v_data]], v_fwd as [|b [|b' v_fwd]];
        cbn [bind]; try congruence;
        (destruct (Nat.eqb _ (length (Np.diag (Np.pow2 v_err)))); cbn [bind];
         [|congruence]; destruct (Nat.eqb _ _); congruence).
Qed.

Lemma X7_WRSS_shape_errors_witness :
  length [Fin 1; Fin 5] = length [Fin 3; Fin 5]
  /\ length [Fin 2] <> length [Fin 1; Fin 5]
  /\ WRSS [Fin 1; Fin 5] [Fin 3; Fin 5] [Fin 2] = Raise ValueError.
Proof.
  assert (H1 : length [Fin 1; Fin 5] = length [Fin 3; Fin 5]) by reflexivity.
  assert (H2 : length [Fin 2] <> length [Fin 1; Fin 5]) by discriminate.
  split; [exact H1|]. split; [exact H2|].
  exact (proj1 (proj2 (X7_WRSS_shape_errors [Fin 1; Fin 5] [Fin 3; Fin 5] [Fin 2]))
           H1 H2).
Defined.

(** ** The shift taken as the mean residual *)

Lemma fold_plus_from (l : list R) (a : R) :
  fold_left Rplus l a = a + fold_left Rplus l 0.
Proof.
  revert a. induction l as [|x l IH]; intros a; simpl; [ring|].
  rewrite (IH (a + x)), (IH (0 + x)). ring.
Qed.

Lemma sumR_cons (x : R) (l : list R) : sumR (x :: l) = x + sumR l.
Proof. unfold sumR. simpl. rewrite fold_plus_from. ring. Qed.

Lemma sumR_shift (c : R) (l : list R) :
  sumR (map (Rplus c) l) = sumR l + INR (length l) * c.
Proof.
  induction l as [|x l IH]; [unfold sumR; simpl; ring|].
  cbn [map]. rewrite !sumR_cons, IH. cbn [length]. rewrite S_INR. ring.
Qed.

Lemma meanR_shift (c : R) (l : list R) :
  l <> [] -> meanR (map (Rplus c) l) = meanR l + c.
Proof.
  intros Hne. unfold meanR. rewrite sumR_shift, length_map.
  field. apply not_0_INR. destruct l; [contradiction | discriminate].
Qed.

Lemma residuals_shift (c : R) (xs vs : list R) (s D : R) :
  residuals xs (map (Rplus c) vs) s D = map (Rplus c) (residuals xs vs s D).
Proof.
  unfold residuals. generalize (map (fun x => s / PI * atan (x / D)) xs).
  intros ms. revert ms. induction vs as [|v vs IH]; intros [|m ms]; simpl;
    try reflexivity.
  rewrite IH. f_equal. ring.
Qed.

Lemma residuals_length (xs vs : list R) (s D : R) :
  length xs = length vs -> length (residuals xs vs s D) = length vs.
Proof.
  intros H. unfold residuals. rewrite map2_length; [reflexivity|].
  now rewrite length_map.
Qed.

(** X8: the penalty of a grid cell does not see a constant added to all
    the observed velocities (a change of reference frame): on finite,
    non-empty data the cell penalty of the shifted observations is the
    cell penalty of the original ones. *)
Theorem X8_cell_penalty_ignores_constant_velocity
  (xs vs es : list R) (s D c : R) :
  length xs = length vs -> length es = length vs -> vs <> [] -> D <> 0 ->
  Grid.cell_penalty (map Fin xs) (map Fin (map (Rplus c) vs)) (map Fin es)
                    (Fin s) (Fin D)
  = Grid.cell_penalty (map Fin xs) (map Fin vs) (map Fin es) (Fin s) (Fin D).
Proof.
  intros Hx He Hne HD.
  rewrite !cell_penalty_fin;
    try assumption; try (now rewrite length_map);
    try (destruct vs; [contradiction | discriminate]).
  do 2 f_equal. unfold cell_penalty_closed.
  rewrite residuals_shift, meanR_shift.
  - f_equal. rewrite map_map. apply map_ext. intros a. ring.
  - intros Hnil.
    pose proof (residuals_length xs vs s D Hx) as Hl. rewrite Hnil in Hl.
    destruct vs; [contradiction | discriminate].
Qed.

Lemma X8_cell_penalty_ignores_constant_velocity_witness :
  length [-20; 5; 30] = length [-29; -24; -19]
  /\ length [1; 2; 1] = length [-29; -24; -19]
  /\ [-29; -24; -19] <> [] /\ 15 <> 0
  /\ Grid.cell_penalty (map Fin [-20; 5; 30])
       (map Fin (map (Rplus 25) [-29; -24; -19])) (map Fin [1; 2; 1])
       (Fin 20) (Fin 15)
     = Grid.cell_penalty (map Fin [-20; 5; 30]) (map Fin [-29; -24; -19])
         (map Fin [1; 2; 1]) (Fin 20) (Fin 15).
Proof.
  assert (H1 : length [-20; 5; 30] = length [-29; -24; -19]) by reflexivity.
  assert (H2 : length [1; 2; 1] = length [-29; -24; -19]) by reflexivity.
  assert (H3 : [-29; -24; -19] <> []) by discriminate.
  assert (H4 : 15 <> 0) by lra.
  repeat (split; [assumption|]).
  exact (X8_cell_penalty_ignores_constant_velocity
           [-20; 5; 30] [-29; -24; -19] [1; 2; 1] 20 15 25 H1 H2 H3 H4).
Defined.

Lemma shifted_model_residuals (xs vs : list R) (s D c : R) :
  Np.map2 Rminus vs (map (fun x => arctan_profile s D c x) xs)
  = map (fun a => a - c) (residuals xs vs s D).
Proof.
  unfold residuals, arctan_profile. revert xs.
  induction vs as [|v vs IH]; intros [|x xs]; simpl; try reflexivity.
  rewrite IH. f_equal. ring.
Qed.

Lemma WRSS_shifted_model (xs vs es : list R) (s D c : R) :
  length xs = length vs -> length es = length vs -> D <> 0 ->
  WRSS (map Fin vs) (v_forward (Fin s) (Fin D) (Fin c) (map Fin xs)) (map Fin es)
  = Ok (Fin (penalty_closed (map (fun a => a - c) (residuals xs vs s D)) es)).
Proof.
  intros Hx He HD. rewrite v_forward_fin by assumption.
  rewrite <- (map_map (fun x => arctan_profile s D c x) Fin).
  rewrite WRSS_fin by (try assumption; now rewrite length_map).
  now rewrite shifted_model_residuals.
Qed.

Lemma cell_penalty_as_WRSS (xs vs es : list R) (s D : R) :
  length xs = length vs -> length es = length vs -> vs <> [] -> D <> 0 ->
  Np.sub (map Fin vs) (v_model (Fin s) (Fin D) (map Fin xs))
    = Ok (map Fin (residuals xs vs s D))
  /\ Grid.cell_penalty (map Fin xs) (map Fin vs) (map Fin es) (Fin s) (Fin D)
     = WRSS (map Fin vs)
            (v_forward (Fin s) (Fin D) (Np.mean (map Fin (residuals xs vs s D)))
                       (map Fin xs))
            (map Fin es).
Proof.
  intros Hx He Hne HD. split.
  - rewrite v_model_fin by assumption.
    rewrite <- (map_map (fun x => s / PI * atan (x / D)) Fin).
    apply sub_fin. now rewrite length_map.
  - rewrite mean_fin.
    + rewrite WRSS_shifted_model by assumption.
      now rewrite cell_penalty_fin.
    + intros Hnil.
      pose proof (residuals_length xs vs s D Hx) as Hl. rewrite Hnil in Hl.
      destruct vs; [contradiction | discriminate].
Qed.

(** X9: the penalty the grid search stores for (s, D) is the penalty of
    the trial-and-error cells for the same (s, D) with the shift set to
    the mean residual of the unshifted model. *)
Theorem X9_cell_penalty_is_WRSS_at_mean_shift
  (xs vs es : list R) (s D : R) :
  length xs = length vs -> length es = length vs -> vs <> [] -> D <> 0 ->
  exists r : Np.array,
    Np.sub (map Fin vs) (v_model (Fin s) (Fin D) (map Fin xs)) = Ok r
    /\ Grid.cell_penalty (map Fin xs) (map Fin vs) (map Fin es) (Fin s) (Fin D)
       = WRSS (map Fin vs)
              (v_forward (Fin s) (Fin D) (Np.mean r) (map Fin xs))
              (map Fin es).
Proof.
  intros Hx He Hne HD.
  exists (map Fin (residuals xs vs s D)).
  now apply cell_penalty_as_WRSS.
Qed.

Lemma X9_cell_penalty_is_WRSS_at_mean_shift_witness :
  length [-20; 5; 30] = length [-29; -24; -19]
  /\ length [1; 2; 1] = length [-29; -24; -19]
  /\ [-29; -24; -19] <> [] /\ 15 <> 0
  /\ exists r : Np.array,
      Np.sub (map Fin [-29; -24; -19])
             (v_model (Fin 20) (Fin 15) (map Fin [-20; 5; 30])) = Ok r
      /\ Grid.cell_penalty (map Fin [-20; 5; 30]) (map Fin [-29; -24; -19])
           (map Fin [1; 2; 1]) (Fin 20) (Fin 15)
         = WRSS (map Fin [-29; -24; -19])
                (v_forward (Fin 20) (Fin 15) (Np.mean r) (map Fin [-20; 5; 30]))
                (map Fin [1; 2; 1]).
Proof.
  assert (H1 : length [-20; 5; 30] = length [-29; -24; -19]) by reflexivity.
  assert (H2 : length [1; 2; 1] = length [-29; -24; -19]) by reflexivity.
  assert (H3 : [-29; -24; -19] <> []) by discriminate.
  assert (H4 : 15 <> 0) by lra.
  repeat (split; [assumption|]).
  exact (X9_cell_penalty_is_WRSS_at_mean_shift
           [-20; 5; 30] [-29; -24; -19] [1; 2; 1] 20 15 H1 H2 H3 H4).
Defined.

Lemma penalty_shift_difference (r : list R) (sg c m : R) :
  penalty_closed (map (fun a => a - c) r) (repeat sg (length r))
  - penalty_closed (map (fun a => a - m) r) (repeat sg (length r))
  = sg * sg * ((c - m) * (INR (length r) * (c + m) - 2 * sumR r)).
Proof.
  induction r as [|x r IH].
  - unfold penalty_closed, sumR. simpl. ring.
  - cbn [map length repeat]. rewrite !penalty_closed_cons, sumR_cons, S_INR.
    replace ((x - c) * (sg * sg) * (x - c)
             + penalty_closed (map (fun a => a - c) r) (repeat sg (length r))
             - ((x - m) * (sg * sg) * (x - m)
                + penalty_closed (map (fun a => a - m) r) (repeat sg (length r))))
      with ((x - c) * (sg * sg) * (x - c) - (x - m) * (sg * sg) * (x - m)
            + (penalty_closed (map (fun a => a - c) r) (repeat sg (length r))
               - penalty_closed (map (fun a => a - m) r) (repeat sg (length r))))
      by ring.
    rewrite IH. ring.
Qed.

(** X10: when all stations have the same error, the shift the grid
    search uses (the mean residual) is the best possible one: for the
    same (s, D), no shift chosen by trial and error gives a smaller
    penalty than the cell penalty. *)
Theorem X10_mean_shift_optimal_for_equal_errors
  (xs vs : list R) (sg s D c : R) :
  length xs = length vs -> vs <> [] -> D <> 0 ->
  exists w w' : R,
    Grid.cell_penalty (map Fin xs) (map Fin vs)
                      (map Fin (repeat sg (length vs))) (Fin s) (Fin D)
    = Ok (Fin w)
    /\ WRSS (map Fin vs) (v_forward (Fin s) (Fin D) (Fin c) (map Fin xs))
            (map Fin (repeat sg (length vs)))
       = Ok (Fin w')
    /\ w <= w'.
Proof.
  intros Hx Hne HD.
  assert (He : length (repeat sg (length vs)) = length vs)
    by apply repeat_length.
  eexists. eexists.
  split; [now apply cell_penalty_fin|].
  split; [now apply WRSS_shifted_model|].
  unfold cell_penalty_closed.
  pose proof (residuals_length xs vs s D Hx) as Hl.
  set (r := residuals xs vs s D) in *.
  rewrite <- Hl.
  pose proof (penalty_shift_difference r sg c (meanR r)) as Hd.
  assert (Hn : INR (length r) <> 0).
  { apply not_0_INR. rewrite Hl. destruct vs; [contradiction | discriminate]. }
  assert (Hs : sumR r = INR (length r) * meanR r).
  { unfold meanR. field. assumption. }
  rewrite Hs in Hd.
  assert (Hpos : 0 <= sg * sg * (INR (length r) * ((c - meanR r) * (c - meanR r)))).
  { apply Rmult_le_pos; [apply Rle_0_sqr|].
    apply Rmult_le_pos; [apply pos_INR | apply Rle_0_sqr]. }
  replace (sg * sg * ((c - meanR r) * (INR (length r) * (c + meanR r)
                                        - 2 * (INR (length r) * meanR r))))
    with (sg * sg * (INR (length r) * ((c - meanR r) * (c - meanR r))))
    in Hd by ring.
  lra.
Qed.

Lemma X10_mean_shift_optimal_for_equal_errors_witness :
  length [-20; 5; 30] = length [-29; -24; -19]
  /\ [-29; -24; -19] <> [] /\ 15 <> 0
  /\ exists w w' : R,
      Grid.cell_penalty (map Fin [-20; 5; 30]) (map Fin [-29; -24; -19])
        (map Fin (repeat (1 / 2) (length [-29; -24; -19]))) (Fin 20) (Fin 15)
      = Ok (Fin w)
      /\ WRSS (map Fin [-29; -24; -19])
              (v_forward (Fin 20) (Fin 15) (Fin (-25)) (map Fin [-20; 5; 30]))
              (map Fin (repeat (1 / 2) (length [-29; -24; -19])))
         = Ok (Fin w')
      /\ w <= w'.
Proof.
  assert (H1 : length [-20; 5; 30] = length [-29; -24; -19]) by reflexivity.
  assert (H3 : [-29; -24; -19] <> []) by discriminate.
  assert (H4 : 15 <> 0) by lra.
  repeat (split; [assumption|]).
  exact (X10_mean_shift_optimal_for_equal_errors
           [-20; 5; 30] [-29; -24; -19] (1 / 2) 20 15 (-25) H1 H3 H4).
Defined.

(** ** The values of the grid *)

(** X11: when the range is a whole number k of steps, from 1 to 2^48
    of them, the values tested are the k+1 values lo, lo + step, ...,
    lo + k*step = hi. *)
Theorem X11_grid_values_when_step_divides_range (lo hi step : R) (k : nat) :
  0 < step -> INR (S k) <= 2 ^ 48 -> hi - lo = INR (S k) * step ->
  Grid.count lo hi step = Ok (Z.of_nat (S (S k)))
  /\ exists l : Np.array,
      Grid.linspace lo hi (Z.of_nat (S (S k))) = Ok l
      /\ length l = S (S k)
      /\ nth_error l (S k) = Some (Fin hi)
      /\ forall i : nat, (i <= S k)%nat ->
           nth_error l i = Some (Fin (lo + INR i * step)).
Proof.
  intros Hs Hb Hk. split; [now apply count_exact_steps|].
  destruct (linspace_nth lo hi k 0 ltac:(lia)) as (l & Hl & Hlen & _).
  assert (HN : INR (S k) <> 0) by (apply not_0_INR; discriminate).
  assert (Hnth : forall i : nat, (i <= S k)%nat ->
             nth_error l i = Some (Fin (lo + INR i * step))).
  { intros i Hi.
    destruct (linspace_nth lo hi k i Hi) as (l' & Hl' & _ & Hnth).
    rewrite Hl in Hl'. injection Hl' as <-. rewrite Hnth.
    destruct (Nat.eqb_spec i (S k)) as [-> | _]; do 2 f_equal.
    - lra.
    - rewrite Hk. field. assumption. }
  exists l. split; [exact Hl|]. split; [exact Hlen|]. split; [|exact Hnth].
  rewrite Hnth by lia. do 2 f_equal. lra.
Qed.

Lemma X11_grid_values_when_step_divides_range_witness :
  0 < 1 / 2 /\ INR (S 59) <= 2 ^ 48 /\ 40 - 10 = INR (S 59) * (1 / 2)
  /\ Grid.count 10 40 (1 / 2) = Ok (Z.of_nat (S (S 59))).
Proof.
  assert (H1 : 0 < 1 / 2) by lra.
  assert (H60 : INR (S 59) = 60) by (rewrite INR_IZR_INZ; reflexivity).
  assert (Hb : INR (S 59) <= 2 ^ 48) by (rewrite H60; lra).
  assert (H2 : 40 - 10 = INR (S 59) * (1 / 2)) by (rewrite H60; lra).
  split; [exact H1|]. split; [exact Hb|]. split; [exact H2|].
  exact (proj1 (X11_grid_values_when_step_divides_range 10 40 (1 / 2) 59
                  H1 Hb H2)).
Defined.

(** ** Grids and data on which the search cannot conclude *)

Lemma penalty_surface_empty (x_data v_data v_err ss Ds : Np.array) :
  ss = [] \/ Ds = [] ->
  concat (penalty_surface x_data v_data v_err ss Ds) = [].
Proof.
  unfold penalty_surface. intros [-> | ->]; [|reflexivity].
  induction Ds as [|D Ds IH]; simpl; auto.
Qed.

Lemma run_without_cells (x_data v_data v_err : Np.array)
  (s_min s_max s_step D_min D_max D_step : R) (ns nD : Z) :
  length x_data = length v_data -> length v_err = length v_data ->
  Grid.count s_min s_max s_step = Ok ns ->
  Grid.count D_min D_max D_step = Ok nD ->
  (ns <= 0 \/ nD <= 0)%Z ->
  Grid.run x_data v_data v_err s_min s_max s_step D_min D_max D_step
  = Raise ValueError.
Proof.
  intros Hx He Hcs HcD Hle. unfold Grid.run.
  destruct (Z.ltb_spec ns 0) as [Hneg | Hns].
  { unfold Grid.grid_search. rewrite Hcs. cbn [bind].
    now rewrite linspace_negative. }
  destruct (Z.ltb_spec nD 0) as [Hneg | HnD].
  { unfold Grid.grid_search. rewrite Hcs. cbn [bind].
    destruct (linspace_ok s_min s_max ns Hns) as (ss & Hss & _).
    rewrite Hss. cbn [bind]. rewrite HcD. cbn [bind].
    now rewrite linspace_negative. }
  destruct (grid_search_ok x_data v_data v_err s_min s_max s_step
              D_min D_max D_step ns nD Hx He Hcs Hns HcD HnD)
    as (ss & Ds & _ & Hls & _ & HlD & Hg).
  rewrite Hg. cbn [bind]. unfold Grid.best_model, Grid.amin.
  cbn [Grid.WRSS_surface]. rewrite penalty_surface_empty; [reflexivity|].
  destruct Hle as [H0 | H0]; [left | right].
  - apply length_zero_iff_nil. lia.
  - apply length_zero_iff_nil. lia.
Qed.

(** X12: a range given in reverse by at least one step, for the slip
    rate or for the locking depth, leaves no cell to evaluate, and the
    search ends in ValueError (from np.linspace when the count is
    negative, from np.amin when it is zero). *)
Theorem X12_reversed_range_raises_ValueError (x_data v_data v_err : Np.array)
  (s_min s_max s_step D_min D_max D_step : R) :
  length x_data = length v_data -> length v_err = length v_data ->
  0 < s_step -> 0 < D_step ->
  s_max + s_step <= s_min \/ D_max + D_step <= D_min ->
  Grid.run x_data v_data v_err s_min s_max s_step D_min D_max D_step
  = Raise ValueError.
Proof.
  intros Hx He Hss HDs [Hr | Hr].
  - destruct (count_reversed s_min s_max s_step Hss Hr) as (ns & Hcs & Hns).
    destruct (count_any D_min D_max D_step ltac:(lra)) as (nD & HcD).
    apply (run_without_cells _ _ _ _ _ _ _ _ _ ns nD); auto.
  - destruct (count_reversed D_min D_max D_step HDs Hr) as (nD & HcD & HnD).
    destruct (count_any s_min s_max s_step ltac:(lra)) as (ns & Hcs).
    apply (run_without_cells _ _ _ _ _ _ _ _ _ ns nD); auto.
Qed.

Lemma X12_reversed_range_raises_ValueError_witness :
  length [Fin 1] = length [Fin 0] /\ length [Fin 1] = length [Fin 0]
  /\ 0 < 1 / 2 /\ 0 < 1 / 2
  /\ (10 + 1 / 2 <= 40 \/ 50 + 1 / 2 <= 2)
  /\ Grid.run [Fin 1] [Fin 0] [Fin 1] 40 10 (1 / 2) 2 50 (1 / 2)
     = Raise ValueError.
Proof.
  assert (H1 : length [Fin 1] = length [Fin 0]) by reflexivity.
  assert (H2 : 0 < 1 / 2) by lra.
  assert (H3 : 10 + 1 / 2 <= 40 \/ 50 + 1 / 2 <= 2) by (left; lra).
  repeat (split; [assumption|]).
  exact (X12_reversed_range_raises_ValueError [Fin 1] [Fin 0] [Fin 1]
           40 10 (1 / 2) 2 50 (1 / 2) H1 H1 H2 H2 H3).
Defined.

Lemma linspace_elements (start stop : R) (num : Z) (l : Np.array) :
  start <= stop -> Grid.linspace start stop num = Ok l ->
  forall y : float64, In y l -> exists r : R, y = Fin r /\ start <= r.
Proof.
  intros Hle. unfold Grid.linspace.
  destruct (Z.ltb_spec num 0) as [|_]; [discriminate|].
  intros H. injection H as <-. intros y Hin.
  apply in_map_iff in Hin. destruct Hin as (i & <- & _).
  eexists. split; [reflexivity|].
  destruct (Nat.ltb_spec 1 (Z.to_nat num)) as [Hn|Hn].
  - destruct (Nat.eqb i (Z.to_nat num - 1)); [assumption|].
    assert (0 < INR (Z.to_nat num - 1)) by (apply lt_0_INR; lia).
    assert (0 <= (stop - start) / INR (Z.to_nat num - 1)).
    { apply Rmult_le_pos; [lra|]. left. now apply Rinv_0_lt_compat. }
    pose proof (pos_INR i).
    assert (0 <= INR i * ((stop - start) / INR (Z.to_nat num - 1)))
      by (now apply Rmult_le_pos).
    lra.
  - pose proof (pos_INR i).
    assert (0 <= INR i * (stop - start)) by (apply Rmult_le_pos; lra).
    lra.
Qed.

Lemma fold_fminimum_zeros (ws : list float64) :
  Forall (eq (Fin 0)) ws -> fold_left fminimum ws (Fin 0) = Fin 0.
Proof.
  induction 1 as [|w ws Hw _ IH]; [reflexivity|].
  subst w. simpl. now rewrite Rltb_false by lra.
Qed.

Lemma amin_zeros (W : Np.matrix) :
  concat W <> [] -> Forall (eq (Fin 0)) (concat W) ->
  Grid.amin W = Ok (Fin 0).
Proof.
  unfold Grid.amin. intros Hne Hall.
  destruct (concat W) as [|w ws]; [contradiction|].
  inversion Hall as [|? ? Hw Hws]; subst.
  now rewrite fold_fminimum_zeros.
Qed.

(** A surface of zeros with at least two columns: the search ends in
    ValueError. *)
Lemma run_zero_surface (x_data v_data v_err : Np.array)
  (s_min s_max s_step D_min D_max D_step : R) (g : Grid.grid) :
  length x_data = length v_data -> length v_err = length v_data ->
  Grid.grid_search x_data v_data v_err s_min s_max s_step D_min D_max D_step
    = Ok g ->
  Grid.WRSS_surface g
    = map (fun _ => map (fun _ => Fin 0) (Grid.s_set g)) (Grid.D_set g) ->
  (2 <= length (Grid.s_set g))%nat -> (1 <= length (Grid.D_set g))%nat ->
  Grid.run x_data v_data v_err s_min s_max s_step D_min D_max D_step
  = Raise ValueError.
Proof.
  intros Hx He Hg HW Hs HD.
  destruct (Grid.s_set g) as [|s0 [|s1 ss]] eqn:Ess; simpl in Hs; try lia.
  destruct (Grid.D_set g) as [|D0 Ds] eqn:EDs; simpl in HD; try lia.
  apply (run_tie _ _ _ _ _ _ _ _ _ g (Fin 0) (Fin 0) (Fin 0) 0 0 0 1);
    try assumption.
  - apply amin_zeros; rewrite HW.
    + discriminate.
    + apply Forall_forall. intros w Hin. apply in_concat in Hin.
      destruct Hin as (row & Hrow & Hw).
      apply in_map_iff in Hrow. destruct Hrow as (D & <- & _).
      apply in_map_iff in Hw. destruct Hw as (s & <- & _). reflexivity.
  - rewrite HW. reflexivity.
  - simpl. now apply Reqb_true.
  - rewrite HW. reflexivity.
  - simpl. now apply Reqb_true.
  - discriminate.
Qed.

(** X13: one station or none cannot single out a model.  With no
    station, or with a single station (finite data) and positive locking
    depths, every cell of the grid has penalty 0, so that on any grid of
    two slip rates or more the search ends in ValueError. *)
Theorem X13_too_few_stations_raise_ValueError
  (s_min s_max s_step D_min D_max D_step : R) :
  0 < s_step -> s_min + s_step <= s_max -> 0 < D_step -> D_min <= D_max ->
  Grid.run [] [] [] s_min s_max s_step D_min D_max D_step = Raise ValueError
  /\ (0 < D_min ->
      forall x v e : R,
        Grid.run [Fin x] [Fin v] [Fin e] s_min s_max s_step D_min D_max D_step
        = Raise ValueError).
Proof.
  intros Hss Hsr HDs HDr.
  destruct (count_two_or_more s_min s_max s_step Hss Hsr) as (ns & Hcs & Hns).
  destruct (count_pos D_min D_max D_step HDs HDr) as (nD & HcD & HnD).
  split.
  - destruct (grid_search_ok [] [] [] s_min s_max s_step D_min D_max D_step
                ns nD eq_refl eq_refl Hcs ltac:(lia) HcD ltac:(lia))
      as (ss & Ds & _ & Hls & _ & HlD & Hg).
    apply (run_zero_surface [] [] [] _ _ _ _ _ _ _ eq_refl eq_refl Hg);
      cbn [Grid.WRSS_surface Grid.s_set Grid.D_set]; [reflexivity | lia | lia].
  - intros HDpos x v e.
    destruct (grid_search_ok [Fin x] [Fin v] [Fin e]
                s_min s_max s_step D_min D_max D_step
                ns nD eq_refl eq_refl Hcs ltac:(lia) HcD ltac:(lia))
      as (ss & Ds & Hss' & Hls & HDs' & HlD & Hg).
    apply (run_zero_surface [Fin x] [Fin v] [Fin e] _ _ _ _ _ _ _
             eq_refl eq_refl Hg);
      cbn [Grid.WRSS_surface Grid.s_set Grid.D_set]; [| lia | lia].
    unfold penalty_surface. apply map_ext_in. intros D HD.
    apply map_ext_in. intros s Hs.
    destruct (linspace_elements _ _ _ _ HDr HDs' D HD) as (d & -> & Hd).
    assert (Hsle : s_min <= s_max) by lra.
    destruct (linspace_elements _ _ _ _ Hsle Hss' s Hs) as (s' & -> & _).
    apply penalty_value_single. lra.
Qed.

Lemma X13_too_few_stations_raise_ValueError_witness :
  0 < 1 / 2 /\ 10 + 1 / 2 <= 40 /\ 0 < 1 / 2 /\ 2 <= 50
  /\ Grid.run [] [] [] 10 40 (1 / 2) 2 50 (1 / 2) = Raise ValueError.
Proof.
  assert (H1 : 0 < 1 / 2) by lra.
  assert (H2 : 10 + 1 / 2 <= 40) by lra.
  assert (H3 : 2 <= 50) by lra.
  repeat (split; [assumption|]).
  exact (proj1 (X13_too_few_stations_raise_ValueError 10 40 (1 / 2) 2 50 (1 / 2)
                  H1 H2 H1 H3)).
Defined.

(** ** More on the geometry *)

Lemma fadd_NaN_r (a : float64) : fadd a NaN = NaN.
Proof. destruct a; reflexivity. Qed.



Lemma sqrt_swap (x1 y1 x2 y2 : R) :
  sqrt ((x1 - x2) * (x1 - x2) + (y1 - y2) * (y1 - y2))
  = sqrt ((x2 - x1) * (x2 - x1) + (y2 - y1) * (y2 - y1)).
Proof. f_equal. ring. Qed.

Lemma fault_length_swap (x1 y1 x2 y2 : R) :
  Fault.fault_length (Fin x2, Fin y2) (Fin x1, Fin y1)
  = Fault.fault_length (Fin x1, Fin y1) (Fin x2, Fin y2).
Proof. rewrite !fault_length_fin. f_equal. apply sqrt_swap. Qed.

Lemma fault_uv_fin (x1 y1 x2 y2 : R) :
  Fault.fault_length (Fin x1, Fin y1) (Fin x2, Fin y2) <> Fin 0 ->
  Fault.fault_uv (Fin x1, Fin y1) (Fin x2, Fin y2)
  = (Fin ((x2 - x1) / sqrt ((x2 - x1) * (x2 - x1) + (y2 - y1) * (y2 - y1))),
     Fin ((y2 - y1) / sqrt ((x2 - x1) * (x2 - x1) + (y2 - y1) * (y2 - y1)))).
Proof.
  intros Hlen. unfold Fault.fault_uv.
  now rewrite fault_dx_fin, fault_dy_fin.
Qed.

(** X14: the order of the two fault vertices sets the orientation.
    Swapping them keeps the fault length and the propagated errors, and
    changes the sign of every profile distance and of every
    fault-parallel velocity. *)
Theorem X14_swapping_fault_vertices (x1 y1 x2 y2 half_length : R)
  (ps : list (R * R)) (sts : list Fault.station) :
  Fault.fault_length (Fin x1, Fin y1) (Fin x2, Fin y2) <> Fin 0 ->
  Fault.fault_length (Fin x2, Fin y2) (Fin x1, Fin y1)
    = Fault.fault_length (Fin x1, Fin y1) (Fin x2, Fin y2)
  /\ Fault.x_data (Fin x2, Fin y2) (Fin x1, Fin y1) half_length
       (map (fun p => (Fin (fst p), Fin (snd p))) ps)
     = map fneg (Fault.x_data (Fin x1, Fin y1) (Fin x2, Fin y2) half_length
                   (map (fun p => (Fin (fst p), Fin (snd p))) ps))
  /\ (forall (k : nat) (st : Fault.station) (e n : R),
        nth_error sts k = Some st ->
        Fault.e_vel st = Fin e -> Fault.n_vel st = Fin n ->
        exists v : R,
          nth_error (Fault.v_data (Fin x1, Fin y1) (Fin x2, Fin y2) sts) k
            = Some (Fin v)
          /\ nth_error (Fault.v_data (Fin x2, Fin y2) (Fin x1, Fin y1) sts) k
            = Some (Fin (- v)))
  /\ (forall (k : nat) (st : Fault.station) (ee en : R),
        nth_error sts k = Some st ->
        Fault.e_err st = Fin ee -> Fault.n_err st = Fin en ->
        nth_error (Fault.v_err (Fin x2, Fin y2) (Fin x1, Fin y1) sts) k
        = nth_error (Fault.v_err (Fin x1, Fin y1) (Fin x2, Fin y2) sts) k).
Proof.
  intros Hlen.
  assert (Hlen' : Fault.fault_length (Fin x2, Fin y2) (Fin x1, Fin y1) <> Fin 0)
    by (now rewrite fault_length_swap).
  pose proof (L_pos x1 y1 x2 y2 Hlen) as HL.
  pose proof (fault_uv_fin x1 y1 x2 y2 Hlen) as Huv.
  pose proof (fault_uv_fin x2 y2 x1 y1 Hlen') as Huv'.
  rewrite sqrt_swap in Huv'.
  set (L := sqrt ((x2 - x1) * (x2 - x1) + (y2 - y1) * (y2 - y1))) in *.
  split; [apply fault_length_swap|]. split; [|split].
  - rewrite !x_data_fin by assumption. rewrite sqrt_swap. fold L.
    rewrite map_map. apply map_ext. intros [px py]. cbn [fst snd fneg].
    f_equal. field. lra.
  - intros k st e n Hk He Hn. eexists. split.
    + apply (v_data_nth _ _ _ _ e n sts k st Huv Hk He Hn).
    + rewrite (v_data_nth _ _ _ _ e n sts k st Huv' Hk He Hn).
      do 2 f_equal. field. lra.
  - intros k st ee en Hk He Hn.
    rewrite (v_err_nth _ _ _ _ ee en sts k st Huv Hk He Hn).
    rewrite (v_err_nth _ _ _ _ ee en sts k st Huv' Hk He Hn).
    do 3 f_equal. field. lra.
Qed.

Lemma X14_swapping_fault_vertices_witness :
  Fault.fault_length (Fin 0, Fin 0) (Fin 3000, Fin 4000) <> Fin 0
  /\ Fault.x_data (Fin 3000, Fin 4000) (Fin 0, Fin 0) 50
       (map (fun p => (Fin (fst p), Fin (snd p))) [(5000, 1000)])
     = map fneg (Fault.x_data (Fin 0, Fin 0) (Fin 3000, Fin 4000) 50
                   (map (fun p => (Fin (fst p), Fin (snd p))) [(5000, 1000)])).
Proof.
  assert (H : Fault.fault_length (Fin 0, Fin 0) (Fin 3000, Fin 4000) <> Fin 0).
  { apply fault_length_distinct. left. lra. }
  split; [exact H|].
  exact (proj1 (proj2 (X14_swapping_fault_vertices 0 0 3000 4000 50
                         [(5000, 1000)] [] H))).
Defined.


(** Splits an equation between lists of finite values, or of pairs of
    them, into the equations between the reals. *)
Ltac by_components :=
  repeat match goal with
         | |- _ :: _ = _ :: _ => f_equal
         | |- (_, _) = (_, _) => f_equal
         | |- Fin _ = Fin _ => apply f_equal
         end.

Section SelectionBox.

Variables x1 y1 x2 y2 half_length : R.

Let L : R := sqrt ((x2 - x1) * (x2 - x1) + (y2 - y1) * (y2 - y1)).
Let px : R := - ((y2 - y1) / L).
Let py : R := (x2 - x1) / L.
Let H : R := half_length * 1000.

Hypothesis Hlen : Fault.fault_length (Fin x1, Fin y1) (Fin x2, Fin y2) <> Fin 0.

Let finite (p : R * R) : point := (Fin (fst p), Fin (snd p)).

Lemma box_vertices_fin :
  Fault.box_vertices_utm (Fin x1, Fin y1) (Fin x2, Fin y2) half_length
  = map finite [ (x1 - H * px, y1 - H * py); (x1 + H * px, y1 + H * py);
                 (x2 + H * px, y2 + H * py); (x2 - H * px, y2 - H * py) ].
Proof.
  unfold Fault.box_vertices_utm, Fault.offset_x, Fault.offset_y.
  rewrite prof_dx_fin, prof_dy_fin by assumption. reflexivity.
Qed.

Lemma prof_vertices_fin :
  Fault.prof_vertices_utm (Fin x1, Fin y1) (Fin x2, Fin y2) half_length
  = map finite [ ((x1 + x2) / 2 - H * px, (y1 + y2) / 2 - H * py);
                 ((x1 + x2) / 2 + H * px, (y1 + y2) / 2 + H * py) ].
Proof.
  unfold Fault.prof_vertices_utm, Fault.box. rewrite box_vertices_fin.
  unfold Np.mean, Np.sum, finite.
  cbn [map nth fst snd fold_left length fadd INR].
  rewrite !fdiv_fin by lra.
  cbn [map]. by_components; field.
Qed.

Lemma profile_unit : px * px + py * py = 1.
Proof.
  pose proof (fault_unit x1 y1 x2 y2 Hlen) as Hu. fold L in Hu.
  unfold px, py. lra.
Qed.

Lemma profile_across_fault : (x2 - x1) * px + (y2 - y1) * py = 0.
Proof.
  pose proof (L_pos x1 y1 x2 y2 Hlen) as HL. fold L in HL.
  unfold px, py. field. lra.
Qed.

(** The distance of the point [v1 + t (v2 - v1) + sg H p]. *)
Lemma offset_point_distance (t sg : R) :
  ((x1 + t * (x2 - x1) + sg * H * px - (x1 + x2) / 2) * px
   + (y1 + t * (y2 - y1) + sg * H * py - (y1 + y2) / 2) * py) / 1000
  = sg * half_length.
Proof.
  pose proof profile_unit as Hu. pose proof profile_across_fault as Ho.
  replace ((x1 + t * (x2 - x1) + sg * H * px - (x1 + x2) / 2) * px
           + (y1 + t * (y2 - y1) + sg * H * py - (y1 + y2) / 2) * py)
    with ((t - 1 / 2) * ((x2 - x1) * px + (y2 - y1) * py)
          + sg * H * (px * px + py * py)) by field.
  rewrite Hu, Ho. unfold H. field.
Qed.

Lemma box_and_profile_distances :
  Fault.x_data (Fin x1, Fin y1) (Fin x2, Fin y2) half_length
    (Fault.prof_vertices_utm (Fin x1, Fin y1) (Fin x2, Fin y2) half_length)
  = [Fin (- half_length); Fin half_length]
  /\ Fault.x_data (Fin x1, Fin y1) (Fin x2, Fin y2) half_length
       (Fault.box_vertices_utm (Fin x1, Fin y1) (Fin x2, Fin y2) half_length)
     = [Fin (- half_length); Fin half_length;
        Fin half_length; Fin (- half_length)].
Proof.
  rewrite prof_vertices_fin, box_vertices_fin. unfold finite.
  rewrite !x_data_fin by assumption. fold L px py. cbn [map fst snd].
  split; by_components.
  - transitivity (-1 * half_length); [|ring].
    rewrite <- (offset_point_distance (1 / 2) (-1)). field.
  - transitivity (1 * half_length); [|ring].
    rewrite <- (offset_point_distance (1 / 2) 1). field.
  - transitivity (-1 * half_length); [|ring].
    rewrite <- (offset_point_distance 0 (-1)). field.
  - transitivity (1 * half_length); [|ring].
    rewrite <- (offset_point_distance 0 1). field.
  - transitivity (1 * half_length); [|ring].
    rewrite <- (offset_point_distance 1 1). field.
  - transitivity (-1 * half_length); [|ring].
    rewrite <- (offset_point_distance 1 (-1)). field.
Qed.

End SelectionBox.

(** X16: for a fault of non-zero length, the two ends of the profile
    line lie at the distances -half_length and +half_length km along the
    profile, and so do the four corners of the selection box: the box
    spans exactly the profile half-length on either side of the fault. *)
Theorem X16_box_spans_the_profile_half_length (x1 y1 x2 y2 half_length : R) :
  Fault.fault_length (Fin x1, Fin y1) (Fin x2, Fin y2) <> Fin 0 ->
  Fault.x_data (Fin x1, Fin y1) (Fin x2, Fin y2) half_length
    (Fault.prof_vertices_utm (Fin x1, Fin y1) (Fin x2, Fin y2) half_length)
  = [Fin (- half_length); Fin half_length]
  /\ Fault.x_data (Fin x1, Fin y1) (Fin x2, Fin y2) half_length
       (Fault.box_vertices_utm (Fin x1, Fin y1) (Fin x2, Fin y2) half_length)
     = [Fin (- half_length); Fin half_length;
        Fin half_length; Fin (- half_length)].
Proof. intros Hlen. now apply box_and_profile_distances. Qed.

Lemma X16_box_spans_the_profile_half_length_witness :
  Fault.fault_length (Fin 0, Fin 0) (Fin 3000, Fin 4000) <> Fin 0
  /\ Fault.x_data (Fin 0, Fin 0) (Fin 3000, Fin 4000) 50
       (Fault.prof_vertices_utm (Fin 0, Fin 0) (Fin 3000, Fin 4000) 50)
     = [Fin (- 50); Fin 50].
Proof.
  assert (H : Fault.fault_length (Fin 0, Fin 0) (Fin 3000, Fin 4000) <> Fin 0).
  { apply fault_length_distinct. left. lra. }
  split; [exact H|].
  exact (proj1 (X16_box_spans_the_profile_half_length 0 0 3000 4000 50 H)).
Defined.

(** X17: projecting never amplifies.  For a fault of non-zero length
    and a station with finite velocities and nonnegative finite errors,
    the size of the fault-parallel velocity is at most the horizontal
    speed, and the propagated error lies between the smaller and the
    larger of the two component errors. *)
Theorem X17_projection_bounds (x1 y1 x2 y2 : R) (sts : list Fault.station)
  (k : nat) (st : Fault.station) (e n ee en : R) :
  Fault.fault_length (Fin x1, Fin y1) (Fin x2, Fin y2) <> Fin 0 ->
  nth_error sts k = Some st ->
  Fault.e_vel st = Fin e -> Fault.n_vel st = Fin n ->
  Fault.e_err st = Fin ee -> Fault.n_err st = Fin en ->
  0 <= ee -> 0 <= en ->
  exists v sg : R,
    nth_error (Fault.v_data (Fin x1, Fin y1) (Fin x2, Fin y2) sts) k
      = Some (Fin v)
    /\ nth_error (Fault.v_err (Fin x1, Fin y1) (Fin x2, Fin y2) sts) k
      = Some (Fin sg)
    /\ Rabs v <= sqrt (e * e + n * n)
    /\ Rmin ee en <= sg <= Rmax ee en.
Proof.
  intros Hlen Hk He Hn Hee Hen Hee0 Hen0.
  pose proof (fault_uv_fin x1 y1 x2 y2 Hlen) as Huv.
  pose proof (fault_unit x1 y1 x2 y2 Hlen) as Hu.
  set (L := sqrt ((x2 - x1) * (x2 - x1) + (y2 - y1) * (y2 - y1))) in *.
  set (ux := (x2 - x1) / L) in *. set (uy := (y2 - y1) / L) in *.
  eexists. eexists.
  split; [apply (v_data_nth _ _ _ _ e n sts k st Huv Hk He Hn)|].
  split; [apply (v_err_nth _ _ _ _ ee en sts k st Huv Hk Hee Hen)|].
  assert (Hux : 0 <= ux * ux) by apply Rle_0_sqr.
  assert (Huy : 0 <= uy * uy) by apply Rle_0_sqr.
  split.
  - rewrite <- sqrt_Rsqr_abs. apply sqrt_le_1_alt. unfold Rsqr.
    assert (0 <= (e * uy - n * ux) * (e * uy - n * ux)) by apply Rle_0_sqr.
    replace (e * e + n * n)
      with ((e * e + n * n) * (ux * ux + uy * uy)) by (rewrite Hu; ring).
    lra.
  - set (q := ee * ux * (ee * ux) + en * uy * (en * uy)).
    assert (Hq : q = ee * ee * (ux * ux) + en * en * (uy * uy))
      by (unfold q; ring).
    split.
    + pose proof (Rmin_l ee en) as Hm1. pose proof (Rmin_r ee en) as Hm2.
      assert (Hm0 : 0 <= Rmin ee en) by (now apply Rmin_glb).
      set (m := Rmin ee en) in *.
      rewrite <- (sqrt_square m) by assumption. apply sqrt_le_1_alt.
      assert (m * m <= ee * ee) by nra. assert (m * m <= en * en) by nra.
      assert (0 <= (ee * ee - m * m) * (ux * ux)) by (apply Rmult_le_pos; lra).
      assert (0 <= (en * en - m * m) * (uy * uy)) by (apply Rmult_le_pos; lra).
      replace (m * m) with (m * m * (ux * ux + uy * uy)) by (rewrite Hu; ring).
      lra.
    + pose proof (Rmax_l ee en) as Hm1. pose proof (Rmax_r ee en) as Hm2.
      set (M := Rmax ee en) in *.
      assert (HM0 : 0 <= M) by lra.
      rewrite <- (sqrt_square M) by assumption. apply sqrt_le_1_alt.
      assert (ee * ee <= M * M) by nra. assert (en * en <= M * M) by nra.
      assert (0 <= (M * M - ee * ee) * (ux * ux)) by (apply Rmult_le_pos; lra).
      assert (0 <= (M * M - en * en) * (uy * uy)) by (apply Rmult_le_pos; lra).
      replace (M * M) with (M * M * (ux * ux + uy * uy)) by (rewrite Hu; ring).
      lra.
Qed.

Lemma X17_projection_bounds_witness :
  Fault.fault_length (Fin 0, Fin 0) (Fin 3000, Fin 4000) <> Fin 0
  /\ 0 <= 1 / 10 /\ 0 <= 2 / 10
  /\ exists v sg : R,
      nth_error (Fault.v_data (Fin 0, Fin 0) (Fin 3000, Fin 4000)
                   [Fault.mkStation (Fin 241) (Fin 34) (Fin 3) (Fin 4)
                      (Fin (1 / 10)) (Fin (2 / 10)) (Fin 0)]) 0
        = Some (Fin v)
      /\ nth_error (Fault.v_err (Fin 0, Fin 0) (Fin 3000, Fin 4000)
                      [Fault.mkStation (Fin 241) (Fin 34) (Fin 3) (Fin 4)
                         (Fin (1 / 10)) (Fin (2 / 10)) (Fin 0)]) 0
        = Some (Fin sg)
      /\ Rabs v <= sqrt (3 * 3 + 4 * 4)
      /\ Rmin (1 / 10) (2 / 10) <= sg <= Rmax (1 / 10) (2 / 10).
Proof.
  assert (H : Fault.fault_length (Fin 0, Fin 0) (Fin 3000, Fin 4000) <> Fin 0).
  { apply fault_length_distinct. left. lra. }
  assert (H1 : 0 <= 1 / 10) by lra. assert (H2 : 0 <= 2 / 10) by lra.
  repeat (split; [assumption|]).
  exact (X17_projection_bounds 0 0 3000 4000
           [Fault.mkStation (Fin 241) (Fin 34) (Fin 3) (Fin 4)
              (Fin (1 / 10)) (Fin (2 / 10)) (Fin 0)] 0
           (Fault.mkStation (Fin 241) (Fin 34) (Fin 3) (Fin 4)
              (Fin (1 / 10)) (Fin (2 / 10)) (Fin 0))
           3 4 (1 / 10) (2 / 10) H eq_refl eq_refl eq_refl eq_refl eq_refl H1 H2).
Defined.

(** ** The reported best model *)

Lemma run_best_cell (x_data v_data v_err : Np.array)
  (s_min s_max s_step D_min D_max D_step : R) (g : Grid.grid) (b : Grid.best) :
  length x_data = length v_data -> length v_err = length v_data ->
  Grid.run x_data v_data v_err s_min s_max s_step D_min D_max D_step = Ok (g, b) ->
  Grid.cell_penalty x_data v_data v_err (Grid.s_best b) (Grid.D_best b)
    = Ok (Grid.WRSS_best b)
  /\ exists r : Np.array,
      Np.sub v_data (v_model (Grid.s_best b) (Grid.D_best b) x_data) = Ok r
      /\ Grid.v_shift_best b = Np.mean r.
Proof.
  intros Hx He Hrun.
  destruct (run_inv _ _ _ _ _ _ _ _ _ _ _ Hx He Hrun) as (Hsv & HDv & HW & Hb).
  destruct (best_model_inv _ _ _ _ Hb)
    as (i & j & r & Ha & Hidx & Hgs & HgD & Hr & Hm).
  rewrite Hsv in Hgs. rewrite HDv in HgD.
  destruct (get2_meshgrid_inv _ _ _ _ _ _ Hgs HgD) as [HDi Hsj].
  assert (Hin : In (i, j) (Grid.where_eq (Grid.WRSS_surface g) (Grid.WRSS_best b))).
  { rewrite Hidx. now left. }
  apply where_eq_In in Hin. destruct Hin as (w0 & Hw0 & Heq0).
  pose proof (feqb_eq _ _ Heq0) as ->.
  pose proof (get2_surface x_data v_data v_err _ _ _ _ _ _ HDi Hsj) as Hcell.
  rewrite <- HW, Hw0 in Hcell. injection Hcell as Hcell.
  split; [|eauto].
  rewrite Hcell. now apply cell_penalty_value.
Qed.

(** X18: the reported numbers agree.  When the search returns on
    finite, non-empty data with a non-zero best locking depth, the
    trial-and-error penalty of the reported best model, shifted by the
    reported best shift, is the reported best penalty. *)
Theorem X18_best_model_has_best_penalty (xs vs es : list R)
  (s_min s_max s_step D_min D_max D_step s D : R)
  (g : Grid.grid) (b : Grid.best) :
  length xs = length vs -> length es = length vs -> vs <> [] ->
  Grid.run (map Fin xs) (map Fin vs) (map Fin es)
           s_min s_max s_step D_min D_max D_step = Ok (g, b) ->
  Grid.s_best b = Fin s -> Grid.D_best b = Fin D -> D <> 0 ->
  WRSS (map Fin vs)
       (v_forward (Grid.s_best b) (Grid.D_best b) (Grid.v_shift_best b)
                  (map Fin xs))
       (map Fin es)
  = Ok (Grid.WRSS_best b).
Proof.
  intros Hx He Hne Hrun Hs HD HD0.
  destruct (run_best_cell (map Fin xs) (map Fin vs) (map Fin es)
              s_min s_max s_step D_min D_max D_step g b
              ltac:(now rewrite !length_map) ltac:(now rewrite !length_map) Hrun)
    as (Hcell & r & Hr & Hm).
  rewrite Hs, HD in *.
  destruct (cell_penalty_as_WRSS xs vs es s D Hx He Hne HD0) as [Hr' Hw].
  rewrite Hr in Hr'. injection Hr' as ->.
  now rewrite Hm, <- Hw.
Qed.

Lemma X18_best_model_has_best_penalty_witness :
  length [1; -1] = length [1; -1] /\ length [1; 1] = length [1; -1]
  /\ [1; -1] <> [] /\ 1 <> 0
  /\ exists (g : Grid.grid) (b : Grid.best),
      Grid.run (map Fin [1; -1]) (map Fin [1; -1]) (map Fin [1; 1])
               4 8 4 1 1 1 = Ok (g, b)
      /\ Grid.s_best b = Fin 4 /\ Grid.D_best b = Fin 1
      /\ WRSS (map Fin [1; -1])
              (v_forward (Grid.s_best b) (Grid.D_best b) (Grid.v_shift_best b)
                         (map Fin [1; -1]))
              (map Fin [1; 1])
         = Ok (Grid.WRSS_best b).
Proof.
  assert (H1 : length [1; -1] = length [1; -1]) by reflexivity.
  assert (H2 : length [1; 1] = length [1; -1]) by reflexivity.
  assert (H3 : [1; -1] <> []) by discriminate.
  assert (H4 : 1 <> 0) by lra.
  repeat (split; [assumption|]).
  destruct two_station_run as [shift Hrun].
  eexists. eexists. split; [exact Hrun|].
  split; [reflexivity|]. split; [reflexivity|].
  exact (X18_best_model_has_best_penalty [1; -1] [1; -1] [1; 1] 4 8 4 1 1 1 4 1
           _ _ H1 H2 H3 Hrun eq_refl eq_refl H4).
Defined.

(** ** Strike and invariance of the profile distances *)

Lemma atan_pos (t : R) : 0 < t -> 0 < atan t.
Proof. intros H. rewrite <- atan_0. now apply atan_increasing. Qed.

Lemma atan_nonpos (t : R) : t <= 0 -> atan t <= 0.
Proof.
  intros [H | ->]; [|rewrite atan_0; lra].
  left. rewrite <- atan_0. now apply atan_increasing.
Qed.

Lemma Ratan2_range (a b : R) : - PI < Ratan2 a b <= PI.
Proof.
  pose proof PI_RGT_0 as Hpi. unfold Ratan2.
  destruct (Rlt_dec 0 b) as [Hb | Hb].
  - rewrite Rltb_true by assumption.
    pose proof (atan_bound (a / b)). lra.
  - rewrite (Rltb_false 0 b) by lra.
    destruct (Rlt_dec b 0) as [Hb' | Hb'].
    + rewrite (Rltb_true b 0) by assumption.
      pose proof (atan_bound (a / b)) as [Hlo Hhi].
      destruct (Rlt_dec a 0) as [Ha | Ha].
      * rewrite (Rltb_true a 0) by assumption.
        assert (0 < a / b).
        { replace (a / b) with ((- a) / (- b)) by (field; lra).
          apply Rdiv_lt_0_compat; lra. }
        pose proof (atan_pos _ H). lra.
      * rewrite (Rltb_false a 0) by lra.
        assert (a / b <= 0).
        { replace (a / b) with (- (a / (- b))) by (field; lra).
          assert (0 <= a / (- b)).
          { apply Rmult_le_pos; [lra|]. left. apply Rinv_0_lt_compat. lra. }
          lra. }
        pose proof (atan_nonpos _ H). lra.
    + rewrite (Rltb_false b 0) by lra.
      destruct (Rlt_dec 0 a) as [Ha | Ha].
      * rewrite (Rltb_true 0 a) by assumption. lra.
      * rewrite (Rltb_false 0 a) by lra.
        destruct (Rlt_dec a 0) as [Ha' | Ha'].
        -- rewrite (Rltb_true a 0) by assumption. lra.
        -- rewrite (Rltb_false a 0) by lra. lra.
Qed.

(** X19: the strike is an azimuth.  For a fault of non-zero length the
    strike is a finite angle in (-180, 180] degrees whose sine is the
    east component and whose cosine is the north component of the
    fault-parallel unit vector: 0 for a fault running due north, counted
    positive towards the east. *)
Theorem X19_strike_is_an_azimuth (x1 y1 x2 y2 : R) :
  Fault.fault_length (Fin x1, Fin y1) (Fin x2, Fin y2) <> Fin 0 ->
  exists theta : R,
    Fault.fault_strike (Fin x1, Fin y1) (Fin x2, Fin y2) = Fin theta
    /\ -180 < theta <= 180
    /\ Fault.fault_dx (Fin x1, Fin y1) (Fin x2, Fin y2)
       = Fin (sin (theta * (PI / 180)))
    /\ Fault.fault_dy (Fin x1, Fin y1) (Fin x2, Fin y2)
       = Fin (cos (theta * (PI / 180))).
Proof.
  intros Hlen.
  pose proof (fault_unit x1 y1 x2 y2 Hlen) as Hu.
  pose proof (fault_dx_fin x1 y1 x2 y2 Hlen) as Hdx.
  pose proof (fault_dy_fin x1 y1 x2 y2 Hlen) as Hdy.
  set (L := sqrt ((x2 - x1) * (x2 - x1) + (y2 - y1) * (y2 - y1))) in *.
  set (a := (x2 - x1) / L) in *. set (b := (y2 - y1) / L) in *.
  pose proof PI_RGT_0 as Hpi.
  exists (Ratan2 a b * (180 / PI)).
  split.
  { unfold Fault.fault_strike. rewrite Hdx, Hdy. reflexivity. }
  assert (Hback : Ratan2 a b * (180 / PI) * (PI / 180) = Ratan2 a b)
    by (field; lra).
  destruct (Ratan2_unit a b Hu) as [Hs Hc].
  split.
  - pose proof (Ratan2_range a b) as [Hlo Hhi].
    assert (Hk : 0 < 180 / PI) by (apply Rdiv_lt_0_compat; lra).
    assert (Hpk : PI * (180 / PI) = 180) by (field; lra).
    split.
    + assert (- PI * (180 / PI) < Ratan2 a b * (180 / PI))
        by (apply Rmult_lt_compat_r; assumption).
      lra.
    + assert (Ratan2 a b * (180 / PI) <= PI * (180 / PI))
        by (apply Rmult_le_compat_r; lra).
      lra.
  - rewrite Hback, Hs, Hc, Hdx, Hdy. auto.
Qed.

Lemma X19_strike_is_an_azimuth_witness :
  Fault.fault_length (Fin 0, Fin 0) (Fin 3000, Fin 4000) <> Fin 0
  /\ exists theta : R,
      Fault.fault_strike (Fin 0, Fin 0) (Fin 3000, Fin 4000) = Fin theta
      /\ -180 < theta <= 180.
Proof.
  assert (H : Fault.fault_length (Fin 0, Fin 0) (Fin 3000, Fin 4000) <> Fin 0).
  { apply fault_length_distinct. left. lra. }
  split; [exact H|].
  destruct (X19_strike_is_an_azimuth 0 0 3000 4000 H) as (theta & Hs & Hr & _).
  exists theta. auto.
Defined.

Lemma fault_length_translate (x1 y1 x2 y2 tx ty : R) :
  Fault.fault_length (Fin (x1 + tx), Fin (y1 + ty)) (Fin (x2 + tx), Fin (y2 + ty))
  = Fault.fault_length (Fin x1, Fin y1) (Fin x2, Fin y2).
Proof. rewrite !fault_length_fin. do 2 f_equal. ring. Qed.

(** X20: for a fault of non-zero length the profile distances do not
    depend on the profile half-length (the origin stays at the fault
    midpoint whatever the size of the box), nor on a translation applied
    to the fault vertices and to the stations together. *)
Theorem X20_profile_distance_invariances
  (x1 y1 x2 y2 half_length half_length' tx ty : R) (ps : list (R * R)) :
  Fault.fault_length (Fin x1, Fin y1) (Fin x2, Fin y2) <> Fin 0 ->
  Fault.x_data (Fin x1, Fin y1) (Fin x2, Fin y2) half_length'
    (map (fun p => (Fin (fst p), Fin (snd p))) ps)
  = Fault.x_data (Fin x1, Fin y1) (Fin x2, Fin y2) half_length
      (map (fun p => (Fin (fst p), Fin (snd p))) ps)
  /\ Fault.x_data (Fin (x1 + tx), Fin (y1 + ty)) (Fin (x2 + tx), Fin (y2 + ty))
       half_length
       (map (fun p => (Fin (fst p), Fin (snd p)))
            (map (fun p => (fst p + tx, snd p + ty)) ps))
     = Fault.x_data (Fin x1, Fin y1) (Fin x2, Fin y2) half_length
         (map (fun p => (Fin (fst p), Fin (snd p))) ps).
Proof.
  intros Hlen. split.
  - now rewrite !x_data_fin.
  - assert (Hlen' : Fault.fault_length (Fin (x1 + tx), Fin (y1 + ty))
                      (Fin (x2 + tx), Fin (y2 + ty)) <> Fin 0)
      by (now rewrite fault_length_translate).
    pose proof (L_pos x1 y1 x2 y2 Hlen) as HL.
    rewrite !x_data_fin by assumption. rewrite map_map.
    replace ((x2 + tx - (x1 + tx)) * (x2 + tx - (x1 + tx))
             + (y2 + ty - (y1 + ty)) * (y2 + ty - (y1 + ty)))
      with ((x2 - x1) * (x2 - x1) + (y2 - y1) * (y2 - y1)) by ring.
    apply map_ext. intros [px py]. cbn [fst snd]. f_equal. field. lra.
Qed.

Lemma X20_profile_distance_invariances_witness :
  Fault.fault_length (Fin 0, Fin 0) (Fin 3000, Fin 4000) <> Fin 0
  /\ Fault.x_data (Fin 0, Fin 0) (Fin 3000, Fin 4000) 100
       (map (fun p => (Fin (fst p), Fin (snd p))) [(5000, 1000)])
     = Fault.x_data (Fin 0, Fin 0) (Fin 3000, Fin 4000) 50
         (map (fun p => (Fin (fst p), Fin (snd p))) [(5000, 1000)]).
Proof.
  assert (H : Fault.fault_length (Fin 0, Fin 0) (Fin 3000, Fin 4000) <> Fin 0).
  { apply fault_length_distinct. left. lra. }
  split; [exact H|].
  exact (proj1 (X20_profile_distance_invariances 0 0 3000 4000 50 100 0 0
                  [(5000, 1000)] H)).
Defined.
